(** * Flashcard client: session controller and playback synchroniser

    A shallow embedding of [static/script.js].  The script keeps its state in
    module-level variables and in the DOM, and reacts to user clicks, network
    responses, media events and one timer.  Here the variables and the part
    of the DOM the script reads back become one record [State]; every
    function of the script becomes a function on [State]; the outcome of each
    suspension point (a [fetch], a [response.json()], an image load, an
    [audioPlayer.play()]) is an explicit argument, and the events of the
    audio element and the passing of time are functions of their own.  In a
    [session] an operation is followed to its end before the next one starts;
    a play request is also given in its two halves, [play_click] and
    [play_response], for the schedules in which requests overlap.

    Conventions of the embedding:
    - JavaScript arrays of objects hold references.  Card objects live in
      [heap]; [masterFlashcardsData] and [filteredFlashcardsData] are lists of
      heap locations, so both arrays see a mutation of a card.
    - JavaScript numbers used as indices are [Z].  Media times are IEEE 754
      doubles; a finite double is kept as the rational [Q] it denotes, and an
      arithmetic operation of the script is the exact operation followed by
      [round64].  [NaN] is [None]; an infinity has no counterpart: neither
      the infinite duration of a stream, nor a quotient that overflows or
      divides by a time per word that has underflowed to zero.
    - A [string] holds the UTF-8 encoding of a JavaScript string.
    - What the engine's [RegExp] constructor says of a pattern is part of the
      environment ([regexp_accepts]).
    - DOM elements carry a unique identifier; a CSS class is the set of the
      identifiers of the elements that carry it, attached to the document or
      not; [document.querySelectorAll] reaches the attached ones.  The
      elements the script looks up ([nextCardBtn], [message], ...) exist.
      Text that the script writes and never reads back (the phonetic line, the
      back face, the modal of phonetic symbols) is not part of the state.
    - A handler stored in an [on...] slot is a closure; it is represented by
      its captured variables.  The captured mutable variable
      [lastHighlightedIndex] of a call to [playAudioFromApi] lives in
      [cells], keyed by the number of the call.
    - An exception that leaves a function uncaught ends that function; the
      state reached so far stays. *)

From Stdlib Require Import ZArith QArith Qround Qpower Qabs String Ascii List Sorted Lia.
From stdpp Require Import base list gmap strings pretty.

Open Scope string_scope.
Open Scope Z_scope.

(** ** Cards *)

Record CardDefinition := mkCardDefinition {
  meaning : string;
  usage_example : string;
  usage_example_es : string;
  alternative_example : option string
}.

Record Card := mkCard {
  id : Z;
  name : string;
  phonetic : string;
  is_phrasal_verb : bool;
  learned : bool;
  imagePath : option string;
  category : string;
  deck_name : string;
  definitions : list CardDefinition
}.

Definition set_id (i : Z) (c : Card) : Card :=
  mkCard i (name c) (phonetic c) (is_phrasal_verb c) (learned c)
         (imagePath c) (category c) (deck_name c) (definitions c).

Definition set_learned (b : bool) (c : Card) : Card :=
  mkCard (id c) (name c) (phonetic c) (is_phrasal_verb c) b
         (imagePath c) (category c) (deck_name c) (definitions c).

Definition set_imagePath (p : option string) (c : Card) : Card :=
  mkCard (id c) (name c) (phonetic c) (is_phrasal_verb c) (learned c)
         p (category c) (deck_name c) (definitions c).

(** Truthiness of a string-valued property: [undefined], [null] and the empty
    string are falsy. *)
Definition truthy (o : option string) : bool :=
  match o with
  | Some s => negb (String.eqb s "")
  | None => false
  end.

(** [a || b] on strings. *)
Definition or_else (a b : string) : string :=
  if String.eqb a "" then b else a.

(** A template literal prints [undefined] for a missing value. *)
Definition show (o : option string) : string :=
  match o with
  | Some s => s
  | None => "undefined"
  end.

(** ** Strings *)

(** The byte of [s] at [i]; 256 past its end. *)
Definition byte_at (s : string) (i : nat) : nat :=
  match String.get i s with
  | Some c => nat_of_ascii c
  | None => 256
  end.

(** The number of bytes of the white space character that [s] starts with, 0
    when it starts with none.  White space is what [\s] and [trim] take for
    it: TAB, LF, VT, FF, CR, the space, and in their UTF-8 encodings U+00A0,
    U+1680, U+2000 to U+200A, U+2028, U+2029, U+202F, U+205F, U+3000 and
    U+FEFF. *)
Definition white_space (s : string) : nat :=
  let c := byte_at s 0 in
  let d := byte_at s 1 in
  let e := byte_at s 2 in
  (if (c =? 32) || ((9 <=? c) && (c <=? 13)) then 1
   else if (c =? 194) && (d =? 160) then 2
   else if (c =? 225) && (d =? 154) && (e =? 128) then 3
   else if (c =? 226) && (d =? 128)
           && (((128 <=? e) && (e <=? 138)) || (e =? 168) || (e =? 169)
               || (e =? 175)) then 3
   else if (c =? 226) && (d =? 129) && (e =? 159) then 3
   else if (c =? 227) && (d =? 128) && (e =? 128) then 3
   else if (c =? 239) && (d =? 187) && (e =? 191) then 3
   else 0)%nat.

(** The maximal runs of characters of [s] that are not white space, [cur]
    being the run read so far and [skip] the bytes still to pass of the white
    space character being read. *)
Fixpoint split_ws (skip : nat) (cur s : string) : list string :=
  match s with
  | EmptyString => if String.eqb cur "" then [] else [cur]
  | String c rest =>
      match skip with
      | S skip' => split_ws skip' cur rest
      | O =>
          match white_space s with
          | O => split_ws 0 (cur ++ String c "") rest
          | S skip' =>
              if String.eqb cur "" then split_ws skip' "" rest
              else cur :: split_ws skip' "" rest
          end
      end
  end.

(** [s.trim().split(/\s+/)]: the words of [s]; a blank string gives the one
    empty word. *)
Definition trim_split (s : string) : list string :=
  match split_ws 0 "" s with
  | [] => [""]
  | ws => ws
  end.

(** [s.includes(sep)] *)
Definition includes (sep s : string) : bool :=
  match index 0 sep s with
  | Some _ => true
  | None => false
  end.

(** [s.split(sep)[1]], for [s] that includes [sep]. *)
Definition split_second (sep s : string) : option string :=
  match index 0 sep s with
  | Some i =>
      let from := (i + String.length sep)%nat in
      let rest := substring from (String.length s - from) s in
      match index 0 sep rest with
      | Some j => Some (substring 0 j rest)
      | None => Some rest
      end
  | None => None
  end.

Definition dquote : string := String (ascii_of_nat 34) EmptyString.

(** ** Elements *)

#[warnings="-register-all"]
Inductive Elem :=
  Node (uid : nat) (tagName : string) (elemId : string) (children : list Elem).

Definition uid (e : Elem) : nat := let 'Node u _ _ _ := e in u.
Definition tagName (e : Elem) : string := let 'Node _ t _ _ := e in t.
Definition elemId (e : Elem) : string := let 'Node _ _ i _ := e in i.
Definition children (e : Elem) : list Elem := let 'Node _ _ _ cs := e in cs.

(** [e.querySelector('div')]: the first descendant of [e], in document order,
    that is a [div]. *)
Fixpoint querySelector_div (e : Elem) : option Elem :=
  let fix first_in (cs : list Elem) : option Elem :=
    match cs with
    | [] => None
    | c :: rest =>
        if String.eqb (tagName c) "DIV" then Some c
        else match querySelector_div c with
             | Some d => Some d
             | None => first_in rest
             end
    end in
  first_in (children e).

(** The [span] children of the text container of an item, as the play request
    collects them. *)
Definition wordSpans_of (itemElement : Elem) : list nat :=
  let textContainer :=
    if String.eqb (elemId itemElement) "name" then Some itemElement
    else querySelector_div itemElement in
  match textContainer with
  | Some tc =>
      uid <$> List.filter (λ el, String.eqb (tagName el) "SPAN") (children tc)
  | None => []
  end.

(** The identifiers of an element and of its descendants. *)
Fixpoint uids_of (e : Elem) : gset nat :=
  let fix uids_in (cs : list Elem) : gset nat :=
    match cs with
    | [] => ∅
    | c :: rest => uids_of c ∪ uids_in rest
    end in
  {[uid e]} ∪ uids_in (children e).

Definition uids_in (cs : list Elem) : gset nat :=
  foldr (λ c acc, uids_of c ∪ acc) ∅ cs.

(** One [span] per word, numbered from [u]. *)
Fixpoint make_spans (u : nat) (words : list string) : list Elem :=
  match words with
  | [] => []
  | _ :: rest => Node u "SPAN" "" [] :: make_spans (S u) rest
  end.

(** The list items of the front face: a play button and a text container
    with one [span] per word of the usage example.  Item [i] takes its
    identifiers from [u] on. *)
Fixpoint make_items (u i : nat) (defs : list CardDefinition) : list Elem * nat :=
  match defs with
  | [] => ([], u)
  | def :: rest =>
      let words := trim_split (usage_example def) in
      let playButton := Node (u + 1) "BUTTON" "" [] in
      let textContainer := Node (u + 2) "DIV" "" (make_spans (u + 3) words) in
      let item := Node u "LI" ("example-item-" ++ pretty i)
                       [playButton; textContainer] in
      let '(items, u') := make_items (u + 3 + length words) (S i) rest in
      (item :: items, u')
  end.

(** ** The state of the page *)

(** Handlers, as the variables their closures capture.  [call] numbers the
    invocation of [playAudioFromApi] that created the handler. *)
Record MetaHandler := mkMetaHandler {
  mh_call : nat;
  mh_wordSpans : list nat
}.

Record TimeHandler := mkTimeHandler {
  th_call : nat;
  th_wordSpans : list nat;
  th_timePerWord : Q
}.

Record EndedHandler := mkEndedHandler {
  eh_call : nat;
  eh_itemElement : option nat
}.

Inductive Counter :=
  | CounterBlank
  | CounterAt (position total : Z)
  | CounterNoCards
  | CounterCompleted.

Inductive Request :=
  | GetFlashcardsData
  | PostSynthesizeSpeech
      (text voice_name model_name category deck verb_name tone : string)
  | PostGenerateImage (index def_index : Z) (prompt : string)
  | DeleteImage (index def_index : Z)
  | PostUpdateStatus (index : Z) (learned : bool)
  | PostResetAll.

Record Audio := mkAudio {
  src : option string;
  paused : bool;
  ontimeupdate : option TimeHandler;
  onloadedmetadata : option MetaHandler;
  onended : option EndedHandler
}.

Definition set_src (v : option string) (x : Audio) : Audio :=
  mkAudio v (paused x) (ontimeupdate x) (onloadedmetadata x) (onended x).

Definition set_paused (v : bool) (x : Audio) : Audio :=
  mkAudio (src x) v (ontimeupdate x) (onloadedmetadata x) (onended x).

Definition set_ontimeupdate (v : option TimeHandler) (x : Audio) : Audio :=
  mkAudio (src x) (paused x) v (onloadedmetadata x) (onended x).

Definition set_onloadedmetadata (v : option MetaHandler) (x : Audio) : Audio :=
  mkAudio (src x) (paused x) (ontimeupdate x) v (onended x).

Definition set_onended (v : option EndedHandler) (x : Audio) : Audio :=
  mkAudio (src x) (paused x) (ontimeupdate x) (onloadedmetadata x) v.

Record Dom := mkDom {
  nextUid : nat;
  nameElement : Elem;
  exampleItems : list Elem;
  highlighted_word : gset nat;
  active_example_line : gset nat;
  loading_audio : gset nat;
  nextDisabled : bool;
  prevDisabled : bool;
  deleteInert : bool;
  deleteShown : bool;
  spinnerShown : bool;
  cardLoading : bool;
  cardFlipped : bool;
  imgSrc : string;
  imgVisible : bool;
  cardCounter : Counter;
  completed : bool;
  messages : list (string * bool)
}.

Definition set_nextUid (v : nat) (x : Dom) : Dom :=
  mkDom v (nameElement x) (exampleItems x) (highlighted_word x)
    (active_example_line x) (loading_audio x) (nextDisabled x)
    (prevDisabled x) (deleteInert x) (deleteShown x) (spinnerShown x)
    (cardLoading x) (cardFlipped x) (imgSrc x) (imgVisible x)
    (cardCounter x) (completed x) (messages x).

Definition set_nameElement (v : Elem) (x : Dom) : Dom :=
  mkDom (nextUid x) v (exampleItems x) (highlighted_word x)
    (active_example_line x) (loading_audio x) (nextDisabled x)
    (prevDisabled x) (deleteInert x) (deleteShown x) (spinnerShown x)
    (cardLoading x) (cardFlipped x) (imgSrc x) (imgVisible x)
    (cardCounter x) (completed x) (messages x).

Definition set_exampleItems (v : list Elem) (x : Dom) : Dom :=
  mkDom (nextUid x) (nameElement x) v (highlighted_word x)
    (active_example_line x) (loading_audio x) (nextDisabled x)
    (prevDisabled x) (deleteInert x) (deleteShown x) (spinnerShown x)
    (cardLoading x) (cardFlipped x) (imgSrc x) (imgVisible x)
    (cardCounter x) (completed x) (messages x).

Definition set_highlighted_word (v : gset nat) (x : Dom) : Dom :=
  mkDom (nextUid x) (nameElement x) (exampleItems x) v (active_example_line x)
    (loading_audio x) (nextDisabled x) (prevDisabled x) (deleteInert x)
    (deleteShown x) (spinnerShown x) (cardLoading x) (cardFlipped x)
    (imgSrc x) (imgVisible x) (cardCounter x) (completed x) (messages x).

Definition set_active_example_line (v : gset nat) (x : Dom) : Dom :=
  mkDom (nextUid x) (nameElement x) (exampleItems x) (highlighted_word x) v
    (loading_audio x) (nextDisabled x) (prevDisabled x) (deleteInert x)
    (deleteShown x) (spinnerShown x) (cardLoading x) (cardFlipped x)
    (imgSrc x) (imgVisible x) (cardCounter x) (completed x) (messages x).

Definition set_loading_audio (v : gset nat) (x : Dom) : Dom :=
  mkDom (nextUid x) (nameElement x) (exampleItems x) (highlighted_word x)
    (active_example_line x) v (nextDisabled x) (prevDisabled x)
    (deleteInert x) (deleteShown x) (spinnerShown x) (cardLoading x)
    (cardFlipped x) (imgSrc x) (imgVisible x) (cardCounter x)
    (completed x) (messages x).

Definition set_nextDisabled (v : bool) (x : Dom) : Dom :=
  mkDom (nextUid x) (nameElement x) (exampleItems x) (highlighted_word x)
    (active_example_line x) (loading_audio x) v (prevDisabled x)
    (deleteInert x) (deleteShown x) (spinnerShown x) (cardLoading x)
    (cardFlipped x) (imgSrc x) (imgVisible x) (cardCounter x)
    (completed x) (messages x).

Definition set_prevDisabled (v : bool) (x : Dom) : Dom :=
  mkDom (nextUid x) (nameElement x) (exampleItems x) (highlighted_word x)
    (active_example_line x) (loading_audio x) (nextDisabled x) v
    (deleteInert x) (deleteShown x) (spinnerShown x) (cardLoading x)
    (cardFlipped x) (imgSrc x) (imgVisible x) (cardCounter x)
    (completed x) (messages x).

Definition set_deleteInert (v : bool) (x : Dom) : Dom :=
  mkDom (nextUid x) (nameElement x) (exampleItems x) (highlighted_word x)
    (active_example_line x) (loading_audio x) (nextDisabled x)
    (prevDisabled x) v (deleteShown x) (spinnerShown x) (cardLoading x)
    (cardFlipped x) (imgSrc x) (imgVisible x) (cardCounter x)
    (completed x) (messages x).

Definition set_deleteShown (v : bool) (x : Dom) : Dom :=
  mkDom (nextUid x) (nameElement x) (exampleItems x) (highlighted_word x)
    (active_example_line x) (loading_audio x) (nextDisabled x)
    (prevDisabled x) (deleteInert x) v (spinnerShown x) (cardLoading x)
    (cardFlipped x) (imgSrc x) (imgVisible x) (cardCounter x)
    (completed x) (messages x).

Definition set_spinnerShown (v : bool) (x : Dom) : Dom :=
  mkDom (nextUid x) (nameElement x) (exampleItems x) (highlighted_word x)
    (active_example_line x) (loading_audio x) (nextDisabled x)
    (prevDisabled x) (deleteInert x) (deleteShown x) v (cardLoading x)
    (cardFlipped x) (imgSrc x) (imgVisible x) (cardCounter x)
    (completed x) (messages x).

Definition set_cardLoading (v : bool) (x : Dom) : Dom :=
  mkDom (nextUid x) (nameElement x) (exampleItems x) (highlighted_word x)
    (active_example_line x) (loading_audio x) (nextDisabled x)
    (prevDisabled x) (deleteInert x) (deleteShown x) (spinnerShown x) v
    (cardFlipped x) (imgSrc x) (imgVisible x) (cardCounter x)
    (completed x) (messages x).

Definition set_cardFlipped (v : bool) (x : Dom) : Dom :=
  mkDom (nextUid x) (nameElement x) (exampleItems x) (highlighted_word x)
    (active_example_line x) (loading_audio x) (nextDisabled x)
    (prevDisabled x) (deleteInert x) (deleteShown x) (spinnerShown x)
    (cardLoading x) v (imgSrc x) (imgVisible x) (cardCounter x)
    (completed x) (messages x).

Definition set_imgSrc (v : string) (x : Dom) : Dom :=
  mkDom (nextUid x) (nameElement x) (exampleItems x) (highlighted_word x)
    (active_example_line x) (loading_audio x) (nextDisabled x)
    (prevDisabled x) (deleteInert x) (deleteShown x) (spinnerShown x)
    (cardLoading x) (cardFlipped x) v (imgVisible x) (cardCounter x)
    (completed x) (messages x).

Definition set_imgVisible (v : bool) (x : Dom) : Dom :=
  mkDom (nextUid x) (nameElement x) (exampleItems x) (highlighted_word x)
    (active_example_line x) (loading_audio x) (nextDisabled x)
    (prevDisabled x) (deleteInert x) (deleteShown x) (spinnerShown x)
    (cardLoading x) (cardFlipped x) (imgSrc x) v (cardCounter x)
    (completed x) (messages x).

Definition set_cardCounter (v : Counter) (x : Dom) : Dom :=
  mkDom (nextUid x) (nameElement x) (exampleItems x) (highlighted_word x)
    (active_example_line x) (loading_audio x) (nextDisabled x)
    (prevDisabled x) (deleteInert x) (deleteShown x) (spinnerShown x)
    (cardLoading x) (cardFlipped x) (imgSrc x) (imgVisible x) v
    (completed x) (messages x).

Definition set_completed (v : bool) (x : Dom) : Dom :=
  mkDom (nextUid x) (nameElement x) (exampleItems x) (highlighted_word x)
    (active_example_line x) (loading_audio x) (nextDisabled x)
    (prevDisabled x) (deleteInert x) (deleteShown x) (spinnerShown x)
    (cardLoading x) (cardFlipped x) (imgSrc x) (imgVisible x)
    (cardCounter x) v (messages x).

Definition set_messages (v : list (string * bool)) (x : Dom) : Dom :=
  mkDom (nextUid x) (nameElement x) (exampleItems x) (highlighted_word x)
    (active_example_line x) (loading_audio x) (nextDisabled x)
    (prevDisabled x) (deleteInert x) (deleteShown x) (spinnerShown x)
    (cardLoading x) (cardFlipped x) (imgSrc x) (imgVisible x)
    (cardCounter x) (completed x) v.

Record State := mkState {
  heap : list Card;
  masterFlashcardsData : list nat;
  filteredFlashcardsData : list nat;
  currentIndex : Z;
  audioPlayer : Audio;
  isAudioPlaying : bool;
  awaitingDeleteConfirmation : bool;
  deleteConfirmationTimeoutId : option nat;
  dom : Dom;
  cells : gmap nat Z;
  calls : nat;
  timers : list (nat * Z);
  nextTimer : nat;
  clock : Z;
  requests : list Request
}.

Definition set_heap (v : list Card) (x : State) : State :=
  mkState v (masterFlashcardsData x) (filteredFlashcardsData x) (currentIndex x)
    (audioPlayer x) (isAudioPlaying x) (awaitingDeleteConfirmation x)
    (deleteConfirmationTimeoutId x) (dom x) (cells x) (calls x) (timers x)
    (nextTimer x) (clock x) (requests x).

Definition set_masterFlashcardsData (v : list nat) (x : State) : State :=
  mkState (heap x) v (filteredFlashcardsData x) (currentIndex x) (audioPlayer x)
    (isAudioPlaying x) (awaitingDeleteConfirmation x)
    (deleteConfirmationTimeoutId x) (dom x) (cells x) (calls x) (timers x)
    (nextTimer x) (clock x) (requests x).

Definition set_filteredFlashcardsData (v : list nat) (x : State) : State :=
  mkState (heap x) (masterFlashcardsData x) v (currentIndex x) (audioPlayer x)
    (isAudioPlaying x) (awaitingDeleteConfirmation x)
    (deleteConfirmationTimeoutId x) (dom x) (cells x) (calls x) (timers x)
    (nextTimer x) (clock x) (requests x).

Definition set_currentIndex (v : Z) (x : State) : State :=
  mkState (heap x) (masterFlashcardsData x) (filteredFlashcardsData x) v
    (audioPlayer x) (isAudioPlaying x) (awaitingDeleteConfirmation x)
    (deleteConfirmationTimeoutId x) (dom x) (cells x) (calls x) (timers x)
    (nextTimer x) (clock x) (requests x).

Definition set_audioPlayer (v : Audio) (x : State) : State :=
  mkState (heap x) (masterFlashcardsData x) (filteredFlashcardsData x)
    (currentIndex x) v (isAudioPlaying x) (awaitingDeleteConfirmation x)
    (deleteConfirmationTimeoutId x) (dom x) (cells x) (calls x) (timers x)
    (nextTimer x) (clock x) (requests x).

Definition set_isAudioPlaying (v : bool) (x : State) : State :=
  mkState (heap x) (masterFlashcardsData x) (filteredFlashcardsData x)
    (currentIndex x) (audioPlayer x) v (awaitingDeleteConfirmation x)
    (deleteConfirmationTimeoutId x) (dom x) (cells x) (calls x) (timers x)
    (nextTimer x) (clock x) (requests x).

Definition set_awaitingDeleteConfirmation (v : bool) (x : State) : State :=
  mkState (heap x) (masterFlashcardsData x) (filteredFlashcardsData x)
    (currentIndex x) (audioPlayer x) (isAudioPlaying x) v
    (deleteConfirmationTimeoutId x) (dom x) (cells x) (calls x) (timers x)
    (nextTimer x) (clock x) (requests x).

Definition set_deleteConfirmationTimeoutId (v : option nat) (x : State) : State :=
  mkState (heap x) (masterFlashcardsData x) (filteredFlashcardsData x)
    (currentIndex x) (audioPlayer x) (isAudioPlaying x)
    (awaitingDeleteConfirmation x) v (dom x) (cells x) (calls x)
    (timers x) (nextTimer x) (clock x) (requests x).

Definition set_dom (v : Dom) (x : State) : State :=
  mkState (heap x) (masterFlashcardsData x) (filteredFlashcardsData x)
    (currentIndex x) (audioPlayer x) (isAudioPlaying x)
    (awaitingDeleteConfirmation x) (deleteConfirmationTimeoutId x) v
    (cells x) (calls x) (timers x) (nextTimer x) (clock x) (requests x).

Definition set_cells (v : gmap nat Z) (x : State) : State :=
  mkState (heap x) (masterFlashcardsData x) (filteredFlashcardsData x)
    (currentIndex x) (audioPlayer x) (isAudioPlaying x)
    (awaitingDeleteConfirmation x) (deleteConfirmationTimeoutId x) (dom x)
    v (calls x) (timers x) (nextTimer x) (clock x) (requests x).

Definition set_calls (v : nat) (x : State) : State :=
  mkState (heap x) (masterFlashcardsData x) (filteredFlashcardsData x)
    (currentIndex x) (audioPlayer x) (isAudioPlaying x)
    (awaitingDeleteConfirmation x) (deleteConfirmationTimeoutId x) (dom x)
    (cells x) v (timers x) (nextTimer x) (clock x) (requests x).

Definition set_timers (v : list (nat * Z)) (x : State) : State :=
  mkState (heap x) (masterFlashcardsData x) (filteredFlashcardsData x)
    (currentIndex x) (audioPlayer x) (isAudioPlaying x)
    (awaitingDeleteConfirmation x) (deleteConfirmationTimeoutId x) (dom x)
    (cells x) (calls x) v (nextTimer x) (clock x) (requests x).

Definition set_nextTimer (v : nat) (x : State) : State :=
  mkState (heap x) (masterFlashcardsData x) (filteredFlashcardsData x)
    (currentIndex x) (audioPlayer x) (isAudioPlaying x)
    (awaitingDeleteConfirmation x) (deleteConfirmationTimeoutId x) (dom x)
    (cells x) (calls x) (timers x) v (clock x) (requests x).

Definition set_clock (v : Z) (x : State) : State :=
  mkState (heap x) (masterFlashcardsData x) (filteredFlashcardsData x)
    (currentIndex x) (audioPlayer x) (isAudioPlaying x)
    (awaitingDeleteConfirmation x) (deleteConfirmationTimeoutId x) (dom x)
    (cells x) (calls x) (timers x) (nextTimer x) v (requests x).

Definition set_requests (v : list Request) (x : State) : State :=
  mkState (heap x) (masterFlashcardsData x) (filteredFlashcardsData x)
    (currentIndex x) (audioPlayer x) (isAudioPlaying x)
    (awaitingDeleteConfirmation x) (deleteConfirmationTimeoutId x) (dom x)
    (cells x) (calls x) (timers x) (nextTimer x) (clock x) v.


Definition upd_dom (f : Dom → Dom) (s : State) : State := set_dom (f (dom s)) s.

Definition upd_audio (f : Audio → Audio) (s : State) : State :=
  set_audioPlayer (f (audioPlayer s)) s.

Definition send (r : Request) (s : State) : State :=
  set_requests (requests s ++ [r]) s.

(** The elements attached to the document that the script decorates with
    classes: the card name, the example items and what they contain. *)
Definition attached (d : Dom) : gset nat :=
  uids_of (nameElement d) ∪ uids_in (exampleItems d).

(** [arr[i]] for a number [i]: [undefined] ([None]) outside the array. *)
Definition at_index {A} (arr : list A) (i : Z) : option A :=
  if i <? 0 then None else arr !! Z.to_nat i.

(** [filteredFlashcardsData[i]], dereferenced. *)
Definition card_at (s : State) (i : Z) : option Card :=
  match at_index (filteredFlashcardsData s) i with
  | Some l => heap s !! l
  | None => None
  end.

(** [card => !card.learned], on a reference. *)
Definition unlearned (h : list Card) (l : nat) : bool :=
  match h !! l with
  | Some card => negb (learned card)
  | None => false
  end.

(** ** Outcomes of the suspension points *)

Inductive Json (A : Type) :=
  | JsonOk (value : A)
  | JsonFail (message : string).
Arguments JsonOk {A} value.
Arguments JsonFail {A} message.

Record ErrorBody := mkErrorBody { detail : option string }.
Record SpeechData := mkSpeechData { success : bool; audio_url : option string }.
Record ImageData := mkImageData { path : option string }.

(** [fetch] of [/api/synthesize-speech], then [audioPlayer.play()]
    ([playback] is the message of its rejection, if it rejects). *)
Inductive SpeechOutcome :=
  | SpeechRejected (message : string)
  | SpeechNotOk (body : Json ErrorBody)
  | SpeechOk (body : Json SpeechData) (playback : option string).

Inductive ImageEvent := ImageLoads | ImageFails.

(** [fetch] of [/api/generate-image], then the load of the returned file. *)
Inductive GenerateOutcome :=
  | GenerateRejected (message : string)
  | GenerateNotOk (body : Json ErrorBody)
  | GenerateOk (body : Json ImageData) (image : ImageEvent).

(** [fetch] of an endpoint that answers with a status only. *)
Inductive StatusOutcome :=
  | Rejected (message : string)
  | Responded (ok : bool).

Inductive DataOutcome :=
  | DataRejected (message : string)
  | DataNotOk
  | DataOk (body : Json (list Card)).

(** What the environment answers while one card is loaded:
    [regexp_accepts pattern] tells whether [new RegExp(pattern, 'i')] returns
    (it throws a [SyntaxError] otherwise, as for [\b(c++)\b]). *)
Record World := mkWorld {
  cachedImage : ImageEvent;
  generation : GenerateOutcome;
  speech : SpeechOutcome;
  regexp_accepts : string → bool
}.

(** How a [try] block ends. *)
Inductive Completion :=
  | Normal (s : State)
  | Thrown (message : string) (s : State).

(** ** Configuration *)

Definition API_URL : string := "http://127.0.0.1:8000".

(** ** Numbers *)

(** [floor (log2 x)], for [0 < x]. *)
Definition Qlog2 (x : Q) : Z :=
  let e := Z.log2 (Qnum x) - Z.log2 (Z.pos (Qden x)) in
  if Qle_bool (2 ^ e) x then e else e - 1.

(** The nearest integer; of two that are equally near, the even one. *)
Definition round_half_even (x : Q) : Z :=
  let f := Qfloor x in
  match (x - inject_Z f ?= 1 # 2)%Q with
  | Lt => f
  | Eq => if Z.even f then f else f + 1
  | Gt => f + 1
  end.

(** The exponent of the unit in the last place of the doubles next to [x]:
    the significand has 53 bits, and the exponent does not go below that of
    the subnormal numbers. *)
Definition ulp_exponent (x : Q) : Z := Z.max (Qlog2 (Qabs x) - 52) (-1074).

(** The double nearest to [x], ties to the even significand.  (A result of
    [2 ^ 1024] or more stands for an infinity.) *)
Definition round64 (x : Q) : Q :=
  let u := (2 ^ ulp_exponent x)%Q in
  (inject_Z (round_half_even (x / u)) * u)%Q.

(** [const SYNC_OFFSET = 0.15]: the double that the literal denotes. *)
Definition SYNC_OFFSET : Q := round64 (15 # 100).

(** ** Interface helpers *)

Definition toggleNavigation (disabled : bool) (s : State) : State :=
  upd_dom (λ d, set_deleteInert disabled
                  (set_prevDisabled disabled
                     (set_nextDisabled disabled d))) s.

Definition showAppMessage (text : string) (isError : bool) (s : State) : State :=
  upd_dom (λ d, set_messages ((text, isError) :: messages d) d) s.

(** ** Timers *)

Definition clearTimeout (t : option nat) (s : State) : State :=
  match t with
  | Some i => set_timers (List.filter (λ e, negb (fst e =? i)%nat) (timers s)) s
  | None => s
  end.

(** [deleteConfirmationTimeoutId = setTimeout(..., ms)] *)
Definition setTimeout (ms : Z) (s : State) : State :=
  let i := nextTimer s in
  set_deleteConfirmationTimeoutId (Some i)
    (set_nextTimer (S i) (set_timers (timers s ++ [(i, clock s + ms)]) s)).

(** The callback of the confirmation timer. *)
Definition confirmation_timeout (s : State) : State :=
  if awaitingDeleteConfirmation s
  then showAppMessage "Confirmación cancelada." false
         (set_awaitingDeleteConfirmation false s)
  else s.

(** [ms] milliseconds pass: the timers that are due fire, in order. *)
Definition elapse (ms : Z) (s : State) : State :=
  let now := clock s + ms in
  let due := List.filter (λ e, snd e <=? now) (timers s) in
  let s := set_clock now
             (set_timers (List.filter (λ e, negb (snd e <=? now)) (timers s)) s) in
  foldl (λ s _, confirmation_timeout s) s due.

(** ** Playback and highlighting *)

(** [playAudioFromApi], up to the request. *)
Definition play_begin (itemElement : option Elem) (s : State) : State :=
  let s := if isAudioPlaying s then upd_audio (set_paused true) s else s in
  let s := set_isAudioPlaying false s in
  let s := upd_audio (set_ontimeupdate None) s in
  let s := upd_dom (λ d, set_highlighted_word (highlighted_word d ∖ attached d) d) s in
  let s := upd_dom (λ d, set_active_example_line
                           (active_example_line d ∖ attached d) d) s in
  let s := toggleNavigation true s in
  let s := match itemElement with
           | Some e => upd_dom (λ d, set_active_example_line
                                       ({[uid e]} ∪ active_example_line d) d) s
           | None => s
           end in
  let s := match itemElement with
           | Some e =>
               if String.eqb (tagName e) "LI"
               then upd_dom (λ d, set_loading_audio ({[uid e]} ∪ loading_audio d) d) s
               else showAppMessage "⏳ Cargando audio..." false s
           | None => showAppMessage "⏳ Cargando audio..." false s
           end in
  set_calls (S (calls s)) s.

(** The source of the audio element for a returned URL. *)
Definition audio_source (audio_url : string) : string :=
  if includes "/card_audio/" audio_url
  then API_URL ++ "/card_audio/" ++ show (split_second "/card_audio/" audio_url)
  else audio_url.

(** The [try] block of [playAudioFromApi] up to the [await] of [fetch]: the
    body of the request is built from the card under the cursor and the
    request is sent. *)
Definition play_send (text : string) (s : State) : Completion :=
  match card_at s (currentIndex s) with
  | None => Thrown "Cannot read properties of undefined (reading 'category')" s
  | Some card =>
      Normal (send (PostSynthesizeSpeech text "Aoede" "gemini-2.5-pro-tts"
                      (or_else (category card) "phrasal_verbs")
                      (or_else (deck_name card) "unknown")
                      (name card) "Read this like a news anchor") s)
  end.

(** The [try] block from the answer [o] of the request on; [call] numbers
    the invocation. *)
Definition play_answer (o : SpeechOutcome) (call : nat)
    (itemElement : option Elem) (s : State) : Completion :=
  match o with
  | SpeechRejected m => Thrown m s
  | SpeechNotOk (JsonFail m) => Thrown m s
  | SpeechNotOk (JsonOk error) =>
      Thrown (if truthy (detail error) then show (detail error)
              else "Error en la API de voz.") s
  | SpeechOk (JsonFail m) _ => Thrown m s
  | SpeechOk (JsonOk data) playback =>
      if success data && truthy (audio_url data) then
        let s := upd_audio (set_src (Some (audio_source (show (audio_url data))))) s in
        let s := match itemElement with
                 | Some e =>
                     upd_audio (set_onloadedmetadata
                                  (Some (mkMetaHandler call (wordSpans_of e))))
                       (set_cells (<[call := -1]> (cells s)) s)
                 | None => s
                 end in
        match playback with
        | Some m => Thrown m s
        | None =>
            let s := upd_audio (set_paused false) s in
            let s := set_isAudioPlaying true s in
            let s := showAppMessage "▶️ Reproduciendo..." false s in
            Normal (upd_audio (set_onended
                                 (Some (mkEndedHandler call (uid <$> itemElement)))) s)
        end
      else Thrown "La respuesta de audio no contiene una URL válida." s
  end.

(** The [try] block of [playAudioFromApi]. *)
Definition play_try (o : SpeechOutcome) (call : nat) (text : string)
    (itemElement : option Elem) (s : State) : Completion :=
  match play_send text s with
  | Thrown m s => Thrown m s
  | Normal s => play_answer o call itemElement s
  end.

(** The [catch] and [finally] blocks of [playAudioFromApi]. *)
Definition play_end (itemElement : option Elem) (c : Completion) : State :=
  let s := match c with
           | Normal s => s
           | Thrown m s =>
               toggleNavigation false
                 (showAppMessage ("❌ Error de TTS: " ++ m) true s)
           end in
  match itemElement with
  | Some e =>
      if String.eqb (tagName e) "LI"
      then upd_dom (λ d, set_loading_audio (loading_audio d ∖ {[uid e]}) d) s
      else s
  | None => s
  end.

(** [playAudioFromApi(text, itemElement)] with the answer [o] of its request,
    followed to its end. *)
Definition playAudioFromApi (o : SpeechOutcome) (text : string)
    (itemElement : option Elem) (s : State) : State :=
  let call := calls s in
  let s := play_begin itemElement s in
  play_end itemElement (play_try o call text itemElement s).

(** [playAudioFromApi(text, itemElement)] up to its first suspension: the
    prelude and the request.  The result holds the number of the call while
    its request is pending; a call that throws before the request is over at
    once. *)
Definition play_click (text : string) (itemElement : option Elem) (s : State)
    : State * option nat :=
  let call := calls s in
  let s := play_begin itemElement s in
  match play_send text s with
  | Thrown m s => (play_end itemElement (Thrown m s), None)
  | Normal s => (s, Some call)
  end.

(** The rest of the pending call [call], resumed in [s] by the answer [o] of
    its request and followed to its end.  The script does not look whether a
    later call has been made in between. *)
Definition play_response (o : SpeechOutcome) (call : nat)
    (itemElement : option Elem) (s : State) : State :=
  play_end itemElement (play_answer o call itemElement s).

(** [audioDuration / wordSpans.length], when the handler computes it: not for
    a missing or zero duration, nor without words. *)
Definition timePerWord_of (audioDuration : option Q) (wordSpans : list nat)
    : option Q :=
  match audioDuration with
  | None => None
  | Some d =>
      if Qeq_bool d 0 || (length wordSpans =? 0)%nat then None
      else Some (round64 (d / inject_Z (Z.of_nat (length wordSpans))))
  end.

(** The audio element reports its metadata: [onloadedmetadata] runs. *)
Definition fire_loadedmetadata (audioDuration : option Q) (s : State) : State :=
  match onloadedmetadata (audioPlayer s) with
  | None => s
  | Some h =>
      match timePerWord_of audioDuration (mh_wordSpans h) with
      | None => s
      | Some timePerWord =>
          upd_audio (set_ontimeupdate
                       (Some (mkTimeHandler (mh_call h) (mh_wordSpans h) timePerWord))) s
      end
  end.

(** [Math.floor(currentTime / timePerWord)], where [currentTime] is
    [audioPlayer.currentTime + SYNC_OFFSET]: a sum and a quotient of
    doubles. *)
Definition word_index (time timePerWord : Q) : Z :=
  let currentTime := round64 (time + SYNC_OFFSET) in
  Qfloor (round64 (currentTime / timePerWord)).

(** The body of the progress handler [h] once it has computed
    [currentWordIndex]; [lastHighlightedIndex] is read from the cell of the
    call. *)
Definition timeupdate_with (h : TimeHandler) (currentWordIndex : Z) (s : State)
    : State :=
  match cells s !! th_call h with
  | None => s
  | Some lastHighlightedIndex =>
      let wordSpans := th_wordSpans h in
      if currentWordIndex =? lastHighlightedIndex then s
      else
        let s :=
          match at_index wordSpans lastHighlightedIndex with
          | Some span =>
              upd_dom (λ d, set_highlighted_word
                              (highlighted_word d ∖ {[span]}) d) s
          | None => s
          end in
        let s :=
          if (0 <=? currentWordIndex)
             && (currentWordIndex <? Z.of_nat (length wordSpans))
          then match at_index wordSpans currentWordIndex with
               | Some span =>
                   upd_dom (λ d, set_highlighted_word
                                   ({[span]} ∪ highlighted_word d) d) s
               | None => s
               end
          else s in
        set_cells (<[th_call h := currentWordIndex]> (cells s)) s
  end.

(** The audio element reports progress at [time]: [ontimeupdate] runs. *)
Definition fire_timeupdate (time : Q) (s : State) : State :=
  match ontimeupdate (audioPlayer s) with
  | None => s
  | Some h => timeupdate_with h (word_index time (th_timePerWord h)) s
  end.

(** Playback reaches the end: [onended] runs. *)
Definition fire_ended (s : State) : State :=
  match onended (audioPlayer s) with
  | None => s
  | Some h =>
      let s := match eh_itemElement h with
               | Some u => upd_dom (λ d, set_active_example_line
                                           (active_example_line d ∖ {[u]}) d) s
               | None => s
               end in
      let s := upd_dom (λ d, set_highlighted_word
                               (highlighted_word d ∖ attached d) d) s in
      let s := showAppMessage "Audio finalizado." false s in
      let s := toggleNavigation false s in
      set_isAudioPlaying false s
  end.

(** ** The card *)

(** [renderCardName]: the name element gets one fresh [span] per word. *)
Definition renderCardName (card : Card) (s : State) : State :=
  let words := trim_split (name card) in
  upd_dom (λ d,
    set_nextUid (nextUid d + length words)%nat
      (set_nameElement
         (Node (uid (nameElement d)) (tagName (nameElement d)) "name"
               (make_spans (nextUid d) words)) d)) s.

(** [renderFrontExamples]: one list item per definition. *)
Definition renderFrontExamples (card : Card) (s : State) : State :=
  upd_dom (λ d,
    let '(items, u) := make_items (nextUid d) 0 (definitions card) in
    set_nextUid u (set_exampleItems items d)) s.

Definition displayCompletionMessage (s : State) : State :=
  upd_dom (λ d, set_cardCounter CounterCompleted (set_completed true d)) s.

Definition updateCardCounter (s : State) : State :=
  let n := Z.of_nat (length (filteredFlashcardsData s)) in
  upd_dom (set_cardCounter
             (if n >? 0 then CounterAt (currentIndex s + 1) n
              else CounterNoCards)) s.

(** The prompt sent for a card and its first definition. *)
Definition image_prompt (card : Card) (def : CardDefinition) : string :=
  "Generate a single, clear, educational illustration for the phrasal verb "
  ++ dquote ++ name card ++ dquote ++ " meaning " ++ dquote ++ meaning def
  ++ dquote ++ ". Context: " ++ dquote ++ usage_example def ++ dquote
  ++ ". Style: Photorealistic, bright, daylight, professional photography aesthetic. No text or labels.".

(** [generateAndLoadImage(card)].  The chain is
    [fetch.then(res => ...).then(data => ...).catch(async errorPromise => ...)]:
    - a response that is not ok rejects with the promise [res.json()], which
      the last handler awaits, falling back to a fixed detail;
    - a rejected [fetch], a body that does not parse and an exception in the
      second handler reject with an error object; the last handler calls
      [.catch] on it, which is not a function, and ends there;
    - the loaded file has an [onload] handler and no [onerror] handler. *)
Definition generateAndLoadImage (o : GenerateOutcome) (card : Card) (s : State)
    : State :=
  let s := upd_dom (set_cardLoading true) s in
  let s := showAppMessage "⏳ Generando imagen de IA..." false s in
  match definitions card with
  | [] => s
  | def :: _ =>
      let s := send (PostGenerateImage (id card) 0 (image_prompt card def)) s in
      match o with
      | GenerateRejected _ => s
      | GenerateNotOk body =>
          let error := match body with
                       | JsonOk e => e
                       | JsonFail _ => mkErrorBody (Some "Error de red o JSON inválido.")
                       end in
          let s := showAppMessage ("❌ Error de IA: " ++ show (detail error)) true s in
          let s := upd_dom (set_spinnerShown false) s in
          let s := toggleNavigation false s in
          upd_dom (set_cardLoading false) s
      | GenerateOk (JsonFail _) _ => s
      | GenerateOk (JsonOk data) image =>
          let newImagePath :=
            API_URL ++ show (path data) ++ "?t=" ++ pretty (clock s) in
          match at_index (filteredFlashcardsData s) (currentIndex s) with
          | None => s
          | Some l =>
              let s := set_heap (alter (set_imagePath (path data)) l (heap s)) s in
              match image with
              | ImageLoads =>
                  let s := upd_dom (λ d,
                             set_cardLoading false
                               (set_spinnerShown false
                                  (set_deleteShown true
                                     (set_imgVisible true
                                        (set_imgSrc newImagePath d))))) s in
                  let s := showAppMessage "¡Imagen generada!" false s in
                  toggleNavigation false s
              | ImageFails => s
              end
          end
      end
  end.

(** The pattern [renderBackCard] builds from the name of the card. *)
Definition back_pattern (card : Card) : string :=
  "\b(" ++ name card ++ ")\b".

(** Whether [renderBackCard(card)] returns: it builds its expression once for
    every definition, so it throws at the first one when the engine refuses
    the pattern. *)
Definition back_renders (w : World) (card : Card) : bool :=
  match definitions card with
  | [] => true
  | _ :: _ => regexp_accepts w (back_pattern card)
  end.

(** [renderBackCard(card)].  The back of the card is text that the script
    never reads back, and it is not part of the page kept here; what is kept
    of the function is whether it returns.  (The message of the error is the
    engine's; nothing reads it.) *)
Definition renderBackCard (w : World) (card : Card) (s : State) : Completion :=
  if back_renders w card then Normal s
  else Thrown "Invalid regular expression" s.

(** [loadCard(index, autoPlay)], with the image events that follow it. *)
Definition loadCard (w : World) (index : Z) (autoPlay : bool) (s : State) : State :=
  if (length (filteredFlashcardsData s) =? 0)%nat then displayCompletionMessage s
  else
    let s := if isAudioPlaying s then upd_audio (set_paused true) s else s in
    let s := set_awaitingDeleteConfirmation false s in
    let s := clearTimeout (deleteConfirmationTimeoutId s) s in
    let s := set_currentIndex index s in
    let s := upd_dom (λ d, set_cardLoading false (set_cardFlipped false d)) s in
    let s := toggleNavigation true s in
    let s := showAppMessage "Cargando tarjeta..." false s in
    let s := updateCardCounter s in
    match card_at s index with
    | None => s
    | Some card =>
        let s := renderCardName card s in
        let s := renderFrontExamples card s in
        match renderBackCard w card s with
        | Thrown _ s => s
        | Normal s =>
            let s := upd_dom (λ d,
                       set_spinnerShown true
                         (set_deleteShown false
                            (set_imgVisible false (set_imgSrc "" d)))) s in
            if truthy (imagePath card) then
              let imageFullPath := API_URL ++ show (imagePath card) in
              match cachedImage w with
              | ImageLoads =>
                  let s := upd_dom (λ d,
                             set_spinnerShown false
                               (set_deleteShown true
                                  (set_imgVisible true
                                     (set_imgSrc imageFullPath d)))) s in
                  let s := showAppMessage "Tarjeta lista." false s in
                  let s := toggleNavigation false s in
                  if autoPlay
                  then playAudioFromApi (speech w) (name card)
                         (Some (nameElement (dom s))) s
                  else s
              | ImageFails => generateAndLoadImage (generation w) card s
              end
            else generateAndLoadImage (generation w) card s
        end
    end.

Definition playPhonetic (o : SpeechOutcome) (s : State) : State :=
  match card_at s (currentIndex s) with
  | Some card => playAudioFromApi o (name card) (Some (nameElement (dom s))) s
  | None => s
  end.

Definition playSingleExample (o : SpeechOutcome) (index : nat) (s : State) : State :=
  match card_at s (currentIndex s) with
  | Some card =>
      match definitions card !! index with
      | Some def =>
          playAudioFromApi o (usage_example def)
            (List.find (λ e, String.eqb (elemId e) ("example-item-" ++ pretty index))
                       (exampleItems (dom s))) s
      | None => s
      end
  | None => s
  end.

(** The [catch] clause shared by the guarded operations. *)
Definition report (c : Completion) : State :=
  match c with
  | Normal s => s
  | Thrown m s => toggleNavigation false (showAppMessage ("❌ Error: " ++ m) true s)
  end.

Definition deleteImage (o : StatusOutcome) (w : World) (s : State) : State :=
  if awaitingDeleteConfirmation s then
    let s := clearTimeout (deleteConfirmationTimeoutId s) s in
    let s := set_awaitingDeleteConfirmation false s in
    let s := showAppMessage "🗑️ Eliminando y regenerando..." false s in
    let s := toggleNavigation true s in
    let s := upd_dom (set_deleteShown false) s in
    report
      match at_index (filteredFlashcardsData s) (currentIndex s),
            card_at s (currentIndex s) with
      | Some l, Some card =>
          let s := send (DeleteImage (id card) 0) s in
          match o with
          | Rejected m => Thrown m s
          | Responded false => Thrown "No se pudo eliminar la imagen." s
          | Responded true =>
              let s := set_heap (alter (set_imagePath None) l (heap s)) s in
              Normal (loadCard w (currentIndex s) true s)
          end
      | _, _ => Thrown "Cannot read properties of undefined (reading 'id')" s
      end
  else
    let s := set_awaitingDeleteConfirmation true s in
    let s := showAppMessage "⚠️ Haz clic de nuevo en 🗑️ para confirmar." true s in
    setTimeout 5000 s.

Definition markAsLearned (o : StatusOutcome) (w : World) (s : State) : State :=
  if (length (filteredFlashcardsData s) =? 0)%nat then s
  else
    let s := toggleNavigation true s in
    let s := showAppMessage "✅ Marcando como aprendida..." false s in
    match card_at s (currentIndex s) with
    | None => s
    | Some currentCard =>
        let masterIndex := id currentCard in
        let s := send (PostUpdateStatus masterIndex true) s in
        report
          match o with
          | Rejected m => Thrown m s
          | Responded false =>
              Thrown "Error al actualizar el estado en el servidor." s
          | Responded true =>
              match at_index (masterFlashcardsData s) masterIndex with
              | None =>
                  Thrown "Cannot set properties of undefined (setting 'learned')" s
              | Some l =>
                  let s := set_heap (alter (set_learned true) l (heap s)) s in
                  let s := set_filteredFlashcardsData
                             (List.filter (unlearned (heap s))
                                          (masterFlashcardsData s)) s in
                  let len := Z.of_nat (length (filteredFlashcardsData s)) in
                  let nextIndex := currentIndex s in
                  let nextIndex := if nextIndex >=? len then len - 1
                                   else nextIndex in
                  if len >? 0
                  then Normal (loadCard w (Z.max 0 nextIndex) true s)
                  else Normal (displayCompletionMessage s)
              end
          end
    end.

Definition nextCard (w : World) (s : State) : State :=
  let len := Z.of_nat (length (filteredFlashcardsData s)) in
  if len >? 0 then loadCard w ((currentIndex s + 1) `rem` len) true s else s.

Definition prevCard (w : World) (s : State) : State :=
  let len := Z.of_nat (length (filteredFlashcardsData s)) in
  if len >? 0 then loadCard w ((currentIndex s - 1 + len) `rem` len) true s else s.

Definition flipCard (s : State) : State :=
  if isAudioPlaying s || cardLoading (dom s) then s
  else upd_dom (λ d, set_cardFlipped (negb (cardFlipped d)) d) s.

(** ** Start *)

(** The page as the browser hands it to the script; [nameTag] is the tag of
    the element with id [name]. *)
Definition initial (nameTag : string) : State :=
  mkState [] [] [] 0
    (mkAudio None true None None None)
    false false None
    (mkDom 1 (Node 0 nameTag "name" []) [] ∅ ∅ ∅
           false false false false false false false "" false
           CounterBlank false [])
    ∅ 0 [] 0 0 [].

(** [data.map((card, index) => ({ ...card, id: index }))]: fresh objects. *)
Definition with_ids (data : list Card) : list Card :=
  imap (λ index card, set_id (Z.of_nat index) card) data.

Definition loadData (o : DataOutcome) (w : World) (s : State) : State :=
  let s := send GetFlashcardsData s in
  let fatal m := showAppMessage ("❌ Error fatal: " ++ m) true s in
  match o with
  | DataRejected m => fatal m
  | DataNotOk => fatal "No se pudo cargar los datos desde la API."
  | DataOk (JsonFail m) => fatal m
  | DataOk (JsonOk data) =>
      let base := length (heap s) in
      let s := set_heap (heap s ++ with_ids data) s in
      let s := set_masterFlashcardsData (seq base (length data)) s in
      let s := set_filteredFlashcardsData
                 (List.filter (unlearned (heap s)) (masterFlashcardsData s)) s in
      if (0 <? length (filteredFlashcardsData s))%nat
      then loadCard w (currentIndex s) false s
      else displayCompletionMessage s
  end.

(** [location.reload()]: a fresh page in the same environment. *)
Definition reload_page (s : State) : State :=
  let fresh := initial (tagName (nameElement (dom s))) in
  set_requests (requests s) (set_clock (clock s) fresh).

Definition resetAllCards (isConfirmed : bool) (o : StatusOutcome)
    (reloaded : DataOutcome) (w : World) (s : State) : State :=
  if isConfirmed then
    let s := showAppMessage "🔄 Reseteando todas las tarjetas..." false s in
    let s := send PostResetAll s in
    match o with
    | Rejected m => showAppMessage ("❌ Error: " ++ m) true s
    | Responded false =>
        showAppMessage "❌ Error: No se pudo resetear el progreso." true s
    | Responded true =>
        let s := showAppMessage "¡Progreso reseteado! Recargando..." false s in
        let s := elapse 1500 s in
        loadData reloaded w (reload_page s)
    end
  else s.

(** ** Sessions *)

(** What can happen on a loaded page: the user's clicks, the events of the
    audio element and the passing of time. *)
Inductive Action :=
  | NextCard (w : World)
  | PrevCard (w : World)
  | MarkAsLearned (o : StatusOutcome) (w : World)
  | DeleteClick (o : StatusOutcome) (w : World)
  | ResetAllCards (isConfirmed : bool) (o : StatusOutcome)
                  (reloaded : DataOutcome) (w : World)
  | PlayPhonetic (o : SpeechOutcome)
  | PlaySingleExample (o : SpeechOutcome) (index : nat)
  | FlipCard
  | LoadedMetadata (audioDuration : option Q)
  | TimeUpdate (time : Q)
  | Ended
  | Elapse (ms : Z).

Definition step (s : State) (a : Action) : State :=
  match a with
  | NextCard w => nextCard w s
  | PrevCard w => prevCard w s
  | MarkAsLearned o w => markAsLearned o w s
  | DeleteClick o w => deleteImage o w s
  | ResetAllCards c o r w => resetAllCards c o r w s
  | PlayPhonetic o => playPhonetic o s
  | PlaySingleExample o i => playSingleExample o i s
  | FlipCard => flipCard s
  | LoadedMetadata d => fire_loadedmetadata d s
  | TimeUpdate t => fire_timeupdate t s
  | Ended => fire_ended s
  | Elapse ms => elapse ms s
  end.

(** The page after it has loaded its data and the actions [acts] have
    happened. *)
Definition session (nameTag : string) (o : DataOutcome) (w : World)
    (acts : list Action) : State :=
  foldl step (loadData o w (initial nameTag)) acts.

(** ** Observations *)

(** The cards an array of references denotes. *)
Definition cards_of (s : State) (refs : list nat) : list Card :=
  omap (λ l, heap s !! l) refs.

(** The attached elements that carry the highlight. *)
Definition highlighted_words (s : State) : gset nat :=
  highlighted_word (dom s) ∩ attached (dom s).

(** The interaction lock: the navigation buttons and the delete button. *)
Definition locked (s : State) : bool :=
  nextDisabled (dom s) || prevDisabled (dom s) || deleteInert (dom s).

(** The message on display. *)
Definition shown (s : State) : option (string * bool) := head (messages (dom s)).

Definition is_delete (r : Request) : bool :=
  match r with
  | DeleteImage _ _ => true
  | _ => false
  end.

(** The delete requests sent so far. *)
Definition deletions (s : State) : nat :=
  length (List.filter is_delete (requests s)).

Inductive GuardState := Idle | AwaitingConfirm.

Definition guard (s : State) : GuardState :=
  if awaitingDeleteConfirmation s then AwaitingConfirm else Idle.

(** * Invariants, observations and examples *)

(** ** Frames *)

Definition state_of (c : Completion) : State :=
  match c with
  | Normal s => s
  | Thrown _ s => s
  end.

(** The variables that playback and image generation leave alone. *)
Definition controls (s : State) :=
  (masterFlashcardsData s, filteredFlashcardsData s, currentIndex s,
   awaitingDeleteConfirmation s, deleteConfirmationTimeoutId s,
   timers s, nextTimer s, clock s, deletions s).

(** Two heaps that differ in image paths only. *)
Definition images_only (h h' : list Card) : Prop :=
  set_imagePath None <$> h' = set_imagePath None <$> h.

(** The variables after the synchronous part of [loadCard] on a collection
    that is not empty. *)
Definition controls_loaded (index : Z) (s : State) :=
  (masterFlashcardsData s, filteredFlashcardsData s, index,
   false, deleteConfirmationTimeoutId s,
   timers (clearTimeout (deleteConfirmationTimeoutId s) s),
   nextTimer s, clock s, deletions s).

(** ** The collection *)

(** The arrays of the collection and the objects they refer to. *)
Definition collection (s : State) :=
  (heap s, masterFlashcardsData s, filteredFlashcardsData s).

(** The master array holds consecutive objects, and the [id] of each is its
    position in the array. *)
Definition ids_in_place (s : State) : Prop :=
  ∃ base : nat,
    masterFlashcardsData s = seq base (length (masterFlashcardsData s)) ∧
    ∀ i : nat, (i < length (masterFlashcardsData s))%nat →
      id <$> heap s !! (base + i)%nat = Some (Z.of_nat i).

(** The active array is the filter of the master array. *)
Definition derived (s : State) : Prop :=
  filteredFlashcardsData s =
  List.filter (unlearned (heap s)) (masterFlashcardsData s).

(** The cursor points into the active array. *)
Definition cursor_ok (s : State) : Prop :=
  filteredFlashcardsData s ≠ [] →
  0 <= currentIndex s < Z.of_nat (length (filteredFlashcardsData s)).

Definition well_formed (s : State) : Prop :=
  ids_in_place s ∧ derived s ∧ cursor_ok s.

(** The state when the update request of [markAsLearned] leaves. *)
Definition requested (card : Card) (s : State) : State :=
  send (PostUpdateStatus (id card) true)
    (showAppMessage "✅ Marcando como aprendida..." false
       (toggleNavigation true s)).

(** The two assignments that follow a successful update. *)
Definition marked (l : nat) (s : State) : State :=
  let s := set_heap (alter (set_learned true) l (heap s)) s in
  set_filteredFlashcardsData
    (List.filter (unlearned (heap s)) (masterFlashcardsData s)) s.

(** ** The confirmation guard *)

(** While the guard is idle no timer is pending; while it awaits the second
    click exactly one is, the one whose identifier the script remembers, and
    its deadline lies ahead. *)
Definition guard_ok (s : State) : Prop :=
  match guard s with
  | Idle => timers s = []
  | AwaitingConfirm =>
      ∃ (i : nat) (deadline : Z),
        deleteConfirmationTimeoutId s = Some i ∧
        timers s = [(i, deadline)] ∧ clock s < deadline
  end.

Definition guard_view (s : State) :=
  (awaitingDeleteConfirmation s, deleteConfirmationTimeoutId s, timers s, clock s).

(** ** Highlighting *)

(** The word at index [i], as a set: empty outside the words. *)
Definition marker (wordSpans : list nat) (i : Z) : gset nat :=
  match at_index wordSpans i with
  | Some span => {[span]}
  | None => ∅
  end.

(** A playback session in progress: its time handler is installed, its
    words are attached, and the highlight on the page is the word whose index
    the handler recorded last. *)
Record in_session (s : State) (h : TimeHandler) (last : Z) : Prop := {
  handler_installed : ontimeupdate (audioPlayer s) = Some h;
  last_recorded : cells s !! th_call h = Some last;
  words_attached : list_to_set (th_wordSpans h) ⊆ attached (dom s);
  highlight_recorded : highlighted_words s = marker (th_wordSpans h) last
}.

(** The notifications [times], in order. *)
Definition notify (s : State) (times : list Q) : State :=
  foldl (λ s t, fire_timeupdate t s) s times.

(** The answers with which the [try] block reaches the assignment of the
    source of the audio element. *)
Definition has_audio (o : SpeechOutcome) : bool :=
  match o with
  | SpeechOk (JsonOk data) _ => success data && truthy (audio_url data)
  | _ => false
  end.

(** The answers with which playback starts. *)
Definition starts_playback (o : SpeechOutcome) : bool :=
  match o with
  | SpeechOk (JsonOk data) None => success data && truthy (audio_url data)
  | _ => false
  end.

(** The metadata handler in its slot after a play request answered by [o]:
    the one of this call when it has an element and audio was returned, the
    one that was there before otherwise. *)
Definition metadata_after (o : SpeechOutcome) (item : option Elem) (s : State)
    : option MetaHandler :=
  match card_at s (currentIndex s), item with
  | Some _, Some e =>
      if has_audio o then Some (mkMetaHandler (calls s) (wordSpans_of e))
      else onloadedmetadata (audioPlayer s)
  | _, _ => onloadedmetadata (audioPlayer s)
  end.

(** The ended handler in its slot after a play request answered by [o]: the
    one of this call when playback has started, the one that was there before
    otherwise. *)
Definition ended_after (o : SpeechOutcome) (item : option Elem) (s : State)
    : option EndedHandler :=
  match card_at s (currentIndex s) with
  | Some _ =>
      if starts_playback o then Some (mkEndedHandler (calls s) (uid <$> item))
      else onended (audioPlayer s)
  | None => onended (audioPlayer s)
  end.

(** The words the metadata handler in the slot would schedule. *)
Definition metadata_words (s : State) : list nat :=
  match onloadedmetadata (audioPlayer s) with
  | Some h => mh_wordSpans h
  | None => []
  end.

(** ** A worked session *)

Definition example_definition : CardDefinition :=
  mkCardDefinition "levantarse" "I get up early" "Me levanto temprano" None.

Definition card_A : Card :=
  mkCard 0 "get up" "get ap" true false (Some "/card_images/get_up.png")
         "phrasal_verbs" "daily" [example_definition].

Definition card_B : Card :=
  mkCard 0 "give in" "giv in" true false None "phrasal_verbs" "daily"
         [mkCardDefinition "ceder" "She never gives in" "Ella nunca cede" None].

Definition card_C : Card :=
  mkCard 0 "look after" "luk after" true false (Some "/card_images/look_after.png")
         "phrasal_verbs" "daily"
         [mkCardDefinition "cuidar" "They look after the dog" "Cuidan al perro" None].

(** A card whose name is not a regular expression. *)
Definition card_P : Card :=
  mkCard 0 "c++" "si plas plas" false false (Some "/card_images/cpp.png")
         "vocabulary" "tech"
         [mkCardDefinition "un lenguaje" "She writes c++ at work"
            "Escribe c++ en el trabajo" None].

Definition example_speech : SpeechOutcome :=
  SpeechOk
    (JsonOk (mkSpeechData true
       (Some "https://storage.googleapis.com/cards/card_audio/phrasal_verbs/daily/a.mp3")))
    None.

(** The engine on the patterns of the examples: it refuses [\b(c++)\b], the
    quantifier [+] having nothing to repeat, and takes the others. *)
Definition example_regexp (pattern : string) : bool :=
  negb (String.eqb pattern "\b(c++)\b").

Definition example_world : World :=
  mkWorld ImageLoads
    (GenerateOk (JsonOk (mkImageData (Some "/card_images/new.png"))) ImageLoads)
    example_speech example_regexp.

(** The three cards are loaded; the first is on display. *)
Definition example_page : State :=
  session "H1" (DataOk (JsonOk [card_A; card_B; card_C])) example_world [].

(** The user has moved to the second card. *)
Definition example_second : State :=
  session "H1" (DataOk (JsonOk [card_A; card_B; card_C])) example_world
    [NextCard example_world].

(** The name of the first card is being played: two words, two seconds. *)
Definition example_playing : State :=
  session "H1" (DataOk (JsonOk [card_A; card_B; card_C])) example_world
    [PlayPhonetic example_speech; LoadedMetadata (Some (2 # 1)%Q)].

Definition example_handler : TimeHandler :=
  mkTimeHandler 0 [1%nat; 2%nat] (round64 ((2 # 1) / inject_Z 2)).

(** The example of the third card is being played: five words, four
    seconds. *)
Definition example_sentence : State :=
  session "H1" (DataOk (JsonOk [card_A; card_B; card_C])) example_world
    [PrevCard example_world; PlaySingleExample example_speech 0;
     LoadedMetadata (Some (4 # 1)%Q)].

Definition example_sentence_handler : TimeHandler :=
  mkTimeHandler 1 [15%nat; 16%nat; 17%nat; 18%nat; 19%nat]
    (round64 ((4 # 1) / inject_Z 5)).

(** The index of the highlighted word as the specification words it:
    clamped to the words. *)
Definition spec_highlightIndex (N : Z) (D t : Q) : Z :=
  Z.max 0 (Z.min (N - 1) (Qfloor ((t + (15 # 100)) / (D / inject_Z N)))).

(** An item without a text container: it has no words. *)
Definition example_bare_item : Elem := Node 90 "LI" "example-item-9" [].

(** ** Failing outcomes *)

(** The outcomes of a play request that end in its [catch] clause. *)
Definition speech_fails (o : SpeechOutcome) : bool :=
  match o with
  | SpeechOk (JsonOk data) None => negb (success data && truthy (audio_url data))
  | _ => true
  end.

(** ** Sessions over time *)

(** Every action but a reset. *)
Definition keeps_page (a : Action) : bool :=
  match a with
  | ResetAllCards _ _ _ _ => false
  | _ => true
  end.

(** What may happen to a card: its image path may change and it may become
    learned; nothing else changes and it never becomes unlearned. *)
Definition card_evolves (c c' : Card) : Prop :=
  set_learned true (set_imagePath None c') = set_learned true (set_imagePath None c)
  ∧ (learned c = true → learned c' = true).

Definition heap_evolves (h h' : list Card) : Prop :=
  length h' = length h
  ∧ ∀ l c, h !! l = Some c → ∃ c', h' !! l = Some c' ∧ card_evolves c c'.

(** The outcomes of the initial request that end in the [catch] clause of
    [loadData]. *)
Definition load_fails (o : DataOutcome) : bool :=
  match o with
  | DataOk (JsonOk _) => false
  | _ => true
  end.

(** ** The card on the page *)

(** The part of the page that only [loadCard] and the completion message
    write. *)
Definition page (s : State) :=
  (cardCounter (dom s), completed (dom s), cardFlipped (dom s),
   nameElement (dom s), exampleItems (dom s), nextUid (dom s)).

(** The page that [loadCard] renders for [card]. *)
Definition rendered (index : Z) (card : Card) (s : State) :=
  let words := trim_split (name card) in
  let u := (nextUid (dom s) + length words)%nat in
  (CounterAt (index + 1) (Z.of_nat (length (filteredFlashcardsData s))),
   completed (dom s), false,
   Node (uid (nameElement (dom s))) (tagName (nameElement (dom s))) "name"
        (make_spans (nextUid (dom s)) words),
   fst (make_items u 0 (definitions card)),
   snd (make_items u 0 (definitions card))).

(** U+00A0 in UTF-8. *)
Definition no_break_space : string :=
  String (ascii_of_nat 194) (String (ascii_of_nat 160) "").

(** The item rendered for a definition, its identifiers taken from [u]. *)
Definition item_of (u i : nat) (def : CardDefinition) : Elem :=
  Node u "LI" ("example-item-" ++ pretty i)
    [Node (u + 1) "BUTTON" "" [];
     Node (u + 2) "DIV" "" (make_spans (u + 3) (trim_split (usage_example def)))].

(** ** The card counter *)

(** What the counter shows agrees with the cursor and the active cards. *)
Definition counter_ok (s : State) : Prop :=
  match cardCounter (dom s) with
  | CounterBlank =>
      filteredFlashcardsData s = [] ∧ completed (dom s) = false
  | CounterAt position total =>
      position = currentIndex s + 1
      ∧ total = Z.of_nat (length (filteredFlashcardsData s))
      ∧ filteredFlashcardsData s ≠ [] ∧ completed (dom s) = false
  | CounterNoCards => False
  | CounterCompleted =>
      filteredFlashcardsData s = [] ∧ completed (dom s) = true
  end.

Definition counter_view (s : State) :=
  (cardCounter (dom s), completed (dom s), currentIndex s,
   filteredFlashcardsData s).

(** ** Playback *)

(** The request a play call sends for the card under the cursor. *)
Definition speech_request (text : string) (card : Card) : Request :=
  PostSynthesizeSpeech text "Aoede" "gemini-2.5-pro-tts"
    (or_else (category card) "phrasal_verbs")
    (or_else (deck_name card) "unknown")
    (name card) "Read this like a news anchor".

(** What a play request leaves of the player and of the lock. *)
Definition player_view (s : State) :=
  (isAudioPlaying s, paused (audioPlayer s), locked s, shown s).

(** ** Requests of a card *)

(** The request for the image of a card: for its first definition, if it
    has one. *)
Definition generate_request (card : Card) : list Request :=
  match definitions card with
  | [] => []
  | def :: _ => [PostGenerateImage (id card) 0 (image_prompt card def)]
  end.

(** The requests [loadCard] sends for [card]: none when [renderBackCard]
    throws. *)
Definition loadCard_sends (w : World) (autoPlay : bool) (card : Card)
    : list Request :=
  if back_renders w card then
    if truthy (imagePath card) then
      match cachedImage w with
      | ImageLoads => if autoPlay then [speech_request (name card) card] else []
      | ImageFails => generate_request card
      end
    else generate_request card
  else [].

(** The data a request is built from. *)
Definition data_view (s : State) :=
  (heap s, filteredFlashcardsData s, currentIndex s, requests s).

(** The state in which [loadCard] calls [renderBackCard], and in which it
    ends when that call throws. *)
Definition loadCard_front (index : Z) (card : Card) (s : State) : State :=
  let s := if isAudioPlaying s then upd_audio (set_paused true) s else s in
  let s := set_awaitingDeleteConfirmation false s in
  let s := clearTimeout (deleteConfirmationTimeoutId s) s in
  let s := set_currentIndex index s in
  let s := upd_dom (λ d, set_cardLoading false (set_cardFlipped false d)) s in
  let s := toggleNavigation true s in
  let s := showAppMessage "Cargando tarjeta..." false s in
  let s := updateCardCounter s in
  let s := renderCardName card s in
  renderFrontExamples card s.

(** The state in which [loadCard] turns to the image of the card. *)
Definition loadCard_rendered (index : Z) (card : Card) (s : State) : State :=
  let s := if isAudioPlaying s then upd_audio (set_paused true) s else s in
  let s := set_awaitingDeleteConfirmation false s in
  let s := clearTimeout (deleteConfirmationTimeoutId s) s in
  let s := set_currentIndex index s in
  let s := upd_dom (λ d, set_cardLoading false (set_cardFlipped false d)) s in
  let s := toggleNavigation true s in
  let s := showAppMessage "Cargando tarjeta..." false s in
  let s := updateCardCounter s in
  let s := renderCardName card s in
  let s := renderFrontExamples card s in
  upd_dom (λ d,
    set_spinnerShown true
      (set_deleteShown false (set_imgVisible false (set_imgSrc "" d)))) s.

(** The state in which [loadCard] starts the playback of the name. *)
Definition loadCard_ready (index : Z) (card : Card) (s : State) : State :=
  let s := loadCard_rendered index card s in
  let s := upd_dom (λ d,
             set_spinnerShown false
               (set_deleteShown true
                  (set_imgVisible true
                     (set_imgSrc (API_URL ++ show (imagePath card)) d)))) s in
  let s := showAppMessage "Tarjeta lista." false s in
  toggleNavigation false s.

(** The image path a card has after a generation with outcome [o]. *)
Definition new_imagePath (o : GenerateOutcome) (card : Card) : option string :=
  match definitions card, o with
  | _ :: _, GenerateOk (JsonOk data) _ => path data
  | _, _ => None
  end.

(** The state in which a confirmed [deleteImage] reloads the card. *)
Definition delete_done (l : nat) (card : Card) (s : State) : State :=
  let s := clearTimeout (deleteConfirmationTimeoutId s) s in
  let s := set_awaitingDeleteConfirmation false s in
  let s := showAppMessage "🗑️ Eliminando y regenerando..." false s in
  let s := toggleNavigation true s in
  let s := upd_dom (set_deleteShown false) s in
  let s := send (DeleteImage (id card) 0) s in
  set_heap (alter (set_imagePath None) l (heap s)) s.

(** ** One highlighted word *)

(** Words created by the script so far: their identifiers lie between the
    name element and the next fresh identifier. *)
Definition bounded (n : nat) (spans : list nat) : Prop :=
  ∀ u, u ∈ spans → (1 ≤ u < n)%nat.

(** What the highlight depends on: the handlers, the indices they recorded
    and the elements that carry the class. *)
Definition marks (s : State) :=
  (ontimeupdate (audioPlayer s), onloadedmetadata (audioPlayer s), cells s,
   highlighted_word (dom s)).

(** The elements of the card. *)
Definition elements (s : State) :=
  (nameElement (dom s), exampleItems (dom s), nextUid (dom s)).

(** The invariant of the highlight: the words the handlers hold and the
    elements that carry the class were created by the script; the progress
    handler was installed by the metadata handler in place; and the
    highlight on the page is at most the word the progress handler recorded
    last. *)
Definition highlight_ok (s : State) : Prop :=
  uid (nameElement (dom s)) = 0%nat
  ∧ (1 ≤ nextUid (dom s))%nat
  ∧ bounded (nextUid (dom s)) (wordSpans_of (nameElement (dom s)))
  ∧ (∀ e, In e (exampleItems (dom s)) →
       bounded (nextUid (dom s)) (wordSpans_of e))
  ∧ (∀ u, u ∈ highlighted_word (dom s) → (1 ≤ u < nextUid (dom s))%nat)
  ∧ (∀ mh, onloadedmetadata (audioPlayer s) = Some mh →
       bounded (nextUid (dom s)) (mh_wordSpans mh))
  ∧ (∀ h, ontimeupdate (audioPlayer s) = Some h →
       onloadedmetadata (audioPlayer s)
       = Some (mkMetaHandler (th_call h) (th_wordSpans h)))
  ∧ (highlighted_words s = ∅
     ∨ ∃ h last, ontimeupdate (audioPlayer s) = Some h
                 ∧ cells s !! th_call h = Some last
                 ∧ highlighted_words s ⊆ marker (th_wordSpans h) last).

(** The element a play request is given is one of the page. *)
Definition item_on_page (s : State) (item : option Elem) : Prop :=
  ∀ e, item = Some e → e = nameElement (dom s) ∨ In e (exampleItems (dom s)).

(** ** Settling and hanging *)

(** The outcomes after which [generateAndLoadImage] hands the page back:
    an answer that is not ok, and an image that was generated and loads. *)
Definition generation_settles (o : GenerateOutcome) (card : Card) : bool :=
  match definitions card, o with
  | _ :: _, GenerateNotOk _ => true
  | _ :: _, GenerateOk (JsonOk _) ImageLoads => true
  | _, _ => false
  end.

(** The signs that the page is busy. *)
Definition busy (s : State) :=
  (locked s, spinnerShown (dom s), cardLoading (dom s)).

(** ** The line being played *)

(** The elements marked as the line being played and as loading their
    audio. *)
Definition lines (s : State) :=
  (active_example_line (dom s), loading_audio (dom s)).

(** The invariant of the two marks: the elements marked as the line being
    played were created by the script, at most one of them is attached, and
    no element is marked as loading. *)
Definition lines_ok (s : State) : Prop :=
  uid (nameElement (dom s)) = 0%nat
  ∧ (1 ≤ nextUid (dom s))%nat
  ∧ (∀ e, In e (exampleItems (dom s)) → (uid e < nextUid (dom s))%nat)
  ∧ (∀ u, u ∈ active_example_line (dom s) → (u < nextUid (dom s))%nat)
  ∧ (size (active_example_line (dom s) ∩ attached (dom s)) ≤ 1)%nat
  ∧ loading_audio (dom s) = ∅.

(** ** Requests that overlap *)

(** The item of the first example of the card on display. *)
Definition example_item (s : State) : option Elem :=
  List.find (λ e, String.eqb (elemId e) "example-item-0") (exampleItems (dom s)).

(** * Frame properties *)

Lemma play_begin_controls i s : controls (play_begin i s) = controls s.
Proof.
  unfold play_begin.
  destruct (isAudioPlaying s), i as [e|]; try destruct (String.eqb (tagName e) "LI");
    reflexivity.
Qed.

Lemma play_begin_heap i s : heap (play_begin i s) = heap s.
Proof.
  unfold play_begin.
  destruct (isAudioPlaying s), i as [e|]; try destruct (String.eqb (tagName e) "LI");
    reflexivity.
Qed.

Lemma deletions_send r s :
  deletions (send r s) = (deletions s + (if is_delete r then 1 else 0))%nat.
Proof.
  unfold deletions, send. cbn. rewrite List.filter_app, length_app. cbn.
  destruct (is_delete r); reflexivity.
Qed.

Lemma controls_send r s :
  is_delete r = false → controls (send r s) = controls s.
Proof.
  intros H. unfold controls. rewrite deletions_send, H, Nat.add_0_r. reflexivity.
Qed.

Lemma play_try_controls o c t i s :
  controls (state_of (play_try o c t i s)) = controls s.
Proof.
  unfold play_try, play_send, play_answer.
  destruct (card_at s (currentIndex s)) as [card|]; [|reflexivity].
  match goal with |- context [send ?r s] =>
    rewrite <- (controls_send r s eq_refl); generalize (send r s) end.
  intros s'.
  destruct o as [m|[e|m]|[d|m] [pb|]]; try reflexivity.
  all: destruct (success d), (truthy (audio_url d)), i; reflexivity.
Qed.

Lemma play_try_heap o c t i s : heap (state_of (play_try o c t i s)) = heap s.
Proof.
  unfold play_try, play_send, play_answer.
  destruct (card_at s (currentIndex s)) as [card|]; [|reflexivity].
  destruct o as [m|[e|m]|[d|m] [pb|]]; try reflexivity.
  all: destruct (success d), (truthy (audio_url d)), i; reflexivity.
Qed.

Lemma playAudioFromApi_controls o t i s :
  controls (playAudioFromApi o t i s) = controls s.
Proof.
  unfold playAudioFromApi, play_end.
  rewrite <- (play_begin_controls i s).
  rewrite <- (play_try_controls o (calls s) t i (play_begin i s)).
  destruct (play_try _ _ _ _ _) as [s'|m s'], i as [e|];
    try destruct (String.eqb (tagName e) "LI"); reflexivity.
Qed.

Lemma playAudioFromApi_heap o t i s : heap (playAudioFromApi o t i s) = heap s.
Proof.
  unfold playAudioFromApi, play_end.
  rewrite <- (play_begin_heap i s).
  rewrite <- (play_try_heap o (calls s) t i (play_begin i s)).
  destruct (play_try _ _ _ _ _) as [s'|m s'], i as [e|];
    try destruct (String.eqb (tagName e) "LI"); reflexivity.
Qed.

Lemma images_only_refl h : images_only h h.
Proof. reflexivity. Qed.

Lemma images_only_alter p l h : images_only h (alter (set_imagePath p) l h).
Proof.
  unfold images_only.
  rewrite (list_fmap_alter (set_imagePath None) (set_imagePath p) (λ c, c))
    by (apply Forall_forall; reflexivity).
  apply list_alter_id. reflexivity.
Qed.

Lemma generateAndLoadImage_controls o card s :
  controls (generateAndLoadImage o card s) = controls s.
Proof.
  unfold generateAndLoadImage.
  destruct (definitions card) as [|def defs]; [reflexivity|].
  match goal with |- context [send ?r ?s0] =>
    change (controls s) with (controls s0);
    rewrite <- (controls_send r s0 eq_refl); generalize (send r s0) end.
  intros s'.
  destruct o as [m|[e|m]|[d|m] img]; try reflexivity.
  destruct (at_index _ _); [|reflexivity].
  destruct img; reflexivity.
Qed.

Lemma generateAndLoadImage_heap o card s :
  images_only (heap s) (heap (generateAndLoadImage o card s)).
Proof.
  unfold generateAndLoadImage.
  destruct (definitions card) as [|def defs]; [exact (images_only_refl _)|].
  destruct o as [m|[e|m]|[d|m] img]; try exact (images_only_refl _).
  destruct (at_index _ _); [|exact (images_only_refl _)].
  destruct img; apply images_only_alter.
Qed.

Lemma loadCard_controls w index autoPlay s :
  controls (loadCard w index autoPlay s) =
  if (length (filteredFlashcardsData s) =? 0)%nat then controls s
  else controls_loaded index s.
Proof.
  unfold loadCard.
  destruct (length (filteredFlashcardsData s) =? 0)%nat; [reflexivity|].
  cbv zeta.
  match goal with |- context [card_at ?s0 index] =>
    assert (controls s0 = controls_loaded index s) as <-
      by (destruct s as [? ? ? ? ? [] ? [] ? ? ? ? ? ? ?]; reflexivity);
    generalize s0 end.
  intros s0.
  destruct (card_at s0 index) as [card|]; [|reflexivity].
  unfold renderBackCard. destruct (back_renders w card); cbv iota; [|reflexivity].
  destruct (truthy (imagePath card)); [destruct (cachedImage w)|].
  - destruct autoPlay; [rewrite playAudioFromApi_controls|]; reflexivity.
  - rewrite generateAndLoadImage_controls. reflexivity.
  - rewrite generateAndLoadImage_controls. reflexivity.
Qed.

Lemma loadCard_heap w index autoPlay s :
  images_only (heap s) (heap (loadCard w index autoPlay s)).
Proof.
  unfold loadCard.
  destruct (length (filteredFlashcardsData s) =? 0)%nat;
    [exact (images_only_refl _)|].
  cbv zeta.
  match goal with |- context [card_at ?s0 index] =>
    assert (heap s0 = heap s) as <-
      by (destruct s as [? ? ? ? ? [] ? [] ? ? ? ? ? ? ?]; reflexivity);
    generalize s0 end.
  intros s0.
  destruct (card_at s0 index) as [card|]; [|exact (images_only_refl _)].
  unfold renderBackCard.
  destruct (back_renders w card); cbv iota; [|exact (images_only_refl _)].
  destruct (truthy (imagePath card)); [destruct (cachedImage w)|];
    [destruct autoPlay; [rewrite playAudioFromApi_heap|];
     exact (images_only_refl _)|..];
    match goal with
    | |- images_only _ (heap (generateAndLoadImage ?o ?c ?x)) =>
        exact (generateAndLoadImage_heap o c x)
    end.
Qed.

(** * The collection *)

Lemma images_only_lookup h h' l :
  images_only h h' →
  set_imagePath None <$> h' !! l = set_imagePath None <$> h !! l.
Proof.
  unfold images_only. intros H. rewrite <- !list_lookup_fmap, H. reflexivity.
Qed.

Lemma images_only_id h h' l :
  images_only h h' → id <$> h' !! l = id <$> h !! l.
Proof.
  intros H. pose proof (images_only_lookup h h' l H) as E.
  destruct (h' !! l) as [c'|], (h !! l) as [c|]; cbn in *; try congruence.
  injection E as E. destruct c, c'. cbn in *. congruence.
Qed.

Lemma images_only_unlearned h h' l :
  images_only h h' → unlearned h' l = unlearned h l.
Proof.
  intros H. pose proof (images_only_lookup h h' l H) as E. unfold unlearned.
  destruct (h' !! l) as [c'|], (h !! l) as [c|]; cbn in *; try congruence.
  injection E as E. destruct c, c'. cbn in *. congruence.
Qed.

Lemma filter_ext_all {A} (f g : A → bool) (l : list A) :
  (∀ x, f x = g x) → List.filter f l = List.filter g l.
Proof. intros H. apply List.filter_ext. exact H. Qed.

Lemma ids_in_place_change s s' :
  masterFlashcardsData s' = masterFlashcardsData s →
  (∀ l, id <$> heap s' !! l = id <$> heap s !! l) →
  ids_in_place s → ids_in_place s'.
Proof.
  intros Hm Hh [base [Hseq Hid]]. exists base. rewrite Hm. split; [exact Hseq|].
  intros i Hi. rewrite Hh. apply Hid, Hi.
Qed.

Lemma derived_change s s' :
  masterFlashcardsData s' = masterFlashcardsData s →
  filteredFlashcardsData s' = filteredFlashcardsData s →
  images_only (heap s) (heap s') →
  derived s → derived s'.
Proof.
  unfold derived. intros -> -> Hh ->. apply filter_ext_all.
  intros l. symmetry. apply images_only_unlearned, Hh.
Qed.

(** An operation that changes image paths only keeps the collection in
    shape. *)
Lemma well_formed_change s s' :
  masterFlashcardsData s' = masterFlashcardsData s →
  filteredFlashcardsData s' = filteredFlashcardsData s →
  images_only (heap s) (heap s') →
  ids_in_place s ∧ derived s → ids_in_place s' ∧ derived s'.
Proof.
  intros Hm Hf Hh [Hi Hd]. split.
  - apply (ids_in_place_change s); [exact Hm| |exact Hi].
    intros l. apply images_only_id, Hh.
  - apply (derived_change s); assumption.
Qed.

Lemma loadCard_master w index autoPlay s :
  masterFlashcardsData (loadCard w index autoPlay s) = masterFlashcardsData s.
Proof.
  pose proof (loadCard_controls w index autoPlay s) as H.
  destruct (_ =? _)%nat; unfold controls, controls_loaded in H; congruence.
Qed.

Lemma loadCard_filtered w index autoPlay s :
  filteredFlashcardsData (loadCard w index autoPlay s) = filteredFlashcardsData s.
Proof.
  pose proof (loadCard_controls w index autoPlay s) as H.
  destruct (_ =? _)%nat; unfold controls, controls_loaded in H; congruence.
Qed.

Lemma loadCard_currentIndex w index autoPlay s :
  filteredFlashcardsData s ≠ [] →
  currentIndex (loadCard w index autoPlay s) = index.
Proof.
  intros Hne. pose proof (loadCard_controls w index autoPlay s) as H.
  destruct (filteredFlashcardsData s) as [|l ls] eqn:E; [congruence|].
  cbn in H. unfold controls, controls_loaded in H. congruence.
Qed.

Lemma loadCard_well_formed w index autoPlay s :
  0 <= index < Z.of_nat (length (filteredFlashcardsData s)) →
  ids_in_place s ∧ derived s → well_formed (loadCard w index autoPlay s).
Proof.
  intros Hi H.
  assert (cursor_ok (loadCard w index autoPlay s)) as Hc.
  { intros _. rewrite loadCard_filtered, loadCard_currentIndex; [exact Hi|].
    destruct (filteredFlashcardsData s); cbn in Hi; [lia|congruence]. }
  destruct (well_formed_change s (loadCard w index autoPlay s)) as [? ?];
    auto using loadCard_master, loadCard_filtered, loadCard_heap.
  unfold well_formed. tauto.
Qed.

(** ** Marking a card as learned *)

Lemma at_index_Some {A} (arr : list A) (i : Z) (x : A) :
  at_index arr i = Some x ↔ 0 <= i ∧ arr !! Z.to_nat i = Some x.
Proof.
  unfold at_index. destruct (Z.ltb_spec i 0) as [Hlt|Hge]; split.
  - discriminate.
  - intros [Hi _]. lia.
  - intros Hx. split; [exact Hge|exact Hx].
  - intros [_ Hx]. exact Hx.
Qed.

Lemma at_index_in_range {A} (arr : list A) (i : Z) :
  0 <= i < Z.of_nat (length arr) → is_Some (at_index arr i).
Proof.
  intros Hi. unfold at_index. destruct (Z.ltb_spec i 0); [lia|].
  apply lookup_lt_is_Some. lia.
Qed.

Lemma filter_andb {A} (f g : A → bool) (l : list A) :
  List.filter (λ x, f x && g x) l = List.filter g (List.filter f l).
Proof.
  induction l as [|x l IH]; [reflexivity|]. cbn.
  destruct (f x); cbn; [destruct (g x)|]; rewrite IH; reflexivity.
Qed.

Lemma filter_none {A} (f : A → bool) (l : list A) :
  (∀ x, In x l → f x = true) → List.filter f l = l.
Proof.
  induction l as [|x l IH]; [reflexivity|]. intros H. cbn.
  rewrite (H x) by (left; reflexivity). f_equal. apply IH.
  intros y Hy. apply H. right. exact Hy.
Qed.

(** Dropping one element of a list without repetitions. *)
Lemma length_filter_drop (x : nat) (l : list nat) :
  NoDup l → In x l →
  S (length (List.filter (λ y, negb (y =? x)%nat) l)) = length l.
Proof.
  induction 1 as [|y l Hy Hl IH]; intros Hin; [destruct Hin|]. cbn.
  destruct (Nat.eqb_spec y x) as [->|Hne]; cbn.
  - f_equal. f_equal. apply filter_none. intros z Hz.
    destruct (Nat.eqb_spec z x) as [->|]; [|reflexivity].
    exfalso. apply Hy. apply list_elem_of_In. exact Hz.
  - f_equal. apply IH. destruct Hin; [congruence|assumption].
Qed.

Lemma unlearned_alter h l l' :
  unlearned (alter (set_learned true) l h) l' =
  unlearned h l' && negb (l' =? l)%nat.
Proof.
  unfold unlearned. destruct (Nat.eqb_spec l' l) as [->|Hne].
  - rewrite list_lookup_alter_eq.
    destruct (h !! l); cbn; rewrite ?andb_false_r; reflexivity.
  - rewrite list_lookup_alter_ne by congruence.
    destruct (h !! l'); cbn; rewrite ?andb_true_r; reflexivity.
Qed.

Lemma id_alter_learned (h : list Card) (l l' : nat) :
  id <$> alter (set_learned true) l h !! l' = id <$> h !! l'.
Proof.
  destruct (decide (l = l')) as [->|Hne].
  - rewrite list_lookup_alter_eq. destruct (h !! l'); reflexivity.
  - rewrite list_lookup_alter_ne by congruence. reflexivity.
Qed.

(** On a well-formed collection, the reference under the cursor is the
    object that the master array holds at that card's [id]. *)
Lemma cursor_card s :
  ids_in_place s → derived s →
  0 <= currentIndex s < Z.of_nat (length (filteredFlashcardsData s)) →
  ∃ l card,
    at_index (filteredFlashcardsData s) (currentIndex s) = Some l ∧
    heap s !! l = Some card ∧
    card_at s (currentIndex s) = Some card ∧
    at_index (masterFlashcardsData s) (id card) = Some l ∧
    In l (filteredFlashcardsData s).
Proof.
  intros [base [Hseq Hid]] Hd Hc.
  destruct (at_index_in_range _ _ Hc) as [l Hl]. exists l.
  assert (In l (filteredFlashcardsData s)) as Hin.
  { apply at_index_Some in Hl as [_ Hl]. apply list_elem_of_In.
    eapply list_elem_of_lookup_2, Hl. }
  assert (In l (masterFlashcardsData s)) as Hm.
  { rewrite Hd in Hin. apply List.filter_In in Hin. tauto. }
  rewrite Hseq in Hm. apply List.in_seq in Hm.
  specialize (Hid (l - base)%nat ltac:(lia)).
  replace (base + (l - base))%nat with l in Hid by lia.
  destruct (heap s !! l) as [card|] eqn:Hcard; [|discriminate].
  exists card. injection Hid as Hid.
  repeat split; try assumption.
  - unfold card_at. rewrite Hl. exact Hcard.
  - apply at_index_Some. split; [lia|]. rewrite Hseq, Hid, Nat2Z.id.
    rewrite lookup_seq_lt by lia. f_equal. lia.
Qed.

Lemma marked_filtered l s :
  derived s →
  filteredFlashcardsData (marked l s) =
  List.filter (λ y, negb (y =? l)%nat) (filteredFlashcardsData s).
Proof.
  unfold derived, marked. cbn. intros ->.
  rewrite <- filter_andb. apply filter_ext_all. intros y. apply unlearned_alter.
Qed.

Lemma ids_in_place_NoDup s :
  ids_in_place s → derived s → NoDup (filteredFlashcardsData s).
Proof.
  intros [base [Hseq _]] ->. apply NoDup_ListNoDup, List.NoDup_filter.
  rewrite Hseq. apply NoDup_ListNoDup, NoDup_seq.
Qed.

Lemma marked_length l s :
  ids_in_place s → derived s → In l (filteredFlashcardsData s) →
  S (length (filteredFlashcardsData (marked l s))) =
  length (filteredFlashcardsData s).
Proof.
  intros Hi Hd Hin. rewrite marked_filtered by exact Hd.
  apply length_filter_drop; [|exact Hin]. apply ids_in_place_NoDup; assumption.
Qed.

Lemma marked_not_in l s :
  derived s → ¬ In l (filteredFlashcardsData (marked l s)).
Proof.
  intros Hd. rewrite marked_filtered by exact Hd. intros H.
  apply List.filter_In in H as [_ H]. rewrite Nat.eqb_refl in H. discriminate.
Qed.

Lemma marked_ok l s :
  ids_in_place s → ids_in_place (marked l s) ∧ derived (marked l s).
Proof.
  intros Hi. split; [|reflexivity].
  apply (ids_in_place_change s); [reflexivity| |exact Hi].
  intros l'. apply id_alter_learned.
Qed.

(** What a successful [markAsLearned] does on a well-formed collection. *)
Lemma markAsLearned_success w s :
  ids_in_place s → derived s →
  0 <= currentIndex s < Z.of_nat (length (filteredFlashcardsData s)) →
  ∃ l card,
    at_index (filteredFlashcardsData s) (currentIndex s) = Some l ∧
    heap s !! l = Some card ∧
    In l (filteredFlashcardsData s) ∧
    let s1 := marked l (requested card s) in
    let k' := Z.of_nat (length (filteredFlashcardsData s1)) in
    markAsLearned (Responded true) w s =
    if k' >? 0 then loadCard w (Z.min (currentIndex s) (k' - 1)) true s1
    else displayCompletionMessage s1.
Proof.
  intros Hi Hd Hc.
  destruct (cursor_card s Hi Hd Hc) as (l & card & Hl & Hcard & Hat & Hm & Hin).
  exists l, card. repeat split; try assumption.
  unfold markAsLearned. cbv zeta.
  assert ((length (filteredFlashcardsData s) =? 0)%nat = false) as ->
    by (apply Nat.eqb_neq; lia).
  match goal with |- context [card_at ?S (currentIndex ?S)] =>
    change (card_at S (currentIndex S)) with (card_at s (currentIndex s)) end.
  rewrite Hat.
  match goal with |- context [at_index (masterFlashcardsData ?S) (id card)] =>
    change (at_index (masterFlashcardsData S) (id card))
      with (at_index (masterFlashcardsData s) (id card)) end.
  rewrite Hm. unfold marked, requested. cbv zeta.
  match goal with |- context [loadCard w _ true ?S1] => set (S := S1) end.
  change (currentIndex S) with (currentIndex s).
  generalize (Z.of_nat (length (filteredFlashcardsData S))) as k'. intros k'.
  unfold report.
  destruct (Z.gtb_spec k' 0) as [Hpos|Hz]; [|reflexivity].
  assert (0 `max` (if currentIndex s >=? k' then k' - 1 else currentIndex s)
          = currentIndex s `min` (k' - 1)) as ->
    by (destruct (Z.geb_spec (currentIndex s) k'); lia).
  reflexivity.
Qed.

(** The other outcomes of [markAsLearned] leave the collection alone. *)
Lemma markAsLearned_failure o w s :
  o ≠ Responded true →
  collection (markAsLearned o w s) = collection s ∧
  currentIndex (markAsLearned o w s) = currentIndex s.
Proof.
  intros Ho. unfold markAsLearned.
  destruct (length (filteredFlashcardsData s) =? 0)%nat; [split; reflexivity|].
  cbv zeta.
  match goal with |- context [card_at ?S (currentIndex ?S)] =>
    change (card_at S (currentIndex S)) with (card_at s (currentIndex s)) end.
  destruct (card_at s (currentIndex s)) as [card|]; [|split; reflexivity].
  destruct o as [m|[|]]; try congruence; split; reflexivity.
Qed.

Lemma displayCompletionMessage_well_formed s :
  ids_in_place s → derived s → filteredFlashcardsData s = [] →
  well_formed (displayCompletionMessage s).
Proof.
  intros Hi Hd He. split; [exact Hi|]. split; [exact Hd|].
  intros Hne. exfalso. apply Hne. exact He.
Qed.

Lemma markAsLearned_well_formed o w s :
  well_formed s → well_formed (markAsLearned o w s).
Proof.
  intros (Hi & Hd & Hc).
  assert (o = Responded true ∨ o ≠ Responded true) as [->|Ho]
    by (destruct o as [m|[|]]; [right|left|right]; congruence).
  - destruct (decide (filteredFlashcardsData s = [])) as [He|Hne].
    { unfold markAsLearned. rewrite He. cbn. unfold well_formed. tauto. }
    pose proof (Hc Hne) as Hr.
    destruct (markAsLearned_success w s Hi Hd Hr)
      as (l & card & Hl & Hcard & Hin & Heq).
    cbv zeta in Heq. rewrite Heq. clear Heq.
    destruct (marked_ok l (requested card s)) as [Hi1 Hd1]; [exact Hi|].
    destruct (Z.gtb_spec (Z.of_nat (length (filteredFlashcardsData
                (marked l (requested card s))))) 0) as [Hpos|Hz].
    + apply loadCard_well_formed; [lia|split; assumption].
    + apply displayCompletionMessage_well_formed; try assumption.
      destruct (filteredFlashcardsData (marked l (requested card s)));
        [reflexivity|cbn in Hz; lia].
  - destruct (markAsLearned_failure o w s Ho) as [Hcoll Hcur].
    unfold collection in Hcoll. injection Hcoll as Hh Hm Hf.
    split; [|split].
    + apply (ids_in_place_change s); [exact Hm| |exact Hi].
      intros l. rewrite Hh. reflexivity.
    + unfold derived. rewrite Hf, Hm, Hh. exact Hd.
    + unfold cursor_ok. rewrite Hf, Hcur. exact Hc.
Qed.

(** On a well-formed collection the [id]s of the active cards name their
    references: a card is active exactly when its [id] is among them. *)
Lemma active_ids s l card :
  ids_in_place s → derived s →
  heap s !! l = Some card → In l (masterFlashcardsData s) →
  In (id card) (id <$> cards_of s (filteredFlashcardsData s)) →
  In l (filteredFlashcardsData s).
Proof.
  intros [base [Hseq Hid]] Hd Hcard Hm Hin.
  apply list_elem_of_In, list_elem_of_fmap in Hin as (c' & Hidc & Hin).
  unfold cards_of in Hin. apply list_elem_of_omap in Hin as (l' & Hl' & Hc').
  apply list_elem_of_In in Hl'.
  assert (In l' (masterFlashcardsData s)) as Hm'.
  { rewrite Hd in Hl'. apply List.filter_In in Hl'. tauto. }
  rewrite Hseq in Hm, Hm'. apply List.in_seq in Hm, Hm'.
  pose proof (Hid (l - base)%nat ltac:(lia)) as H1.
  pose proof (Hid (l' - base)%nat ltac:(lia)) as H2.
  replace (base + (l - base))%nat with l in H1 by lia.
  replace (base + (l' - base))%nat with l' in H2 by lia.
  rewrite Hcard in H1. rewrite Hc' in H2. cbn in H1, H2.
  assert (l = l') as -> by (injection H1; injection H2; lia).
  exact Hl'.
Qed.

(** ** Every action keeps the collection well formed *)

Lemma well_formed_same s s' :
  collection s' = collection s → currentIndex s' = currentIndex s →
  well_formed s → well_formed s'.
Proof.
  unfold collection. intros Hcoll Hcur (Hi & Hd & Hc).
  injection Hcoll as Hh Hm Hf. split; [|split].
  - apply (ids_in_place_change s); [exact Hm| |exact Hi].
    intros l. rewrite Hh. reflexivity.
  - unfold derived. rewrite Hf, Hm, Hh. exact Hd.
  - unfold cursor_ok. rewrite Hf, Hcur. exact Hc.
Qed.

Lemma controls_collection s s' :
  controls s' = controls s → heap s' = heap s →
  collection s' = collection s ∧ currentIndex s' = currentIndex s.
Proof. unfold controls, collection. intros H1 H2. split; congruence. Qed.

Lemma playAudioFromApi_well_formed o text item s :
  well_formed s → well_formed (playAudioFromApi o text item s).
Proof.
  destruct (controls_collection s (playAudioFromApi o text item s))
    as [H1 H2]; auto using playAudioFromApi_controls, playAudioFromApi_heap.
  apply well_formed_same; assumption.
Qed.

Lemma confirmation_timeouts_collection {A} (due : list A) s :
  let s' := foldl (λ s _, confirmation_timeout s) s due in
  collection s' = collection s ∧ currentIndex s' = currentIndex s.
Proof.
  revert s. induction due as [|x due IH]; intros s; [split; reflexivity|].
  cbn. destruct (IH (confirmation_timeout s)) as [H1 H2]. cbv zeta in H1, H2.
  rewrite H1, H2. unfold confirmation_timeout.
  destruct (awaitingDeleteConfirmation s); split; reflexivity.
Qed.

Lemma elapse_collection ms s :
  collection (elapse ms s) = collection s ∧
  currentIndex (elapse ms s) = currentIndex s.
Proof.
  unfold elapse. cbv zeta.
  match goal with |- context [foldl _ ?S ?due] =>
    exact (confirmation_timeouts_collection due S) end.
Qed.

Lemma events_collection a s :
  match a with
  | FlipCard | LoadedMetadata _ | TimeUpdate _ | Ended | Elapse _ => True
  | _ => False
  end →
  collection (step s a) = collection s ∧ currentIndex (step s a) = currentIndex s.
Proof.
  destruct a; intros H; try (exfalso; exact H); clear H; cbn.
  - unfold flipCard. destruct (_ || _); split; reflexivity.
  - unfold fire_loadedmetadata.
    destruct (onloadedmetadata _) as [h|]; [|split; reflexivity].
    destruct (timePerWord_of _ _); split; reflexivity.
  - unfold fire_timeupdate, timeupdate_with.
    destruct (ontimeupdate _) as [h|]; [|split; reflexivity].
    destruct (cells s !! _) as [last|]; [|split; reflexivity].
    destruct (word_index _ _ =? last); [split; reflexivity|].
    destruct (at_index _ last), (_ && _); [destruct (at_index _ _)| |destruct (at_index _ _)|];
      split; reflexivity.
  - unfold fire_ended. destruct (onended _) as [h|]; [|split; reflexivity].
    destruct (eh_itemElement h); split; reflexivity.
  - apply elapse_collection.
Qed.

Lemma nextCard_well_formed w s : well_formed s → well_formed (nextCard w s).
Proof.
  intros (Hi & Hd & Hc). unfold nextCard.
  destruct (Z.gtb_spec (Z.of_nat (length (filteredFlashcardsData s))) 0)
    as [Hpos|Hz]; [|unfold well_formed; tauto].
  apply loadCard_well_formed; [|tauto].
  assert (filteredFlashcardsData s ≠ []) as Hne
    by (destruct (filteredFlashcardsData s); [cbn in Hpos; lia|discriminate]).
  specialize (Hc Hne). apply Z.rem_bound_pos; lia.
Qed.

Lemma prevCard_well_formed w s : well_formed s → well_formed (prevCard w s).
Proof.
  intros (Hi & Hd & Hc). unfold prevCard.
  destruct (Z.gtb_spec (Z.of_nat (length (filteredFlashcardsData s))) 0)
    as [Hpos|Hz]; [|unfold well_formed; tauto].
  apply loadCard_well_formed; [|tauto].
  assert (filteredFlashcardsData s ≠ []) as Hne
    by (destruct (filteredFlashcardsData s); [cbn in Hpos; lia|discriminate]).
  specialize (Hc Hne). apply Z.rem_bound_pos; lia.
Qed.

Lemma deleteImage_well_formed o w s :
  well_formed s → well_formed (deleteImage o w s).
Proof.
  intros Hwf. unfold deleteImage.
  destruct (awaitingDeleteConfirmation s);
    [|revert Hwf; apply well_formed_same; reflexivity].
  cbv zeta.
  match goal with |- context [card_at ?S (currentIndex ?S)] =>
    assert (collection S = collection s ∧ currentIndex S = currentIndex s)
      as [Hcoll Hcur]
      by (destruct (deleteConfirmationTimeoutId s); split; reflexivity);
    pose proof (well_formed_same s S Hcoll Hcur Hwf) as Hwf';
    generalize dependent S end.
  intros S _ _ (Hi & Hd & Hc).
  destruct (at_index (filteredFlashcardsData S) (currentIndex S)) as [l|] eqn:Hl;
    [|unfold report, well_formed; tauto].
  destruct (card_at S (currentIndex S)) as [card|];
    [|unfold report, well_formed; tauto].
  destruct o as [m|[|]]; try (unfold report, well_formed; tauto).
  unfold report. apply loadCard_well_formed.
  - apply at_index_Some in Hl as [H0 Hl]. apply lookup_lt_Some in Hl.
    cbn. lia.
  - apply (well_formed_change S); try reflexivity; [|tauto].
    apply images_only_alter.
Qed.

Lemma playPhonetic_well_formed o s :
  well_formed s → well_formed (playPhonetic o s).
Proof.
  intros H. unfold playPhonetic. destruct (card_at _ _); [|exact H].
  apply playAudioFromApi_well_formed, H.
Qed.

Lemma playSingleExample_well_formed o index s :
  well_formed s → well_formed (playSingleExample o index s).
Proof.
  intros H. unfold playSingleExample. destruct (card_at _ _); [|exact H].
  destruct (_ !! index); [|exact H].
  apply playAudioFromApi_well_formed, H.
Qed.

Lemma with_ids_lookup data i :
  id <$> with_ids data !! i = (λ _, Z.of_nat i) <$> data !! i.
Proof.
  unfold with_ids. rewrite list_lookup_imap. destruct (data !! i); reflexivity.
Qed.

Lemma loadData_well_formed o w s :
  well_formed s → currentIndex s = 0 → well_formed (loadData o w s).
Proof.
  intros Hwf H0. unfold loadData. cbv zeta.
  destruct o as [m|  |[data|m]];
    try (revert Hwf; apply well_formed_same; reflexivity).
  match goal with |- context [loadCard w _ false ?S1] => set (S := S1) end.
  assert (ids_in_place S ∧ derived S) as HS.
  { split; [|reflexivity]. exists (length (heap s)). cbn.
    rewrite length_seq. split; [reflexivity|]. intros i Hi.
    rewrite lookup_app_r by lia.
    replace (length (heap s) + i - length (heap s))%nat with i by lia.
    rewrite with_ids_lookup.
    destruct (lookup_lt_is_Some_2 data i Hi) as [c ->]. reflexivity. }
  destruct (Nat.ltb_spec 0 (length (filteredFlashcardsData S))) as [Hpos|Hz].
  - apply loadCard_well_formed; [|exact HS].
    change (currentIndex S) with (currentIndex s). lia.
  - apply displayCompletionMessage_well_formed; try tauto.
    destruct (filteredFlashcardsData S); [reflexivity|cbn in Hz; lia].
Qed.

Lemma initial_well_formed nameTag : well_formed (initial nameTag).
Proof.
  split; [|split].
  - exists 0%nat. split; [reflexivity|]. cbn. intros i Hi. lia.
  - reflexivity.
  - intros H. exfalso. apply H. reflexivity.
Qed.

Lemma resetAllCards_well_formed c o r w s :
  well_formed s → well_formed (resetAllCards c o r w s).
Proof.
  intros H. unfold resetAllCards. destruct c; [|exact H]. cbv zeta.
  destruct o as [m|[|]]; try (revert H; apply well_formed_same; reflexivity).
  apply loadData_well_formed; [|reflexivity].
  unfold reload_page.
  match goal with |- context [initial ?t] =>
    generalize (initial_well_formed t) end.
  apply well_formed_same; reflexivity.
Qed.

Lemma step_well_formed s a : well_formed s → well_formed (step s a).
Proof.
  intros H.
  destruct a; cbn [step].
  - apply nextCard_well_formed, H.
  - apply prevCard_well_formed, H.
  - apply markAsLearned_well_formed, H.
  - apply deleteImage_well_formed, H.
  - apply resetAllCards_well_formed, H.
  - apply playPhonetic_well_formed, H.
  - apply playSingleExample_well_formed, H.
  - destruct (events_collection FlipCard s I). eapply well_formed_same; eassumption.
  - destruct (events_collection (LoadedMetadata audioDuration) s I).
    eapply well_formed_same; eassumption.
  - destruct (events_collection (TimeUpdate time) s I).
    eapply well_formed_same; eassumption.
  - destruct (events_collection Ended s I). eapply well_formed_same; eassumption.
  - destruct (events_collection (Elapse ms) s I). eapply well_formed_same; eassumption.
Qed.

Lemma session_well_formed nameTag o w acts :
  well_formed (session nameTag o w acts).
Proof.
  unfold session.
  assert (well_formed (loadData o w (initial nameTag))) as H
    by (apply loadData_well_formed; [apply initial_well_formed|reflexivity]).
  revert H. generalize (loadData o w (initial nameTag)).
  induction acts as [|a acts IH]; intros s H; [exact H|].
  cbn. apply IH, step_well_formed, H.
Qed.

(** ** The active collection as a list of cards *)

Lemma cards_of_filter s refs :
  cards_of s (List.filter (unlearned (heap s)) refs) =
  List.filter (λ card, negb (learned card)) (cards_of s refs).
Proof.
  unfold cards_of, unlearned.
  induction refs as [|l refs IH]; [reflexivity|]. cbn.
  destruct (heap s !! l) as [card|] eqn:E; cbn.
  - destruct (negb (learned card)); cbn; rewrite ?E, IH; reflexivity.
  - exact IH.
Qed.

Lemma cards_of_seq_ids s base n k :
  (∀ i, (i < n)%nat → id <$> heap s !! (base + k + i)%nat = Some (Z.of_nat (k + i))) →
  id <$> cards_of s (seq (base + k) n) = Z.of_nat <$> seq k n.
Proof.
  revert k. induction n as [|n IH]; intros k H; [reflexivity|]. cbn.
  pose proof (H 0%nat ltac:(lia)) as H0. rewrite !Nat.add_0_r in H0.
  destruct (heap s !! (base + k)%nat) as [card|]; [|discriminate].
  cbn in *. injection H0 as ->. f_equal.
  replace (S (base + k)) with (base + S k)%nat by lia. apply IH.
  intros i Hi. specialize (H (S i) ltac:(lia)).
  replace (base + S k + i)%nat with (base + k + S i)%nat by lia.
  replace (S k + i)%nat with (k + S i)%nat by lia. exact H.
Qed.

Lemma master_ids s :
  ids_in_place s →
  id <$> cards_of s (masterFlashcardsData s) =
  Z.of_nat <$> seq 0 (length (masterFlashcardsData s)).
Proof.
  intros [base [Hseq Hid]]. rewrite Hseq at 1.
  replace base with (base + 0)%nat at 1 by lia.
  apply cards_of_seq_ids. intros i Hi. rewrite Nat.add_0_r. apply Hid, Hi.
Qed.

Lemma sorted_positions k n : StronglySorted Z.lt (Z.of_nat <$> seq k n).
Proof.
  revert k. induction n as [|n IH]; intros k; cbn; constructor; [apply IH|].
  apply Forall_forall. intros x Hx.
  apply list_elem_of_fmap in Hx as (j & -> & Hj).
  apply list_elem_of_In, List.in_seq in Hj. lia.
Qed.

Lemma sorted_filter_fmap {A} (f : A → Z) (p : A → bool) (l : list A) :
  StronglySorted Z.lt (f <$> l) → StronglySorted Z.lt (f <$> List.filter p l).
Proof.
  induction l as [|x l IH]; intros H; [exact H|]. cbn in *.
  apply StronglySorted_inv in H as [Hl Hx].
  destruct (p x); [|apply IH, Hl]. cbn. constructor; [apply IH, Hl|].
  rewrite Forall_forall in *. intros y Hy. apply Hx.
  apply list_elem_of_fmap in Hy as (z & -> & Hz).
  apply list_elem_of_fmap. exists z. split; [reflexivity|].
  apply list_elem_of_In in Hz. apply List.filter_In in Hz as [Hz _].
  apply list_elem_of_In, Hz.
Qed.

Lemma sorted_NoDup {A} (f : A → Z) (l : list A) :
  StronglySorted Z.lt (f <$> l) → List.NoDup l.
Proof.
  induction l as [|x l IH]; intros H; [constructor|]. cbn in H.
  apply StronglySorted_inv in H as [Hl Hx]. constructor; [|apply IH, Hl].
  intros Hin. rewrite Forall_forall in Hx.
  specialize (Hx (f x)). assert (f x < f x); [|lia].
  apply Hx, list_elem_of_fmap. exists x. split; [reflexivity|].
  apply list_elem_of_In, Hin.
Qed.

(** C2. After the initial load and any sequence of actions (among them any
    number of successful [markAsLearned]), the active collection is exactly
    the stable filter of the master collection by [learned == false]: the
    active array is the filter of the master array, the cards it denotes are
    the not-learned cards of the master collection in master order, the
    [id]s of the master cards are their positions, the active cards are in
    increasing [id] order, hence each appears once, and a card is active
    exactly when it is a master card that is not learned. *)
Theorem active_is_filter_of_master
    (nameTag : string) (o : DataOutcome) (w : World) (acts : list Action) :
  let s := session nameTag o w acts in
  let master := cards_of s (masterFlashcardsData s) in
  let active := cards_of s (filteredFlashcardsData s) in
  filteredFlashcardsData s =
    List.filter (unlearned (heap s)) (masterFlashcardsData s)
  ∧ active = List.filter (λ card, negb (learned card)) master
  ∧ id <$> master = Z.of_nat <$> seq 0 (length (masterFlashcardsData s))
  ∧ StronglySorted Z.lt (id <$> active)
  ∧ List.NoDup active
  ∧ (∀ card, In card active ↔ In card master ∧ learned card = false).
Proof.
  cbv zeta. destruct (session_well_formed nameTag o w acts) as (Hi & Hd & _).
  set (s := session nameTag o w acts) in *. unfold derived in Hd.
  assert (cards_of s (filteredFlashcardsData s) =
          List.filter (λ card, negb (learned card))
            (cards_of s (masterFlashcardsData s))) as Hact
    by (rewrite Hd at 1; apply cards_of_filter).
  assert (StronglySorted Z.lt (id <$> cards_of s (filteredFlashcardsData s)))
    as Hsorted.
  { rewrite Hact. apply sorted_filter_fmap. rewrite master_ids by exact Hi.
    apply sorted_positions. }
  split; [exact Hd|]. split; [exact Hact|]. split; [apply master_ids, Hi|].
  split; [exact Hsorted|]. split; [eapply sorted_NoDup, Hsorted|].
  intros card. rewrite Hact, List.filter_In, negb_true_iff. reflexivity.
Qed.

(** C4. On a well-formed collection with [k >= 1] active cards and the
    cursor on one of them, a successful [markAsLearned] marks the card under
    the cursor, which was not learned; the new active collection has [k - 1]
    cards and contains neither that card's reference nor its [id]; when
    [k - 1 > 0] the card at [min(cursor, k - 2)] is loaded and that is the new
    cursor; when [k - 1 = 0] the completion message is displayed instead, and
    no card is loaded. *)
Theorem markAsLearned_shrinks (w : World) (s : State) :
  well_formed s →
  let k := Z.of_nat (length (filteredFlashcardsData s)) in
  1 <= k →
  let s' := markAsLearned (Responded true) w s in
  ∃ (l : nat) (card : Card),
    at_index (filteredFlashcardsData s) (currentIndex s) = Some l
    ∧ heap s !! l = Some card
    ∧ learned card = false
    ∧ (learned <$> heap s' !! l) = Some true
    ∧ Z.of_nat (length (filteredFlashcardsData s')) = k - 1
    ∧ ¬ In l (filteredFlashcardsData s')
    ∧ ¬ In (id card) (id <$> cards_of s' (filteredFlashcardsData s'))
    ∧ (k - 1 > 0 →
         s' = loadCard w (Z.min (currentIndex s) (k - 2)) true
                (marked l (requested card s))
         ∧ currentIndex s' = Z.min (currentIndex s) (k - 2))
    ∧ (k - 1 = 0 →
         s' = displayCompletionMessage (marked l (requested card s))
         ∧ completed (dom s') = true).
Proof.
  intros Hwf k Hk s'. pose proof Hwf as (Hi & Hd & Hc).
  assert (filteredFlashcardsData s ≠ []) as Hne
    by (subst k; destruct (filteredFlashcardsData s); [cbn in Hk; lia|discriminate]).
  pose proof (Hc Hne) as Hr.
  destruct (markAsLearned_success w s Hi Hd Hr)
    as (l & card & Hl & Hcard & Hin & Heq).
  cbv zeta in Heq. fold s' in Heq.
  set (s1 := marked l (requested card s)) in *.
  assert (Z.of_nat (length (filteredFlashcardsData s1)) = k - 1) as Hlen.
  { pose proof (marked_length l (requested card s) Hi Hd Hin) as H.
    fold s1 in H. change (filteredFlashcardsData (requested card s))
      with (filteredFlashcardsData s) in H. subst k. lia. }
  assert (filteredFlashcardsData s' = filteredFlashcardsData s1) as Hf'.
  { rewrite Heq. destruct (_ >? 0); [apply loadCard_filtered|reflexivity]. }
  assert (images_only (heap s1) (heap s')) as Hh'.
  { rewrite Heq. destruct (_ >? 0); [apply loadCard_heap|apply images_only_refl]. }
  assert (masterFlashcardsData s' = masterFlashcardsData s) as Hm'.
  { rewrite Heq. destruct (_ >? 0); [rewrite loadCard_master|]; reflexivity. }
  assert (¬ In l (filteredFlashcardsData s')) as Hnot.
  { rewrite Hf'. apply (marked_not_in l (requested card s)), Hd. }
  assert (unlearned (heap s) l = true) as Hun.
  { unfold derived in Hd. rewrite Hd in Hin.
    apply List.filter_In in Hin. tauto. }
  assert (learned <$> heap s1 !! l = Some true) as Hl1.
  { subst s1. unfold marked, requested. cbn.
    rewrite list_lookup_alter_eq, Hcard. reflexivity. }
  assert (well_formed s') as (Hi' & Hd' & _)
    by (apply markAsLearned_well_formed, Hwf).
  exists l, card. split; [exact Hl|]. split; [exact Hcard|].
  split; [unfold unlearned in Hun; rewrite Hcard in Hun;
          apply negb_true_iff, Hun|].
  split.
  { pose proof (images_only_lookup _ _ l Hh') as E.
    destruct (heap s' !! l) as [c'|], (heap s1 !! l) as [c1|];
      cbn in *; try congruence.
    injection E as E. destruct c', c1. cbn in *. congruence. }
  split; [rewrite Hf'; exact Hlen|]. split; [exact Hnot|]. split.
  { intros Hid. apply Hnot.
    destruct (heap s' !! l) as [c'|] eqn:Hc'.
    - apply (active_ids s' l c' Hi' Hd' Hc').
      + rewrite Hm'. unfold derived in Hd. rewrite Hd in Hin.
        apply List.filter_In in Hin. tauto.
      + replace (id c') with (id card); [exact Hid|].
        pose proof (images_only_id _ _ l Hh') as E. rewrite Hc' in E.
        subst s1. unfold marked, requested in E. cbn in E.
        rewrite id_alter_learned, Hcard in E. cbn in E. congruence.
    - pose proof (images_only_id _ _ l Hh') as E. rewrite Hc' in E.
      destruct (heap s1 !! l); discriminate. }
  rewrite Hlen in Heq. split.
  - intros Hpos. destruct (Z.gtb_spec (k - 1) 0); [|lia].
    replace (k - 1 - 1) with (k - 2) in Heq by lia. split; [exact Heq|].
    rewrite Heq. apply loadCard_currentIndex.
    destruct (filteredFlashcardsData s1); [cbn in Hlen; lia|discriminate].
  - intros Hz. destruct (Z.gtb_spec (k - 1) 0); [lia|].
    split; [exact Heq|]. rewrite Heq. reflexivity.
Qed.

(** C5. When the update request of [markAsLearned] fails (it is rejected,
    or answered with a status that is not ok), then in every state the
    cards, the master and active arrays and the cursor are unchanged; and
    whenever the request was sent (there is a card under the cursor), it is
    the update of that card, the message on display is an error, and the
    interaction lock is released. *)
Theorem markAsLearned_failure_restores
    (o : StatusOutcome) (w : World) (s : State) :
  o ≠ Responded true →
  let s' := markAsLearned o w s in
  heap s' = heap s
  ∧ masterFlashcardsData s' = masterFlashcardsData s
  ∧ filteredFlashcardsData s' = filteredFlashcardsData s
  ∧ currentIndex s' = currentIndex s
  ∧ (requests s' ≠ requests s →
       (∃ card, card_at s (currentIndex s) = Some card
                ∧ requests s' = (requests s ++ [PostUpdateStatus (id card) true])%list)
       ∧ (∃ text, shown s' = Some (text, true))
       ∧ locked s' = false)
  ∧ (filteredFlashcardsData s ≠ [] →
     is_Some (card_at s (currentIndex s)) →
     requests s' ≠ requests s).
Proof.
  intros Ho s'. destruct (markAsLearned_failure o w s Ho) as [Hcoll Hcur].
  fold s' in Hcoll, Hcur. unfold collection in Hcoll.
  injection Hcoll as Hh Hm Hf.
  split; [exact Hh|]. split; [exact Hm|]. split; [exact Hf|].
  split; [exact Hcur|]. subst s'. unfold markAsLearned.
  destruct (filteredFlashcardsData s) as [|x xs] eqn:Hfs;
    [split; [intros H; exfalso; apply H; reflexivity|intros H; congruence]|].
  cbn [length Nat.eqb]. cbv zeta.
  match goal with |- context [card_at ?S (currentIndex ?S)] =>
    change (card_at S (currentIndex S)) with (card_at s (currentIndex s)) end.
  destruct (card_at s (currentIndex s)) as [card|];
    [|split; [intros H; exfalso; apply H; reflexivity
             |intros _ [c Hc]; discriminate]].
  assert (∀ l : list Request, (l ++ [PostUpdateStatus (id card) true])%list ≠ l)
    as Hneq.
  { intros l H. apply (f_equal length) in H. rewrite length_app in H.
    cbn in H. lia. }
  destruct o as [m|[|]]; try congruence;
    (split; [intros _; cbn; split; [exists card; split; reflexivity|];
             split; [eauto|reflexivity]
            |intros _ _; apply Hneq]).
Qed.

(** C10. With an empty active collection [markAsLearned] does nothing: no
    request is sent, the lock is not engaged, and the collection and the
    cursor stay as they are; the whole state is unchanged. *)
Theorem markAsLearned_empty (o : StatusOutcome) (w : World) (s : State) :
  filteredFlashcardsData s = [] →
  markAsLearned o w s = s.
Proof. intros H. unfold markAsLearned. rewrite H. reflexivity. Qed.

(** * The confirmation guard *)

Lemma guard_ok_same s s' : guard_view s' = guard_view s → guard_ok s → guard_ok s'.
Proof.
  unfold guard_view, guard_ok, guard. intros H. injection H as -> -> -> ->.
  exact (λ H, H).
Qed.

Lemma controls_guard_view s s' : controls s' = controls s → guard_view s' = guard_view s.
Proof. unfold controls, guard_view. congruence. Qed.

Lemma clearTimeout_disarms s :
  guard_ok s → timers (clearTimeout (deleteConfirmationTimeoutId s) s) = [].
Proof.
  unfold guard_ok, guard.
  destruct (awaitingDeleteConfirmation s).
  - intros (i & deadline & -> & Ht & _). cbn. rewrite Ht. cbn.
    rewrite Nat.eqb_refl. reflexivity.
  - intros Ht. destruct (deleteConfirmationTimeoutId s); cbn; rewrite ?Ht; reflexivity.
Qed.

(** [loadCard] on a collection that is not empty resets the guard. *)
Lemma loadCard_resets_guard w index autoPlay s :
  guard_ok s → filteredFlashcardsData s ≠ [] →
  guard (loadCard w index autoPlay s) = Idle ∧
  timers (loadCard w index autoPlay s) = [].
Proof.
  intros Hg Hne. pose proof (loadCard_controls w index autoPlay s) as H.
  destruct (filteredFlashcardsData s) as [|x xs] eqn:Hf; [congruence|].
  cbn in H. unfold controls, controls_loaded in H.
  injection H as _ _ _ Ha _ Ht _ _ _.
  unfold guard. rewrite Ha, Ht. split; [reflexivity|].
  apply clearTimeout_disarms, Hg.
Qed.

Lemma loadCard_guard_ok w index autoPlay s :
  guard_ok s → guard_ok (loadCard w index autoPlay s).
Proof.
  intros Hg. destruct (decide (filteredFlashcardsData s = [])) as [He|Hne].
  - revert Hg. apply guard_ok_same, controls_guard_view.
    rewrite loadCard_controls, He. reflexivity.
  - destruct (loadCard_resets_guard w index autoPlay s Hg Hne) as [H1 H2].
    unfold guard_ok. rewrite H1. exact H2.
Qed.

Lemma elapse_guard_ok ms s : guard_ok s → guard_ok (elapse ms s).
Proof.
  unfold guard_ok, guard, elapse. cbv zeta.
  destruct (awaitingDeleteConfirmation s) eqn:Ha.
  - intros (i & deadline & Hi & Ht & Hd). rewrite Ht. cbn.
    destruct (Z.leb_spec deadline (clock s + ms)); cbn.
    + unfold confirmation_timeout. cbn. rewrite Ha. reflexivity.
    + rewrite Ha. exists i, deadline. cbn. repeat split; [exact Hi|lia].
  - intros ->. cbn. rewrite Ha. reflexivity.
Qed.

(** The first click arms the guard and does nothing else. *)
Lemma deleteImage_first_click o w s :
  awaitingDeleteConfirmation s = false →
  let s1 := deleteImage o w s in
  guard s1 = AwaitingConfirm
  ∧ deleteConfirmationTimeoutId s1 = Some (nextTimer s)
  ∧ timers s1 = (timers s ++ [(nextTimer s, clock s + 5000)])%list
  ∧ clock s1 = clock s
  ∧ requests s1 = requests s
  ∧ collection s1 = collection s
  ∧ currentIndex s1 = currentIndex s
  ∧ shown s1 = Some ("⚠️ Haz clic de nuevo en 🗑️ para confirmar.", true).
Proof.
  intros Ha. cbv zeta. unfold deleteImage. rewrite Ha. repeat split.
Qed.

Lemma card_at_at_index s i card :
  card_at s i = Some card →
  ∃ l, at_index (filteredFlashcardsData s) i = Some l ∧ heap s !! l = Some card.
Proof.
  unfold card_at. destruct (at_index _ _) as [l|]; [|discriminate].
  intros H. exists l. split; [reflexivity|exact H].
Qed.

Lemma card_at_nonempty s i card :
  card_at s i = Some card → filteredFlashcardsData s ≠ [].
Proof.
  intros H. destruct (card_at_at_index s i card H) as (l & Hl & _).
  apply at_index_Some in Hl as [_ Hl]. intros He. rewrite He in Hl. discriminate.
Qed.

Lemma loadCard_deletions w index autoPlay s :
  deletions (loadCard w index autoPlay s) = deletions s.
Proof.
  pose proof (loadCard_controls w index autoPlay s) as H.
  destruct (_ =? _)%nat; unfold controls, controls_loaded in H; congruence.
Qed.

(** The second click disarms the timer and sends the delete request, once. *)
Lemma deleteImage_second_click o w s card :
  awaitingDeleteConfirmation s = true →
  guard_ok s →
  card_at s (currentIndex s) = Some card →
  let s2 := deleteImage o w s in
  guard s2 = Idle ∧ timers s2 = [] ∧ deletions s2 = S (deletions s).
Proof.
  intros Ha Hg Hcard. cbv zeta. unfold deleteImage. rewrite Ha. cbv zeta.
  destruct (card_at_at_index s _ card Hcard) as (l & Hl & Hh).
  pose proof (clearTimeout_disarms s Hg) as Ht.
  match goal with |- context [at_index (filteredFlashcardsData ?S) (currentIndex ?S)] =>
    assert (at_index (filteredFlashcardsData S) (currentIndex S) = Some l) as ->
      by (destruct (deleteConfirmationTimeoutId s); exact Hl);
    assert (card_at S (currentIndex S) = Some card) as ->
      by (destruct (deleteConfirmationTimeoutId s); exact Hcard);
    assert (awaitingDeleteConfirmation S = false ∧ timers S = [] ∧
            deletions S = deletions s ∧
            filteredFlashcardsData S = filteredFlashcardsData s) as HS
      by (destruct (deleteConfirmationTimeoutId s); cbn in *; rewrite ?Ht;
          repeat split; assumption);
    generalize dependent S end.
  intros T (HSa & HSt & HSd & HSf).
  assert (deletions (send (DeleteImage (id card) 0) T) = S (deletions s)) as Hd
    by (rewrite deletions_send, HSd; cbn; lia).
  destruct o as [m|[|]].
  - unfold report, guard. cbn. rewrite HSa, HSt. repeat split. exact Hd.
  - match goal with |- context [loadCard w ?i true ?S2] =>
      destruct (loadCard_resets_guard w i true S2) as [H1 H2] end.
    + unfold guard_ok, guard. cbn. rewrite HSa. exact HSt.
    + cbn. rewrite HSf. eapply card_at_nonempty, Hcard.
    + unfold report. rewrite loadCard_deletions. repeat split; assumption.
  - unfold report, guard. cbn. rewrite HSa, HSt. repeat split. exact Hd.
Qed.

(** The states the guard goes through after a first click at [s]. *)
Lemma elapse_before_deadline d s i deadline :
  timers s = [(i, deadline)] → clock s + d < deadline →
  elapse d s = set_clock (clock s + d) s.
Proof.
  intros Ht Hd. unfold elapse. rewrite Ht. cbn.
  destruct (Z.leb_spec deadline (clock s + d)); [lia|]. cbn.
  rewrite <- Ht. destruct s. reflexivity.
Qed.

Lemma elapse_after_deadline d s i deadline :
  timers s = [(i, deadline)] → deadline <= clock s + d →
  elapse d s = confirmation_timeout (set_clock (clock s + d) (set_timers [] s)).
Proof.
  intros Ht Hd. unfold elapse. rewrite Ht. cbn.
  destruct (Z.leb_spec deadline (clock s + d)); [|lia]. reflexivity.
Qed.

(** C6. The confirmation guard is a two-state machine.  From [Idle] (with a
    card under the cursor): a request moves to [AwaitingConfirm], arms one
    timer for 5000 ms and sends nothing; a second request less than 5000 ms
    later disarms the timer, returns to [Idle] and sends the delete request
    exactly once; if 5000 ms pass without a second request the guard is back
    in [Idle] with nothing sent, and the next request only arms it again;
    loading a card resets the guard to [Idle] and disarms the timer. *)
Theorem confirmation_guard
    (s : State) (card : Card) (o1 o2 : StatusOutcome) (w1 w2 : World) :
  guard s = Idle →
  timers s = [] →
  card_at s (currentIndex s) = Some card →
  let s1 := deleteImage o1 w1 s in
  (guard s1 = AwaitingConfirm
   ∧ timers s1 = [(nextTimer s, clock s + 5000)]
   ∧ requests s1 = requests s
   ∧ collection s1 = collection s)
  ∧ (∀ d, 0 <= d < 5000 →
       let s2 := deleteImage o2 w2 (elapse d s1) in
       guard s2 = Idle ∧ timers s2 = [] ∧ deletions s2 = S (deletions s))
  ∧ (∀ d, 5000 <= d →
       let s3 := elapse d s1 in
       let s4 := deleteImage o2 w2 s3 in
       guard s3 = Idle ∧ timers s3 = [] ∧ requests s3 = requests s
       ∧ collection s3 = collection s
       ∧ guard s4 = AwaitingConfirm ∧ requests s4 = requests s)
  ∧ (∀ d w index autoPlay,
       let s5 := loadCard w index autoPlay (elapse d s1) in
       guard s5 = Idle ∧ timers s5 = []).
Proof.
  intros Hidle Ht Hcard s1.
  assert (awaitingDeleteConfirmation s = false) as Ha
    by (unfold guard in Hidle; destruct (awaitingDeleteConfirmation s); congruence).
  destruct (deleteImage_first_click o1 w1 s Ha)
    as (Hg1 & Hid1 & Ht1 & Hc1 & Hr1 & Hcoll1 & Hcur1 & _).
  fold s1 in Hg1, Hid1, Ht1, Hc1, Hr1, Hcoll1, Hcur1.
  rewrite Ht in Ht1. cbn in Ht1.
  assert (awaitingDeleteConfirmation s1 = true) as Ha1
    by (unfold guard in Hg1; destruct (awaitingDeleteConfirmation s1); congruence).
  assert (guard_ok s1) as Hok1.
  { unfold guard_ok. rewrite Hg1. exists (nextTimer s), (clock s + 5000).
    rewrite Hc1. repeat split; [exact Hid1|exact Ht1|lia]. }
  assert (card_at s1 (currentIndex s1) = Some card) as Hcard1.
  { unfold collection in Hcoll1. injection Hcoll1 as Hh _ Hf.
    unfold card_at. rewrite Hf, Hh, Hcur1. exact Hcard. }
  split; [repeat split; assumption|]. split; [|split].
  - intros d Hd. cbv zeta.
    rewrite (elapse_before_deadline d s1 _ _ Ht1) by lia.
    destruct (deleteImage_second_click o2 w2 (set_clock (clock s1 + d) s1) card)
      as (H1 & H2 & H3).
    + exact Ha1.
    + unfold guard_ok, guard. cbn. rewrite Ha1.
      exists (nextTimer s), (clock s + 5000). repeat split; [exact Hid1|exact Ht1|lia].
    + exact Hcard1.
    + repeat split; try assumption. rewrite H3. unfold deletions. cbn.
      rewrite Hr1. reflexivity.
  - intros d Hd. cbv zeta.
    rewrite (elapse_after_deadline d s1 _ _ Ht1) by lia.
    unfold confirmation_timeout. cbn. rewrite Ha1.
    unfold deleteImage, guard. cbn. repeat split; assumption.
  - intros d w index autoPlay. cbv zeta.
    apply loadCard_resets_guard; [apply elapse_guard_ok, Hok1|].
    destruct (elapse_collection d s1) as [Hcoll _].
    unfold collection in Hcoll, Hcoll1.
    injection Hcoll as _ _ ->. injection Hcoll1 as _ _ ->.
    eapply card_at_nonempty, Hcard.
Qed.

(** ** The guard along a session *)

Ltac guard_frame H :=
  first
    [ exact H
    | revert H; apply guard_ok_same; reflexivity
    | apply loadCard_guard_ok; revert H; apply guard_ok_same; reflexivity ].

Lemma markAsLearned_guard_ok o w s : guard_ok s → guard_ok (markAsLearned o w s).
Proof.
  intros H. unfold markAsLearned.
  destruct (_ =? _)%nat; [exact H|]. cbv zeta.
  destruct (card_at _ _) as [card|]; [|guard_frame H].
  destruct o as [m|[|]]; try (unfold report; guard_frame H).
  destruct (at_index _ _) as [l|]; [|unfold report; guard_frame H].
  destruct (_ >? 0); unfold report; guard_frame H.
Qed.

Lemma nextCard_guard_ok w s : guard_ok s → guard_ok (nextCard w s).
Proof. intros H. unfold nextCard. destruct (_ >? 0); guard_frame H. Qed.

Lemma prevCard_guard_ok w s : guard_ok s → guard_ok (prevCard w s).
Proof. intros H. unfold prevCard. destruct (_ >? 0); guard_frame H. Qed.

Lemma deleteImage_guard_ok o w s : guard_ok s → guard_ok (deleteImage o w s).
Proof.
  intros H. destruct (awaitingDeleteConfirmation s) eqn:Ha.
  - pose proof (clearTimeout_disarms s H) as Ht.
    unfold deleteImage. rewrite Ha. cbv zeta.
    match goal with |- context [at_index (filteredFlashcardsData ?S) (currentIndex ?S)] =>
      assert (guard_ok S) as HS
        by (unfold guard_ok, guard;
            destruct (deleteConfirmationTimeoutId s); cbn in *; exact Ht);
      generalize dependent S end.
    intros T HT.
    destruct (at_index _ _) as [l|]; [|unfold report; guard_frame HT].
    destruct (card_at _ _) as [card|]; [|unfold report; guard_frame HT].
    destruct o as [m|[|]]; unfold report; guard_frame HT.
  - destruct (deleteImage_first_click o w s Ha)
      as (Hg1 & Hid1 & Ht1 & Hc1 & _).
    unfold guard_ok, guard in H. rewrite Ha in H. rewrite H in Ht1.
    unfold guard_ok. rewrite Hg1. exists (nextTimer s), (clock s + 5000).
    rewrite Hc1. repeat split; [exact Hid1|exact Ht1|lia].
Qed.

Lemma playAudioFromApi_guard_ok o text item s :
  guard_ok s → guard_ok (playAudioFromApi o text item s).
Proof. apply guard_ok_same, controls_guard_view, playAudioFromApi_controls. Qed.

Lemma loadData_guard_ok o w s : guard_ok s → guard_ok (loadData o w s).
Proof.
  intros H. unfold loadData. cbv zeta.
  destruct o as [m|  |[data|m]]; try guard_frame H.
  destruct (_ <? _)%nat; guard_frame H.
Qed.

Lemma resetAllCards_guard_ok c o r w s :
  guard_ok s → guard_ok (resetAllCards c o r w s).
Proof.
  intros H. unfold resetAllCards. destruct c; [|exact H]. cbv zeta.
  destruct o as [m|[|]]; try guard_frame H.
  apply loadData_guard_ok. reflexivity.
Qed.

Lemma events_guard_view a s :
  match a with
  | FlipCard | LoadedMetadata _ | TimeUpdate _ | Ended => True
  | _ => False
  end →
  guard_view (step s a) = guard_view s.
Proof.
  destruct a; intros H; try (exfalso; exact H); clear H; cbn.
  - unfold flipCard. destruct (_ || _); reflexivity.
  - unfold fire_loadedmetadata.
    destruct (onloadedmetadata _) as [h|]; [|reflexivity].
    destruct (timePerWord_of _ _); reflexivity.
  - unfold fire_timeupdate, timeupdate_with.
    destruct (ontimeupdate _) as [h|]; [|reflexivity].
    destruct (cells s !! _) as [last|]; [|reflexivity].
    destruct (word_index _ _ =? last); [reflexivity|].
    destruct (at_index _ last), (_ && _);
      [destruct (at_index _ _)| |destruct (at_index _ _)|]; reflexivity.
  - unfold fire_ended. destruct (onended _) as [h|]; [|reflexivity].
    destruct (eh_itemElement h); reflexivity.
Qed.

Lemma step_guard_ok s a : guard_ok s → guard_ok (step s a).
Proof.
  intros H. destruct a; cbn [step].
  - apply nextCard_guard_ok, H.
  - apply prevCard_guard_ok, H.
  - apply markAsLearned_guard_ok, H.
  - apply deleteImage_guard_ok, H.
  - apply resetAllCards_guard_ok, H.
  - unfold playPhonetic. destruct (card_at _ _); [|exact H].
    apply playAudioFromApi_guard_ok, H.
  - unfold playSingleExample. destruct (card_at _ _); [|exact H].
    destruct (_ !! index); [|exact H]. apply playAudioFromApi_guard_ok, H.
  - revert H. apply guard_ok_same, (events_guard_view FlipCard s I).
  - revert H. apply guard_ok_same, (events_guard_view (LoadedMetadata _) s I).
  - revert H. apply guard_ok_same, (events_guard_view (TimeUpdate _) s I).
  - revert H. apply guard_ok_same, (events_guard_view Ended s I).
  - apply elapse_guard_ok, H.
Qed.

(** Along a session at most one confirmation timer is pending, and none
    while the guard is idle. *)
Lemma session_guard_ok nameTag o w acts : guard_ok (session nameTag o w acts).
Proof.
  unfold session.
  assert (guard_ok (loadData o w (initial nameTag))) as H
    by (apply loadData_guard_ok; reflexivity).
  revert H. generalize (loadData o w (initial nameTag)).
  induction acts as [|a acts IH]; intros s H; [exact H|].
  cbn. apply IH, step_guard_ok, H.
Qed.

(** * Highlighting *)

Lemma at_index_elem {A} (arr : list A) (i : Z) (x : A) :
  at_index arr i = Some x → x ∈ arr.
Proof.
  intros H. apply at_index_Some in H as [_ H]. eapply list_elem_of_lookup_2, H.
Qed.

Lemma at_index_range {A} (arr : list A) (i : Z) :
  is_Some (at_index arr i) ↔ 0 <= i < Z.of_nat (length arr).
Proof.
  split.
  - intros [x H]. apply at_index_Some in H as [H0 H].
    apply lookup_lt_Some in H. lia.
  - apply at_index_in_range.
Qed.

#[local] Set Warnings "-clear-no-such-hyp".

Ltac simpl_highlight :=
  unfold highlighted_words, marker, attached in *;
  cbn [dom set_dom set_cells upd_dom highlighted_word set_highlighted_word
       nameElement exampleItems th_wordSpans] in *.

Lemma timeupdate_with_in_session (k : Z) s h last :
  in_session s h last → in_session (timeupdate_with h k s) h k.
Proof.
  intros [Hh Hc Hw Hl]. unfold timeupdate_with. rewrite Hc.
  destruct (Z.eqb_spec k last) as [E|Hne];
    [rewrite E; split; assumption|].
  destruct h as [call ws tpw]. cbn [th_call th_wordSpans th_timePerWord] in *.
  assert (∀ i span, at_index ws i = Some span → span ∈ attached (dom s)) as Hin.
  { intros i span Hi. apply Hw, elem_of_list_to_set, (at_index_elem _ i), Hi. }
  unfold highlighted_words, marker in Hl.
  assert (at_index ws k = None →
          (0 <=? k) && (k <? Z.of_nat (length ws)) = false) as Hout.
  { intros Hk. destruct (Z.leb_spec 0 k), (Z.ltb_spec k (Z.of_nat (length ws)));
      try reflexivity.
    destruct (at_index_in_range ws k) as [x Hx]; [lia|congruence]. }
  assert (is_Some (at_index ws k) →
          (0 <=? k) && (k <? Z.of_nat (length ws)) = true) as Hinr.
  { intros Hk. apply at_index_range in Hk.
    destruct (Z.leb_spec 0 k), (Z.ltb_spec k (Z.of_nat (length ws)));
      try reflexivity; lia. }
  destruct (at_index ws k) as [span|] eqn:Hk.
  - rewrite Hinr by eauto. pose proof (Hin _ _ Hk) as Hspan.
    destruct (at_index ws last) as [old|]; split;
      [exact Hh|apply lookup_insert_eq|exact Hw| |
       exact Hh|apply lookup_insert_eq|exact Hw| ];
      simpl_highlight; rewrite Hk; set_solver.
  - rewrite Hout by reflexivity.
    destruct (at_index ws last) as [old|]; split;
      [exact Hh|apply lookup_insert_eq|exact Hw| |
       exact Hh|apply lookup_insert_eq|exact Hw| ];
      simpl_highlight; rewrite Hk; set_solver.
Qed.

Lemma fire_timeupdate_in_session (t : Q) s h last :
  in_session s h last →
  in_session (fire_timeupdate t s) h (word_index t (th_timePerWord h)).
Proof.
  intros H. unfold fire_timeupdate. rewrite (handler_installed _ _ _ H).
  apply timeupdate_with_in_session with last, H.
Qed.

Lemma notify_in_session times s h last :
  in_session s h last → ∃ last', in_session (notify s times) h last'.
Proof.
  revert s last. induction times as [|t times IH]; intros s last H.
  - exists last. exact H.
  - cbn. eapply IH, fire_timeupdate_in_session, H.
Qed.

Lemma marker_size wordSpans i : (size (marker wordSpans i) ≤ 1)%nat.
Proof.
  unfold marker. destruct (at_index wordSpans i).
  - rewrite size_singleton. lia.
  - rewrite size_empty. lia.
Qed.

(** ** Rounding to a double *)

Lemma two_ne_0 : ~ (2 == 0)%Q.
Proof. discriminate. Qed.

Lemma pow2_pos e : (0 < 2 ^ e)%Q.
Proof. apply Qpower_0_lt. reflexivity. Qed.

Lemma pow2_inject e : 0 <= e -> (2 ^ e == inject_Z (2 ^ e))%Q.
Proof. intros H. rewrite (Zpower_Qpower 2 e H). reflexivity. Qed.

Lemma pow2_le a b : a <= b -> (2 ^ a <= 2 ^ b)%Q.
Proof. intros H. apply Qpower_le_compat_l; [exact H|discriminate]. Qed.

Lemma pow2_lt_inv a b : (2 ^ a < 2 ^ b)%Q -> a < b.
Proof. intros H. apply (Qpower_lt_compat_l_inv 2); [exact H|reflexivity]. Qed.

Lemma Qlog2_spec x :
  (0 < x)%Q -> (2 ^ Qlog2 x <= x)%Q /\ (x < 2 ^ (Qlog2 x + 1))%Q.
Proof.
  intros Hx. destruct x as [n d]. unfold Qlog2. cbn [Qnum Qden].
  assert (0 < n) as Hn by (unfold Qlt in Hx; cbn in Hx; lia).
  pose proof (Z.log2_spec n Hn) as [Ha1 Ha2].
  pose proof (Z.log2_spec (Z.pos d) (Pos2Z.is_pos d)) as [Hb1 Hb2].
  pose proof (Z.log2_nonneg n) as Ha0.
  pose proof (Z.log2_nonneg (Z.pos d)) as Hb0.
  set (a := Z.log2 n) in *. set (b := Z.log2 (Z.pos d)) in *.
  assert (forall u v, 0 <= u -> 0 <= v ->
            (n # d < 2 ^ (u - v))%Q <-> n * 2 ^ v < 2 ^ u * Z.pos d) as Hlt.
  { intros u v Hu Hv. rewrite (Qpower_minus 2 u v two_ne_0).
    rewrite (pow2_inject u Hu), (pow2_inject v Hv).
    assert (0 < 2 ^ v) as Hpv by (apply Z.pow_pos_nonneg; lia).
    assert (0 < 2 ^ u) as Hpu by (apply Z.pow_pos_nonneg; lia).
    split.
    - intros H. apply (Qmult_lt_compat_r _ _ (inject_Z (2 ^ v))) in H.
      + unfold Qdiv in H. rewrite <- Qmult_assoc, (Qmult_comm (/ _)), Qmult_inv_r,
          Qmult_1_r in H.
        * unfold Qlt in H. cbn in H. lia.
        * intros E. unfold Qeq in E. cbn in E. lia.
      + unfold Qlt. cbn. lia.
    - intros H. apply Qlt_shift_div_l.
      + unfold Qlt. cbn. lia.
      + unfold Qlt. cbn. lia. }
  assert (forall u v, 0 <= u -> 0 <= v ->
            (2 ^ (u - v) <= n # d)%Q <-> 2 ^ u * Z.pos d <= n * 2 ^ v) as Hle.
  { intros u v Hu Hv. split.
    - intros H. apply Z.nlt_ge. intros C. apply Hlt in C; [|assumption..].
      apply (Qlt_not_le _ _ C), H.
    - intros H. apply Qnot_lt_le. intros C. apply Hlt in C; [|assumption..]. lia. }
  destruct (Qle_bool (2 ^ (a - b)) (n # d)) eqn:E.
  - apply Qle_bool_iff in E. split; [exact E|].
    replace (a - b + 1) with ((a + 1) - b) by lia.
    apply Hlt; [lia|lia|]. nia.
  - assert (n # d < 2 ^ (a - b))%Q as E'.
    { apply Qnot_le_lt. intros C. apply Qle_bool_iff in C. congruence. }
    replace (a - b - 1 + 1) with (a - b) by lia. split; [|exact E'].
    replace (a - b - 1) with (a - (b + 1)) by lia.
    apply Hle; [lia|lia|]. nia.
Qed.

Lemma round_half_even_floor q :
  Qfloor q <= round_half_even q <= Qfloor q + 1.
Proof.
  unfold round_half_even. destruct (_ ?= _)%Q; [destruct (Z.even (Qfloor _))|..]; lia.
Qed.

Lemma round_half_even_ge q n : (inject_Z n <= q)%Q -> n <= round_half_even q.
Proof.
  intros H. apply Qfloor_resp_le in H. rewrite Qfloor_Z in H.
  pose proof (round_half_even_floor q). lia.
Qed.

Lemma round_half_even_le q n : (q <= inject_Z n)%Q -> round_half_even q <= n.
Proof.
  intros H. pose proof (Qfloor_resp_le _ _ H) as Hf. rewrite Qfloor_Z in Hf.
  pose proof (round_half_even_floor q) as Hr.
  destruct (Z.eq_dec (Qfloor q) n) as [E|Hne]; [|lia].
  unfold round_half_even. rewrite E.
  assert (q - inject_Z n < 1 # 2)%Q as Hlt.
  { apply Qle_lt_trans with 0%Q; [|reflexivity].
    apply (Qplus_le_l _ _ (inject_Z n)). ring_simplify. exact H. }
  rewrite (proj1 (Qlt_alt _ _) Hlt). lia.
Qed.

Lemma round_half_even_monotone p q :
  (p <= q)%Q -> round_half_even p <= round_half_even q.
Proof.
  intros H. pose proof (Qfloor_resp_le _ _ H) as Hf.
  pose proof (round_half_even_floor p) as Hp.
  pose proof (round_half_even_floor q) as Hq.
  destruct (Z.eq_dec (Qfloor p) (Qfloor q)) as [E|Hne]; [|clear H; lia].
  clear Hp Hq Hf. unfold round_half_even. rewrite E.
  assert (p - inject_Z (Qfloor q) <= q - inject_Z (Qfloor q))%Q as Hr
    by (apply Qplus_le_l; exact H).
  clear H E.
  destruct (q - inject_Z (Qfloor q) ?= 1 # 2)%Q eqn:Cq.
  - apply Qeq_alt in Cq.
    destruct (p - inject_Z (Qfloor q) ?= 1 # 2)%Q eqn:Cp.
    + apply Z.le_refl.
    + clear. destruct (Z.even (Qfloor q)); lia.
    + apply Qgt_alt in Cp. exfalso. apply (Qlt_not_le _ _ Cp).
      rewrite <- Cq. exact Hr.
  - apply Qlt_alt in Cq.
    assert (p - inject_Z (Qfloor q) < 1 # 2)%Q as Cp
      by (eapply Qle_lt_trans; eassumption).
    rewrite (proj1 (Qlt_alt _ _) Cp). apply Z.le_refl.
  - clear. destruct (_ ?= _)%Q; [destruct (Z.even (Qfloor q))|..]; lia.
Qed.

Lemma ulp_exponent_min x : -1074 <= ulp_exponent x.
Proof. unfold ulp_exponent. lia. Qed.

Lemma ulp_upper x :
  (0 < Qabs x)%Q -> (Qabs x < 2 ^ (ulp_exponent x + 53))%Q.
Proof.
  intros Hx. destruct (Qlog2_spec _ Hx) as [_ H].
  eapply Qlt_le_trans; [exact H|]. apply pow2_le. unfold ulp_exponent. lia.
Qed.

Lemma ulp_lower x :
  (0 < Qabs x)%Q -> -1074 < ulp_exponent x ->
  (2 ^ (ulp_exponent x + 52) <= Qabs x)%Q.
Proof.
  intros Hx He. destruct (Qlog2_spec _ Hx) as [H _].
  eapply Qle_trans; [|exact H]. apply pow2_le. unfold ulp_exponent in *. lia.
Qed.

Lemma Qlog2_monotone x y :
  (0 < x)%Q -> (x <= y)%Q -> Qlog2 x <= Qlog2 y.
Proof.
  intros Hx Hxy.
  destruct (Qlog2_spec x Hx) as [H1 _].
  destruct (Qlog2_spec y (Qlt_le_trans _ _ _ Hx Hxy)) as [_ H2].
  assert (2 ^ Qlog2 x < 2 ^ (Qlog2 y + 1))%Q as H
    by (eapply Qle_lt_trans; [exact H1|]; eapply Qle_lt_trans; eassumption).
  apply pow2_lt_inv in H. lia.
Qed.

Lemma ulp_exponent_monotone x y :
  (0 < Qabs x)%Q -> (Qabs x <= Qabs y)%Q -> ulp_exponent x <= ulp_exponent y.
Proof.
  intros Hx Hxy. pose proof (Qlog2_monotone _ _ Hx Hxy).
  unfold ulp_exponent. lia.
Qed.

(** A multiple of the unit above [x] is above its double, and one below is
    below. *)
Lemma round64_le x n :
  (x <= inject_Z n * 2 ^ ulp_exponent x)%Q ->
  (round64 x <= inject_Z n * 2 ^ ulp_exponent x)%Q.
Proof.
  intros H. unfold round64. cbv zeta.
  pose proof (pow2_pos (ulp_exponent x)) as Hu.
  apply Qmult_le_compat_r; [|apply Qlt_le_weak, Hu].
  rewrite <- Zle_Qle. apply round_half_even_le.
  apply Qle_shift_div_r; assumption.
Qed.

Lemma round64_ge x n :
  (inject_Z n * 2 ^ ulp_exponent x <= x)%Q ->
  (inject_Z n * 2 ^ ulp_exponent x <= round64 x)%Q.
Proof.
  intros H. unfold round64. cbv zeta.
  pose proof (pow2_pos (ulp_exponent x)) as Hu.
  apply Qmult_le_compat_r; [|apply Qlt_le_weak, Hu].
  rewrite <- Zle_Qle. apply round_half_even_ge.
  apply Qle_shift_div_l; assumption.
Qed.

Lemma round64_nonneg x : (0 <= x)%Q -> (0 <= round64 x)%Q.
Proof.
  intros H. pose proof (round64_ge x 0) as H0.
  rewrite Qmult_0_l in H0. apply H0, H.
Qed.

Lemma round64_nonpos x : (x <= 0)%Q -> (round64 x <= 0)%Q.
Proof.
  intros H. pose proof (round64_le x 0) as H0.
  rewrite Qmult_0_l in H0. apply H0, H.
Qed.

Lemma pow2_scale n e :
  0 <= n -> (inject_Z (2 ^ n) * 2 ^ e == 2 ^ (e + n))%Q.
Proof.
  intros Hn. rewrite (Qpower_plus 2 e n two_ne_0), <- (pow2_inject n Hn).
  apply Qmult_comm.
Qed.

Lemma round64_same_exponent x y :
  ulp_exponent x = ulp_exponent y -> (x <= y)%Q -> (round64 x <= round64 y)%Q.
Proof.
  intros E H. unfold round64. cbv zeta. rewrite E.
  pose proof (pow2_pos (ulp_exponent y)) as Hu.
  apply Qmult_le_compat_r; [|apply Qlt_le_weak, Hu].
  rewrite <- Zle_Qle. apply round_half_even_monotone.
  apply Qmult_le_compat_r; [exact H|].
  apply Qlt_le_weak, Qinv_lt_0_compat, Hu.
Qed.

Lemma round64_monotone_pos x y :
  (0 < x)%Q -> (x <= y)%Q -> (round64 x <= round64 y)%Q.
Proof.
  intros Hx Hxy.
  assert (0 < y)%Q as Hy by (eapply Qlt_le_trans; eassumption).
  assert (Qabs x == x)%Q as Ax by (apply Qabs_pos, Qlt_le_weak, Hx).
  assert (Qabs y == y)%Q as Ay by (apply Qabs_pos, Qlt_le_weak, Hy).
  assert (0 < Qabs x)%Q as Hax by (rewrite Ax; exact Hx).
  assert (0 < Qabs y)%Q as Hay by (rewrite Ay; exact Hy).
  assert (ulp_exponent x <= ulp_exponent y) as He
    by (apply ulp_exponent_monotone; [exact Hax|rewrite Ax, Ay; exact Hxy]).
  destruct (Z.eq_dec (ulp_exponent x) (ulp_exponent y)) as [E|Hne];
    [apply round64_same_exponent; assumption|].
  pose proof (ulp_exponent_min x) as Hmin.
  pose proof (ulp_upper x Hax) as Hup. rewrite Ax in Hup.
  pose proof (ulp_lower y Hay ltac:(lia)) as Hlo. rewrite Ay in Hlo.
  apply Qle_trans with (inject_Z (2 ^ 53) * 2 ^ ulp_exponent x)%Q.
  { apply round64_le. rewrite pow2_scale by lia. apply Qlt_le_weak, Hup. }
  apply Qle_trans with (inject_Z (2 ^ 52) * 2 ^ ulp_exponent y)%Q.
  { rewrite !pow2_scale by lia. apply pow2_le. lia. }
  apply round64_ge. rewrite pow2_scale by lia. exact Hlo.
Qed.

Lemma round64_monotone_neg x y :
  (y < 0)%Q -> (x <= y)%Q -> (round64 x <= round64 y)%Q.
Proof.
  intros Hy Hxy.
  assert (x < 0)%Q as Hx by (eapply Qle_lt_trans; eassumption).
  assert (Qabs x == - x)%Q as Ax by (apply Qabs_neg, Qlt_le_weak, Hx).
  assert (Qabs y == - y)%Q as Ay by (apply Qabs_neg, Qlt_le_weak, Hy).
  assert (0 < Qabs x)%Q as Hax
    by (rewrite Ax; apply (Qplus_lt_l _ _ x); ring_simplify; exact Hx).
  assert (0 < Qabs y)%Q as Hay
    by (rewrite Ay; apply (Qplus_lt_l _ _ y); ring_simplify; exact Hy).
  assert (ulp_exponent y <= ulp_exponent x) as He.
  { apply ulp_exponent_monotone; [exact Hay|]. rewrite Ax, Ay.
    apply Qopp_le_compat, Hxy. }
  destruct (Z.eq_dec (ulp_exponent x) (ulp_exponent y)) as [E|Hne];
    [apply round64_same_exponent; assumption|].
  pose proof (ulp_exponent_min y) as Hmin.
  pose proof (ulp_upper y Hay) as Hup. rewrite Ay in Hup.
  pose proof (ulp_lower x Hax ltac:(lia)) as Hlo. rewrite Ax in Hlo.
  apply Qle_trans with (inject_Z (- 2 ^ 52) * 2 ^ ulp_exponent x)%Q.
  { apply round64_le. rewrite inject_Z_opp.
    setoid_replace (- inject_Z (2 ^ 52) * 2 ^ ulp_exponent x)%Q
      with (- (inject_Z (2 ^ 52) * 2 ^ ulp_exponent x))%Q
      using relation Qeq by ring.
    rewrite pow2_scale by lia.
    apply (Qplus_le_l _ _ (2 ^ (ulp_exponent x + 52) - x)). ring_simplify.
    exact Hlo. }
  apply Qle_trans with (inject_Z (- 2 ^ 53) * 2 ^ ulp_exponent y)%Q.
  { rewrite !inject_Z_opp.
    setoid_replace (- inject_Z (2 ^ 52) * 2 ^ ulp_exponent x)%Q
      with (- (inject_Z (2 ^ 52) * 2 ^ ulp_exponent x))%Q
      using relation Qeq by ring.
    setoid_replace (- inject_Z (2 ^ 53) * 2 ^ ulp_exponent y)%Q
      with (- (inject_Z (2 ^ 53) * 2 ^ ulp_exponent y))%Q
      using relation Qeq by ring.
    rewrite !pow2_scale by lia. apply Qopp_le_compat, pow2_le. lia. }
  apply round64_ge. rewrite inject_Z_opp.
  setoid_replace (- inject_Z (2 ^ 53) * 2 ^ ulp_exponent y)%Q
    with (- (inject_Z (2 ^ 53) * 2 ^ ulp_exponent y))%Q
      using relation Qeq by ring.
  rewrite pow2_scale by lia.
  apply (Qplus_le_l _ _ (2 ^ (ulp_exponent y + 53) - y)). ring_simplify.
  apply Qlt_le_weak, Hup.
Qed.

Lemma round64_monotone x y : (x <= y)%Q -> (round64 x <= round64 y)%Q.
Proof.
  intros H.
  destruct (Qlt_le_dec 0 x) as [Hx|Hx]; [apply round64_monotone_pos; assumption|].
  destruct (Qlt_le_dec y 0) as [Hy|Hy]; [apply round64_monotone_neg; assumption|].
  apply Qle_trans with 0%Q; [apply round64_nonpos, Hx|apply round64_nonneg, Hy].
Qed.

Lemma word_index_monotone (t1 t2 timePerWord : Q) :
  (0 < timePerWord)%Q -> (t1 <= t2)%Q ->
  word_index t1 timePerWord <= word_index t2 timePerWord.
Proof.
  intros Hp Ht. unfold word_index. apply Qfloor_resp_le, round64_monotone.
  unfold Qdiv. apply Qmult_le_compat_r.
  - apply round64_monotone, Qplus_le_compat; [exact Ht|apply Qle_refl].
  - apply Qlt_le_weak, Qinv_lt_0_compat, Hp.
Qed.

Lemma word_index_nonneg (t timePerWord : Q) :
  (0 < timePerWord)%Q → (0 <= t)%Q → 0 <= word_index t timePerWord.
Proof.
  intros Hp Ht. unfold word_index. cbv zeta.
  change 0 with (Qfloor 0). apply Qfloor_resp_le, round64_nonneg.
  unfold Qdiv. apply Qmult_le_0_compat.
  - apply round64_nonneg.
    replace 0%Q with (0 + 0)%Q by reflexivity.
    apply Qplus_le_compat; [exact Ht|]. apply round64_nonneg. discriminate.
  - apply Qlt_le_weak, Qinv_lt_0_compat, Hp.
Qed.

(** ** The index computed at a notification *)

Lemma timePerWord_of_Some (D : Q) wordSpans timePerWord :
  timePerWord_of (Some D) wordSpans = Some timePerWord →
  timePerWord = round64 (D / inject_Z (Z.of_nat (length wordSpans)))
  ∧ ¬ (D == 0)%Q ∧ (0 < length wordSpans)%nat.
Proof.
  unfold timePerWord_of.
  destruct (Qeq_bool D 0) eqn:HD; [discriminate|].
  destruct (Nat.eqb_spec (length wordSpans) 0) as [|Hn]; [discriminate|].
  cbn [orb]. intros H. injection H as <-. split; [reflexivity|]. split; [|lia].
  intros HD'. apply Qeq_bool_iff in HD'. congruence.
Qed.

(** C1 (as the script has it). In a session with [N > 0] words whose handler
    was installed for the duration [D], with a time per word that has not
    underflowed to zero, a notification at [t >= 0] computes
    [k = floor((t + 0.15) / (D / N))] in double precision, the sum and the
    two quotients each rounded to a double; [k] is not negative and is
    recorded; when [k < N] word [k] is the highlighted one, and when
    [k >= N] no word is highlighted: the index is checked against the range
    of the words, not clamped to it. *)
Theorem highlight_after_notification
    (s : State) (h : TimeHandler) (last : Z) (D t : Q) :
  in_session s h last →
  timePerWord_of (Some D) (th_wordSpans h) = Some (th_timePerWord h) →
  (0 < th_timePerWord h)%Q → (0 <= t)%Q →
  let N := Z.of_nat (length (th_wordSpans h)) in
  let timePerWord := round64 (D / inject_Z N) in
  let k := Qfloor (round64 (round64 (t + SYNC_OFFSET) / timePerWord)) in
  let s' := fire_timeupdate t s in
  0 < N
  ∧ 0 <= k
  ∧ cells s' !! th_call h = Some k
  ∧ (k < N → ∃ span, at_index (th_wordSpans h) k = Some span
                     ∧ highlighted_words s' = {[span]})
  ∧ (N <= k → highlighted_words s' = ∅)
  ∧ in_session s' h k.
Proof.
  intros Hs Htpw Hp Ht N timePerWord k s'.
  pose proof (timePerWord_of_Some D _ _ Htpw) as (E & _ & Hn).
  assert (k = word_index t (th_timePerWord h)) as Hk
    by (subst k timePerWord N; rewrite E; unfold word_index; reflexivity).
  pose proof (fire_timeupdate_in_session t s h last Hs) as Hs'.
  fold s' in Hs'. rewrite <- Hk in Hs'.
  pose proof (word_index_nonneg t _ Hp Ht) as H0. rewrite <- Hk in H0.
  destruct Hs' as [Hh' Hc' Hw' Hl'].
  split; [subst N; lia|]. split; [exact H0|]. split; [exact Hc'|].
  split; [|split; [|split; assumption]].
  - intros Hlt. destruct (at_index_in_range (th_wordSpans h) k) as [span Hspan];
      [fold N; lia|].
    exists span. split; [exact Hspan|]. rewrite Hl'. unfold marker.
    rewrite Hspan. reflexivity.
  - intros Hge. rewrite Hl'. unfold marker.
    destruct (at_index (th_wordSpans h) k) as [span|] eqn:Hspan; [|reflexivity].
    assert (is_Some (at_index (th_wordSpans h) k)) as Hsome by eauto.
    apply at_index_range in Hsome. fold N in Hsome. lia.
Qed.

(** C8. Within one session, with a positive time per word: for notification
    times [t1 <= t2] (whatever other notifications happen before and between
    them) the index recorded at [t1] is at most the index recorded at [t2],
    and after every notification at most one element carries the
    highlight. *)
Theorem highlight_monotone
    (s : State) (h : TimeHandler) (last : Z) (before between : list Q) (t1 t2 : Q) :
  in_session s h last →
  (0 < th_timePerWord h)%Q →
  (t1 <= t2)%Q →
  let sa := fire_timeupdate t1 (notify s before) in
  let sb := fire_timeupdate t2 (notify sa between) in
  cells sa !! th_call h = Some (word_index t1 (th_timePerWord h))
  ∧ cells sb !! th_call h = Some (word_index t2 (th_timePerWord h))
  ∧ word_index t1 (th_timePerWord h) <= word_index t2 (th_timePerWord h)
  ∧ (∀ times, size (highlighted_words (notify s times)) ≤ 1)%nat.
Proof.
  intros Hs Hp Ht sa sb.
  destruct (notify_in_session before s h last Hs) as [l1 H1].
  pose proof (fire_timeupdate_in_session t1 _ h l1 H1) as Ha. fold sa in Ha.
  destruct (notify_in_session between sa h _ Ha) as [l2 H2].
  pose proof (fire_timeupdate_in_session t2 _ h l2 H2) as Hb. fold sb in Hb.
  split; [apply Ha|]. split; [apply Hb|].
  split; [apply word_index_monotone; assumption|].
  intros times. destruct (notify_in_session times s h last Hs) as [l3 [_ _ _ H3]].
  rewrite H3. apply marker_size.
Qed.

(** ** Starting a session *)

Lemma uids_of_node u t i cs : uids_of (Node u t i cs) = {[u]} ∪ uids_in cs.
Proof. reflexivity. Qed.

Lemma Elem_nested_ind (P : Elem → Prop) :
  (∀ u t i cs, Forall P cs → P (Node u t i cs)) → ∀ e, P e.
Proof.
  intros H. fix IH 1. intros [u t i cs]. apply H.
  induction cs as [|c cs IHcs]; [constructor|].
  constructor; [apply IH|exact IHcs].
Qed.

Lemma querySelector_div_cons u t i c cs :
  querySelector_div (Node u t i (c :: cs)) =
  if String.eqb (tagName c) "DIV" then Some c
  else match querySelector_div c with
       | Some d => Some d
       | None => querySelector_div (Node u t i cs)
       end.
Proof. reflexivity. Qed.

Lemma querySelector_div_inside e d :
  querySelector_div e = Some d → uids_of d ⊆ uids_of e.
Proof.
  revert d. induction e as [u t i cs IH] using Elem_nested_ind. intros d.
  rewrite uids_of_node.
  induction IH as [|c cs Hc Hcs IHcs]; [discriminate|].
  rewrite querySelector_div_cons. cbn [uids_in foldr].
  destruct (String.eqb (tagName c) "DIV").
  - intros [= <-]. set_solver.
  - destruct (querySelector_div c) as [d'|] eqn:E.
    + intros [= <-]. specialize (Hc d' eq_refl). set_solver.
    + intros H. specialize (IHcs H). set_solver.
Qed.

Lemma span_children_inside e :
  list_to_set (uid <$> List.filter (λ el, String.eqb (tagName el) "SPAN") (children e))
  ⊆ uids_of e.
Proof.
  destruct e as [u t i cs]. rewrite uids_of_node. cbn [children].
  induction cs as [|c cs IH]; [set_solver|]. cbn.
  assert (uid c ∈ uids_of c) as Hc
    by (destruct c as [u' t' i' cs']; rewrite uids_of_node; set_solver).
  destruct (String.eqb (tagName c) "SPAN"); cbn; set_solver.
Qed.

Lemma wordSpans_inside e : list_to_set (wordSpans_of e) ⊆ uids_of e.
Proof.
  unfold wordSpans_of. destruct (String.eqb (elemId e) "name").
  - apply span_children_inside.
  - destruct (querySelector_div e) as [d|] eqn:E; [|set_solver].
    pose proof (querySelector_div_inside e d E).
    pose proof (span_children_inside d). set_solver.
Qed.

(** The words of an item of the page are attached. *)
Lemma wordSpans_attached (s : State) (item : Elem) :
  item = nameElement (dom s) ∨ In item (exampleItems (dom s)) →
  list_to_set (wordSpans_of item) ⊆ attached (dom s).
Proof.
  intros H. pose proof (wordSpans_inside item) as Hin. unfold attached.
  destruct H as [->|H]; [set_solver|].
  assert (uids_of item ⊆ uids_in (exampleItems (dom s))) as Hsub; [|set_solver].
  clear Hin. induction (exampleItems (dom s)) as [|c cs IH]; [destruct H|].
  cbn. destruct H as [->|H]; [set_solver|]. specialize (IH H). set_solver.
Qed.

Lemma card_at_frame s s' i :
  controls s' = controls s → heap s' = heap s → card_at s' i = card_at s i.
Proof.
  unfold controls, card_at. intros H Hh. injection H as _ Hf _ _ _ _ _ _ _.
  rewrite Hf, Hh. reflexivity.
Qed.

Lemma controls_currentIndex s s' :
  controls s' = controls s → currentIndex s' = currentIndex s.
Proof. unfold controls. congruence. Qed.

Lemma play_begin_audio item s :
  let b := play_begin item s in
  ontimeupdate (audioPlayer b) = None
  ∧ onloadedmetadata (audioPlayer b) = onloadedmetadata (audioPlayer s)
  ∧ onended (audioPlayer b) = onended (audioPlayer s)
  ∧ paused (audioPlayer b) = (isAudioPlaying s || paused (audioPlayer s))
  ∧ isAudioPlaying b = false
  ∧ calls b = S (calls s)
  ∧ cells b = cells s.
Proof.
  cbv zeta. unfold play_begin.
  destruct (isAudioPlaying s), item as [e|];
    try destruct (String.eqb (tagName e) "LI"); repeat split.
Qed.

Lemma play_begin_page item s :
  let b := play_begin item s in
  attached (dom b) = attached (dom s)
  ∧ highlighted_word (dom b) = highlighted_word (dom s) ∖ attached (dom s)
  ∧ locked b = true.
Proof.
  cbv zeta. unfold play_begin.
  destruct (isAudioPlaying s), item as [e|];
    try destruct (String.eqb (tagName e) "LI"); repeat split.
Qed.

(** The page once a play request has been answered with a playable
    resource: the metadata handler of this call is installed, no time
    handler is, and no attached element is highlighted. *)
Lemma play_installed s card data playback text item :
  card_at s (currentIndex s) = Some card →
  success data = true → truthy (audio_url data) = true →
  let s1 := playAudioFromApi (SpeechOk (JsonOk data) playback) text (Some item) s in
  onloadedmetadata (audioPlayer s1) =
    Some (mkMetaHandler (calls s) (wordSpans_of item))
  ∧ ontimeupdate (audioPlayer s1) = None
  ∧ cells s1 !! calls s = Some (-1)
  ∧ attached (dom s1) = attached (dom s)
  ∧ highlighted_words s1 = ∅.
Proof.
  intros Hcard Hok Hurl. cbv zeta. unfold playAudioFromApi, play_end.
  pose proof (play_begin_audio (Some item) s) as (Ht & _).
  pose proof (play_begin_page (Some item) s) as (Ha & Hh & _).
  assert (card_at (play_begin (Some item) s)
            (currentIndex (play_begin (Some item) s)) = Some card) as Hb.
  { pose proof (play_begin_controls (Some item) s) as Hc.
    rewrite (card_at_frame s _ _ Hc (play_begin_heap _ s)).
    rewrite (controls_currentIndex s _ Hc). exact Hcard. }
  cbv zeta in Ht, Ha, Hh. revert Ht Ha Hh Hb.
  generalize (play_begin (Some item) s). intros b Ht Ha Hh Hb.
  unfold play_try, play_send, play_answer. rewrite Hb, Hok, Hurl. cbn [andb].
  assert (highlighted_word (dom b) ∩ attached (dom b) = ∅) as He
    by (rewrite Hh, Ha; set_solver).
  destruct playback as [m|], (String.eqb (tagName item) "LI");
    (split; [reflexivity|]); (split; [exact Ht|]);
    (split; [apply lookup_insert_eq|]); (split; [exact Ha|]); exact He.
Qed.

Lemma play_starts_session s card data text item audioDuration timePerWord :
  card_at s (currentIndex s) = Some card →
  success data = true → truthy (audio_url data) = true →
  item = nameElement (dom s) ∨ In item (exampleItems (dom s)) →
  timePerWord_of audioDuration (wordSpans_of item) = Some timePerWord →
  let s1 := playAudioFromApi (SpeechOk (JsonOk data) None) text (Some item) s in
  in_session (fire_loadedmetadata audioDuration s1)
    (mkTimeHandler (calls s) (wordSpans_of item) timePerWord) (-1).
Proof.
  intros Hcard Hok Hurl Hitem Htpw. cbv zeta.
  destruct (play_installed s card data None text item Hcard Hok Hurl)
    as (Hm & Ht & Hc & Ha & Hh).
  cbv zeta in Hm, Ht, Hc, Ha, Hh. revert Hm Ht Hc Ha Hh.
  generalize (playAudioFromApi (SpeechOk (JsonOk data) None) text (Some item) s).
  intros s1 Hm Ht Hc Ha Hh.
  unfold fire_loadedmetadata. rewrite Hm. cbn [mh_wordSpans mh_call].
  rewrite Htpw. split; cbn [th_call th_wordSpans].
  - reflexivity.
  - exact Hc.
  - change (attached (dom (upd_audio _ s1))) with (attached (dom s1)).
    rewrite Ha. apply wordSpans_attached, Hitem.
  - exact Hh.
Qed.

Lemma notify_without_handler s times :
  ontimeupdate (audioPlayer s) = None → notify s times = s.
Proof.
  intros H. induction times as [|t times IH]; [reflexivity|]. cbn.
  unfold fire_timeupdate at 2; unfold timeupdate_with. rewrite H. exact IH.
Qed.

Lemma play_try_page o call text item b :
  let s := state_of (play_try o call text item b) in
  ontimeupdate (audioPlayer s) = ontimeupdate (audioPlayer b)
  ∧ highlighted_word (dom s) = highlighted_word (dom b)
  ∧ attached (dom s) = attached (dom b).
Proof.
  cbv zeta. unfold play_try, play_send, play_answer.
  destruct (card_at b (currentIndex b)) as [card|]; [|repeat split].
  destruct o as [m|[e|m]|[d|m] [pb|]]; try (repeat split; fail).
  all: destruct (success d), (truthy (audio_url d)), item; repeat split.
Qed.

Lemma playAudioFromApi_page o text item s :
  let s' := playAudioFromApi o text item s in
  ontimeupdate (audioPlayer s') = None
  ∧ highlighted_words s' = ∅.
Proof.
  cbv zeta. unfold playAudioFromApi, play_end.
  pose proof (play_begin_audio item s) as (Ht & _).
  pose proof (play_begin_page item s) as (Ha & Hh & _).
  pose proof (play_try_page o (calls s) text item (play_begin item s))
    as (Ht' & Hh' & Ha').
  cbv zeta in *. rewrite Ht in Ht'. rewrite Hh in Hh'. rewrite Ha in Ha'.
  assert (highlighted_words (state_of (play_try o (calls s) text item
                                         (play_begin item s))) = ∅) as He
    by (unfold highlighted_words; rewrite Hh', Ha'; set_solver).
  revert Ht' He.
  destruct (play_try o (calls s) text item (play_begin item s)) as [s'|m s'];
    cbn [state_of]; intros Ht' He;
    destruct item as [e|]; try destruct (String.eqb (tagName e) "LI");
    split; assumption.
Qed.

(** ** The handlers after a play request *)

Lemma play_answer_handlers o call item b :
  let s := state_of (play_answer o call item b) in
  onloadedmetadata (audioPlayer s)
  = match item with
    | Some e =>
        if has_audio o then Some (mkMetaHandler call (wordSpans_of e))
        else onloadedmetadata (audioPlayer b)
    | None => onloadedmetadata (audioPlayer b)
    end
  ∧ onended (audioPlayer s)
    = if starts_playback o then Some (mkEndedHandler call (uid <$> item))
      else onended (audioPlayer b).
Proof.
  cbv zeta. unfold play_answer, has_audio, starts_playback.
  destruct o as [m|[e|m]|[d|m] [pb|]]; try (destruct item; split; reflexivity).
  all: destruct (success d), (truthy (audio_url d)), item; split; reflexivity.
Qed.

Lemma play_end_audio item c :
  audioPlayer (play_end item c) = audioPlayer (state_of c).
Proof.
  unfold play_end.
  destruct c as [s1|m s1], item as [e|];
    try destruct (String.eqb (tagName e) "LI"); reflexivity.
Qed.

Lemma playAudioFromApi_handlers o text item s :
  let s' := playAudioFromApi o text item s in
  onloadedmetadata (audioPlayer s') = metadata_after o item s
  ∧ onended (audioPlayer s') = ended_after o item s.
Proof.
  cbv zeta. unfold playAudioFromApi. rewrite play_end_audio.
  pose proof (play_begin_audio item s) as (_ & Hm & He & _ & _ & _ & _).
  cbv zeta in Hm, He.
  assert (card_at (play_begin item s) (currentIndex (play_begin item s))
          = card_at s (currentIndex s)) as Hb.
  { pose proof (play_begin_controls item s) as Hc.
    rewrite (card_at_frame s _ _ Hc (play_begin_heap _ s)).
    rewrite (controls_currentIndex s _ Hc). reflexivity. }
  unfold metadata_after, ended_after, play_try, play_send. rewrite Hb.
  destruct (card_at s (currentIndex s)) as [card|]; cbv iota.
  - match goal with |- context [play_answer o (calls s) item ?b] =>
      pose proof (play_answer_handlers o (calls s) item b) as [H1 H2];
      cbv zeta in H1, H2; rewrite H1, H2;
      change (onloadedmetadata (audioPlayer b))
        with (onloadedmetadata (audioPlayer (play_begin item s)));
      change (onended (audioPlayer b))
        with (onended (audioPlayer (play_begin item s)))
    end.
    rewrite Hm, He. destruct item; split; reflexivity.
  - cbn [state_of]. rewrite Hm, He. split; reflexivity.
Qed.

Lemma timePerWord_of_guard audioDuration wordSpans :
  wordSpans = [] ∨ audioDuration = None
  ∨ (∃ d, audioDuration = Some d ∧ (d == 0)%Q) →
  timePerWord_of audioDuration wordSpans = None.
Proof.
  unfold timePerWord_of. intros [->|[->|(d & -> & Hd)]].
  - destruct audioDuration; [|reflexivity]. cbn. rewrite orb_true_r. reflexivity.
  - reflexivity.
  - apply Qeq_bool_iff in Hd. rewrite Hd. reflexivity.
Qed.

(** C9 (as the script has it). After a play request, whatever its element
    and its answer, no time handler is installed, and the metadata handler in
    the slot is the one of this call only when the call has an element and
    audio was returned; otherwise it is the one an earlier call left there.
    When the words of the handler in the slot are none, or the duration is
    not available, or it is zero: the time per word is not computed (the
    division is not evaluated), the metadata handler leaves the page as it
    is, no time handler is installed, and later progress notifications
    change nothing.  When the handler in the slot has words and the duration
    is available and not zero, it installs a time handler for those words:
    so does, for a call without element, the handler of an earlier call. *)
Theorem no_schedule_without_words
    (s : State) (o : SpeechOutcome) (text : string) (item : option Elem)
    (audioDuration : option Q) :
  let s1 := playAudioFromApi o text item s in
  let s2 := fire_loadedmetadata audioDuration s1 in
  ontimeupdate (audioPlayer s1) = None
  ∧ (∀ e, item = Some e → has_audio o = true →
       is_Some (card_at s (currentIndex s)) →
       onloadedmetadata (audioPlayer s1)
       = Some (mkMetaHandler (calls s) (wordSpans_of e))
       ∧ metadata_words s1 = wordSpans_of e)
  ∧ (item = None ∨ has_audio o = false →
       onloadedmetadata (audioPlayer s1) = onloadedmetadata (audioPlayer s)
       ∧ metadata_words s1 = metadata_words s)
  ∧ (metadata_words s1 = [] ∨ audioDuration = None
     ∨ (∃ d, audioDuration = Some d ∧ (d == 0)%Q) →
       timePerWord_of audioDuration (metadata_words s1) = None
       ∧ s2 = s1
       ∧ ontimeupdate (audioPlayer s2) = None
       ∧ (∀ times, notify s2 times = s2))
  ∧ (∀ d, metadata_words s1 ≠ [] → audioDuration = Some d → ¬ (d == 0)%Q →
       ∃ h, onloadedmetadata (audioPlayer s1) = Some h
            ∧ ontimeupdate (audioPlayer s2)
              = Some (mkTimeHandler (mh_call h) (mh_wordSpans h)
                        (round64
                           (d / inject_Z (Z.of_nat (length (mh_wordSpans h))))))).
Proof.
  intros s1 s2.
  pose proof (playAudioFromApi_page o text item s) as (Ht & _). fold s1 in Ht.
  pose proof (playAudioFromApi_handlers o text item s) as (Hm & _).
  fold s1 in Hm.
  split; [exact Ht|]. split; [|split; [|split]].
  - intros e -> Ho [card Hcard]. unfold metadata_words. rewrite Hm.
    unfold metadata_after. rewrite Hcard, Ho. split; reflexivity.
  - intros Hno. unfold metadata_words. rewrite Hm. unfold metadata_after.
    destruct (card_at s (currentIndex s)) as [card|]; [|split; reflexivity].
    destruct item as [e|]; [|split; reflexivity].
    destruct Hno as [Hno| ->]; [discriminate|]. split; reflexivity.
  - intros Hguard.
    pose proof (timePerWord_of_guard _ _ Hguard) as Hnone.
    assert (s2 = s1) as E.
    { subst s2. unfold fire_loadedmetadata. unfold metadata_words in Hnone.
      destruct (onloadedmetadata (audioPlayer s1)) as [h|]; [|reflexivity].
      rewrite Hnone. reflexivity. }
    split; [exact Hnone|]. split; [exact E|]. rewrite E. split; [exact Ht|].
    intros times. apply notify_without_handler, Ht.
  - intros d Hwords -> Hd. subst s2. unfold fire_loadedmetadata.
    unfold metadata_words in Hwords.
    destruct (onloadedmetadata (audioPlayer s1)) as [h|]; [|congruence].
    exists h. split; [reflexivity|]. unfold timePerWord_of.
    assert (Qeq_bool d 0 = false) as ->
      by (apply not_true_is_false; intros H; apply Hd, Qeq_bool_eq, H).
    assert ((length (mh_wordSpans h) =? 0)%nat = false) as ->
      by (destruct (mh_wordSpans h); [congruence|reflexivity]).
    reflexivity.
Qed.

(** ** Superseding a session *)

(** C7 (as the script has it). A play request, whatever the previous
    session is doing: when its synchronous part is over, before anything of
    the new session is attached, the audio element is paused if the previous
    session was playing, the playing flag is down, the time-progress handler
    is detached and no attached element is highlighted; the metadata and
    ended handlers of the previous session are still in their slots.  When
    the request has been answered and handled, no time-progress handler is
    installed and no attached element is highlighted, and progress
    notifications do not change that; the metadata slot holds the handler of
    the new call if the call has an element and audio was returned, and the
    ended slot that of the new call if playback has started; otherwise each
    still holds the handler of the previous session. *)
Theorem play_supersedes
    (o : SpeechOutcome) (text : string) (item : option Elem) (s : State) :
  let b := play_begin item s in
  let s' := playAudioFromApi o text item s in
  (paused (audioPlayer b) = (isAudioPlaying s || paused (audioPlayer s))
   ∧ (isAudioPlaying s = true → paused (audioPlayer b) = true)
   ∧ isAudioPlaying b = false
   ∧ ontimeupdate (audioPlayer b) = None
   ∧ highlighted_words b = ∅
   ∧ onloadedmetadata (audioPlayer b) = onloadedmetadata (audioPlayer s)
   ∧ onended (audioPlayer b) = onended (audioPlayer s))
  ∧ ontimeupdate (audioPlayer s') = None
  ∧ (∀ times, highlighted_words (notify s' times) = ∅)
  ∧ onloadedmetadata (audioPlayer s') = metadata_after o item s
  ∧ onended (audioPlayer s') = ended_after o item s.
Proof.
  intros b s'.
  pose proof (play_begin_audio item s) as (Ht & Hm & He & Hp & Hi & _).
  pose proof (play_begin_page item s) as (Ha & Hh & _).
  fold b in Ht, Hm, He, Hp, Hi, Ha, Hh.
  pose proof (playAudioFromApi_page o text item s) as (Ht' & Hh').
  pose proof (playAudioFromApi_handlers o text item s) as (Hm' & He').
  fold s' in Ht', Hh', Hm', He'.
  split; [|split; [exact Ht'|split; [|split; assumption]]].
  - split; [exact Hp|]. split; [intros Hplaying; rewrite Hp, Hplaying; reflexivity|].
    split; [exact Hi|]. split; [exact Ht|].
    split; [unfold highlighted_words; rewrite Hh, Ha; set_solver|].
    split; assumption.
  - intros times. rewrite notify_without_handler; assumption.
Qed.

(** * A worked session *)

(** The worked playback is a session in progress, nothing highlighted yet. *)
Lemma example_in_session : in_session example_playing example_handler (-1).
Proof.
  split.
  - vm_compute. reflexivity.
  - vm_compute. reflexivity.
  - apply (bool_decide_unpack _). vm_compute. exact I.
  - vm_compute. reflexivity.
Defined.

(** The scenario of the specification: three cards, the cursor on the
    second; it is marked as learned; the cursor stays at 1, now on the third
    card; the next card wraps around to the first. *)
Example scenario_mark_second :
  let s := markAsLearned (Responded true) example_world example_second in
  filteredFlashcardsData s = [0%nat; 2%nat]
  ∧ currentIndex s = 1
  ∧ (name <$> card_at s (currentIndex s)) = Some "look after"
  ∧ currentIndex (nextCard example_world s) = 0.
Proof. vm_compute. repeat split. Qed.

(** The last card is marked as learned: the collection is completed and the
    navigation does nothing. *)
Example scenario_completed :
  let done := MarkAsLearned (Responded true) example_world in
  let s := foldl step example_page [done; done; done] in
  filteredFlashcardsData s = []
  ∧ completed (dom s) = true
  ∧ nextCard example_world s = s
  ∧ prevCard example_world s = s.
Proof. vm_compute. repeat split. Qed.

(** ** The properties at the worked session *)

(** C4 on the second of three cards. *)
Lemma markAsLearned_shrinks_witness :
  let s := example_second in
  let w := example_world in
  let k := Z.of_nat (length (filteredFlashcardsData s)) in
  let s' := markAsLearned (Responded true) w s in
  well_formed s ∧ 1 <= k ∧
  ∃ (l : nat) (card : Card),
    at_index (filteredFlashcardsData s) (currentIndex s) = Some l
    ∧ heap s !! l = Some card
    ∧ learned card = false
    ∧ (learned <$> heap s' !! l) = Some true
    ∧ Z.of_nat (length (filteredFlashcardsData s')) = k - 1
    ∧ ¬ In l (filteredFlashcardsData s')
    ∧ ¬ In (id card) (id <$> cards_of s' (filteredFlashcardsData s'))
    ∧ (k - 1 > 0 →
         s' = loadCard w (Z.min (currentIndex s) (k - 2)) true
                (marked l (requested card s))
         ∧ currentIndex s' = Z.min (currentIndex s) (k - 2))
    ∧ (k - 1 = 0 →
         s' = displayCompletionMessage (marked l (requested card s))
         ∧ completed (dom s') = true).
Proof.
  cbv zeta.
  assert (well_formed example_second) as Hwf by apply session_well_formed.
  assert (1 <= Z.of_nat (length (filteredFlashcardsData example_second))) as Hk
    by (vm_compute; discriminate).
  split; [exact Hwf|]. split; [exact Hk|].
  exact (markAsLearned_shrinks example_world example_second Hwf Hk).
Defined.

(** C5 on the second of three cards, the server answering with an error
    status. *)
Lemma markAsLearned_failure_restores_witness :
  let s := example_second in
  let s' := markAsLearned (Responded false) example_world s in
  Responded false ≠ Responded true
  ∧ heap s' = heap s
  ∧ masterFlashcardsData s' = masterFlashcardsData s
  ∧ filteredFlashcardsData s' = filteredFlashcardsData s
  ∧ currentIndex s' = currentIndex s
  ∧ (requests s' ≠ requests s →
       (∃ card, card_at s (currentIndex s) = Some card
                ∧ requests s' = (requests s ++ [PostUpdateStatus (id card) true])%list)
       ∧ (∃ text, shown s' = Some (text, true))
       ∧ locked s' = false)
  ∧ (filteredFlashcardsData s ≠ [] →
     is_Some (card_at s (currentIndex s)) →
     requests s' ≠ requests s).
Proof.
  cbv zeta.
  assert (Responded false ≠ Responded true) as H1 by discriminate.
  split; [exact H1|].
  exact (markAsLearned_failure_restores (Responded false) example_world
           example_second H1).
Defined.

(** C10 on the page before any card is loaded. *)
Lemma markAsLearned_empty_witness :
  let s := initial "H1" in
  filteredFlashcardsData s = []
  ∧ markAsLearned (Responded true) example_world s = s.
Proof.
  cbv zeta. split; [reflexivity|].
  exact (markAsLearned_empty (Responded true) example_world (initial "H1") eq_refl).
Defined.

(** C6 on the first card. *)
Lemma confirmation_guard_witness :
  let s := example_page in
  let card := set_id 0 card_A in
  let s1 := deleteImage (Responded true) example_world s in
  guard s = Idle ∧ timers s = [] ∧ card_at s (currentIndex s) = Some card
  ∧ (guard s1 = AwaitingConfirm
     ∧ timers s1 = [(nextTimer s, clock s + 5000)]
     ∧ requests s1 = requests s
     ∧ collection s1 = collection s)
  ∧ (∀ d, 0 <= d < 5000 →
       let s2 := deleteImage (Responded true) example_world (elapse d s1) in
       guard s2 = Idle ∧ timers s2 = [] ∧ deletions s2 = S (deletions s))
  ∧ (∀ d, 5000 <= d →
       let s3 := elapse d s1 in
       let s4 := deleteImage (Responded true) example_world s3 in
       guard s3 = Idle ∧ timers s3 = [] ∧ requests s3 = requests s
       ∧ collection s3 = collection s
       ∧ guard s4 = AwaitingConfirm ∧ requests s4 = requests s)
  ∧ (∀ d w index autoPlay,
       let s5 := loadCard w index autoPlay (elapse d s1) in
       guard s5 = Idle ∧ timers s5 = []).
Proof.
  cbv zeta.
  assert (guard example_page = Idle) as H1 by (vm_compute; reflexivity).
  assert (timers example_page = []) as H2 by (vm_compute; reflexivity).
  assert (card_at example_page (currentIndex example_page) = Some (set_id 0 card_A))
    as H3 by (vm_compute; reflexivity).
  split; [exact H1|]. split; [exact H2|]. split; [exact H3|].
  exact (confirmation_guard example_page _ (Responded true) (Responded true)
           example_world example_world H1 H2 H3).
Defined.

(** C1 fails as stated.  Two words, two seconds, a notification at 1.875 s:
    floor((1.875 + 0.15) / 1) = 2 is not below the number of words; clamped
    it would be word 1, but the handler highlights nothing. *)
Lemma highlight_not_clamped :
  let s := example_playing in
  let h := example_handler in
  let D := (2 # 1)%Q in
  let t := (15 # 8)%Q in
  in_session s h (-1)
  ∧ timePerWord_of (Some D) (th_wordSpans h) = Some (th_timePerWord h)
  ∧ (0 <= t)%Q
  ∧ spec_highlightIndex 2 D t = 1
  ∧ marker (th_wordSpans h) (spec_highlightIndex 2 D t) = {[2%nat]}
  ∧ highlighted_words (fire_timeupdate t s) = ∅
  ∧ highlighted_words (fire_timeupdate t s)
    ≠ marker (th_wordSpans h) (spec_highlightIndex 2 D t).
Proof.
  cbv zeta. split; [exact example_in_session|].
  split; [vm_compute; reflexivity|]. split; [vm_compute; discriminate|].
  split; [vm_compute; reflexivity|]. split; [vm_compute; reflexivity|].
  split; [vm_compute; reflexivity|].
  intros H. apply (f_equal size) in H. vm_compute in H. discriminate.
Qed.

(** The sentence of the third card is a session in progress, nothing
    highlighted yet. *)
Lemma example_sentence_in_session :
  in_session example_sentence example_sentence_handler (-1).
Proof.
  split.
  - vm_compute. reflexivity.
  - vm_compute. reflexivity.
  - apply (bool_decide_unpack _). vm_compute. exact I.
  - vm_compute. reflexivity.
Defined.

(** The quotient is rounded before it is floored: five words, four seconds,
    a notification at 2.25 s.  The exact quotient 2.4 / 0.8 is 3; the doubles
    give 2.4000000000000004 / 0.8000000000000000444, which is below 3 and is
    rounded to the double just below 3. *)
Example index_below_exact_quotient :
  word_index (9 # 4) (round64 ((4 # 1) / inject_Z 5)) = 2
  ∧ Qfloor (((9 # 4) + (15 # 100)) / ((4 # 1) / inject_Z 5)) = 3.
Proof. vm_compute. split; reflexivity. Qed.

(** C1, as the script has it, 2.25 s into the sentence of the third card:
    the index is 2 and the third word is highlighted. *)
Lemma highlight_after_notification_witness :
  let s := example_sentence in
  let h := example_sentence_handler in
  let D := (4 # 1)%Q in
  let t := (9 # 4)%Q in
  let N := Z.of_nat (length (th_wordSpans h)) in
  let timePerWord := round64 (D / inject_Z N) in
  let k := Qfloor (round64 (round64 (t + SYNC_OFFSET) / timePerWord)) in
  let s' := fire_timeupdate t s in
  in_session s h (-1)
  ∧ timePerWord_of (Some D) (th_wordSpans h) = Some (th_timePerWord h)
  ∧ (0 < th_timePerWord h)%Q ∧ (0 <= t)%Q
  ∧ k = 2
  ∧ (0 < N
     ∧ 0 <= k
     ∧ cells s' !! th_call h = Some k
     ∧ (k < N → ∃ span, at_index (th_wordSpans h) k = Some span
                        ∧ highlighted_words s' = {[span]})
     ∧ (N <= k → highlighted_words s' = ∅)
     ∧ in_session s' h k).
Proof.
  cbv zeta.
  assert (timePerWord_of (Some (4 # 1)%Q) (th_wordSpans example_sentence_handler)
          = Some (th_timePerWord example_sentence_handler)) as H2
    by (vm_compute; reflexivity).
  assert (0 < th_timePerWord example_sentence_handler)%Q as H3
    by (vm_compute; reflexivity).
  assert (0 <= 9 # 4)%Q as H4 by (vm_compute; discriminate).
  split; [exact example_sentence_in_session|]. split; [exact H2|].
  split; [exact H3|]. split; [exact H4|].
  split; [vm_compute; reflexivity|].
  exact (highlight_after_notification example_sentence example_sentence_handler
           (-1) (4 # 1)%Q (9 # 4)%Q example_sentence_in_session H2 H3 H4).
Defined.

(** C8 for notifications at 0.25 s, 0.5 s, 1 s and 1.5 s. *)
Lemma highlight_monotone_witness :
  let s := example_playing in
  let h := example_handler in
  let t1 := (1 # 2)%Q in
  let t2 := (3 # 2)%Q in
  let sa := fire_timeupdate t1 (notify s [(1 # 4)%Q]) in
  let sb := fire_timeupdate t2 (notify sa [(1 # 1)%Q]) in
  in_session s h (-1)
  ∧ (0 < th_timePerWord h)%Q
  ∧ (t1 <= t2)%Q
  ∧ cells sa !! th_call h = Some (word_index t1 (th_timePerWord h))
  ∧ cells sb !! th_call h = Some (word_index t2 (th_timePerWord h))
  ∧ word_index t1 (th_timePerWord h) <= word_index t2 (th_timePerWord h)
  ∧ (∀ times, size (highlighted_words (notify s times)) ≤ 1)%nat.
Proof.
  cbv zeta.
  assert (0 < th_timePerWord example_handler)%Q as H2 by (vm_compute; reflexivity).
  assert ((1 # 2) <= (3 # 2))%Q as H3 by (vm_compute; discriminate).
  split; [exact example_in_session|]. split; [exact H2|]. split; [exact H3|].
  exact (highlight_monotone example_playing example_handler (-1)
           [(1 # 4)%Q] [(1 # 1)%Q] (1 # 2)%Q (3 # 2)%Q example_in_session H2 H3).
Defined.

(** C9 fails as stated.  While the name of the first card is playing, a play
    request without element is made and answered with audio.  Its session
    has no words, but the metadata handler of the previous call is still in
    its slot: when the metadata of the new audio arrive (two seconds) it
    divides the duration by its own two words and installs a time handler,
    and the next notification highlights a word of the name. *)
Lemma stale_handler_schedules :
  let s := example_playing in
  let s1 := playAudioFromApi example_speech "get up" None s in
  let s2 := fire_loadedmetadata (Some (2 # 1)%Q) s1 in
  onloadedmetadata (audioPlayer s1) = Some (mkMetaHandler 0 [1%nat; 2%nat])
  ∧ timePerWord_of (Some (2 # 1)%Q) (metadata_words s1)
    = Some (th_timePerWord example_handler)
  ∧ ontimeupdate (audioPlayer s2) = Some example_handler
  ∧ ontimeupdate (audioPlayer s2) ≠ None
  ∧ highlighted_words (fire_timeupdate (1 # 2)%Q s2) = {[1%nat]}.
Proof.
  cbv zeta. split; [vm_compute; reflexivity|].
  split; [vm_compute; reflexivity|]. split; [vm_compute; reflexivity|].
  split; [vm_compute; discriminate|]. vm_compute. reflexivity.
Qed.

(** C9, as the script has it, for an item without words. *)
Lemma no_schedule_without_words_witness :
  let s := example_page in
  let item := example_bare_item in
  let audioDuration := Some (2 # 1)%Q in
  let s1 := playAudioFromApi example_speech "I get up early" (Some item) s in
  let s2 := fire_loadedmetadata audioDuration s1 in
  metadata_words s1 = []
  ∧ timePerWord_of audioDuration (metadata_words s1) = None
  ∧ s2 = s1
  ∧ ontimeupdate (audioPlayer s2) = None
  ∧ (∀ times, notify s2 times = s2).
Proof.
  cbv zeta.
  destruct (no_schedule_without_words example_page example_speech
              "I get up early" (Some example_bare_item) (Some (2 # 1)%Q))
    as (_ & H1 & _ & H2 & _).
  destruct (H1 example_bare_item eq_refl eq_refl (ex_intro _ _ eq_refl))
    as [_ Hw].
  split; [exact Hw|]. exact (H2 (or_introl Hw)).
Defined.

(** C7 fails as stated.  While the name of the first card is playing, a new
    play request comes: when its synchronous part is over, before the new
    session has attached anything, the metadata and ended handlers of the
    previous session (call 0) are still in their slots. *)
Lemma supersede_keeps_handlers :
  let s := example_playing in
  let b := play_begin (Some (nameElement (dom s))) s in
  isAudioPlaying s = true
  ∧ onloadedmetadata (audioPlayer b) = Some (mkMetaHandler 0 [1%nat; 2%nat])
  ∧ onended (audioPlayer b) = Some (mkEndedHandler 0 (Some 0%nat))
  ∧ ¬ (ontimeupdate (audioPlayer b) = None
       ∧ onloadedmetadata (audioPlayer b) = None
       ∧ onended (audioPlayer b) = None).
Proof.
  cbv zeta. split; [vm_compute; reflexivity|].
  split; [vm_compute; reflexivity|]. split; [vm_compute; reflexivity|].
  intros (_ & H & _). vm_compute in H. discriminate.
Qed.

(** C7, as the script has it, for a second request while the name is
    playing. *)
Lemma play_supersedes_witness :
  let s := example_playing in
  let o := example_speech in
  let item := Some (nameElement (dom s)) in
  let b := play_begin item s in
  let s' := playAudioFromApi o "get up" item s in
  (paused (audioPlayer b) = true
   ∧ isAudioPlaying b = false
   ∧ ontimeupdate (audioPlayer b) = None
   ∧ highlighted_words b = ∅
   ∧ onloadedmetadata (audioPlayer b) = onloadedmetadata (audioPlayer s)
   ∧ onended (audioPlayer b) = onended (audioPlayer s))
  ∧ ontimeupdate (audioPlayer s') = None
  ∧ (∀ times, highlighted_words (notify s' times) = ∅)
  ∧ onloadedmetadata (audioPlayer s') = Some (mkMetaHandler 1 [1%nat; 2%nat])
  ∧ onended (audioPlayer s') = Some (mkEndedHandler 1 (Some 0%nat)).
Proof.
  cbv zeta.
  destruct (play_supersedes example_speech "get up"
              (Some (nameElement (dom example_playing))) example_playing)
    as ((_ & H1 & H2 & H3 & H4 & H5 & H6) & H7 & H8 & H9 & H10).
  split; [|split; [exact H7|split; [exact H8|split]]].
  - split; [exact (H1 eq_refl)|].
    exact (conj H2 (conj H3 (conj H4 (conj H5 H6)))).
  - rewrite H9. vm_compute. reflexivity.
  - rewrite H10. vm_compute. reflexivity.
Defined.

(** ** Image generation: two outcomes that leave the page locked *)

(** C3 at its failing input.  The second card has no image; the generation
    request succeeds and the returned file fails to load: nothing runs, the
    page stays locked, the spinner stays, and no error is shown. *)
Example generated_image_fails_to_load :
  let w := mkWorld ImageLoads
             (GenerateOk (JsonOk (mkImageData (Some "/card_images/new.png")))
                         ImageFails)
             example_speech example_regexp in
  let s := nextCard w example_page in
  locked s = true
  ∧ spinnerShown (dom s) = true
  ∧ shown s = Some ("⏳ Generando imagen de IA...", false)
  ∧ Forall (λ m, snd m = false) (messages (dom s)).
Proof. vm_compute. repeat constructor. Qed.

(** The generation request is rejected: the handler of the chain fails on
    the error object; again the page stays locked and no error is shown. *)
Example generate_request_rejected :
  let w := mkWorld ImageLoads (GenerateRejected "Failed to fetch") example_speech
             example_regexp in
  let s := nextCard w example_page in
  locked s = true
  ∧ shown s = Some ("⏳ Generando imagen de IA...", false)
  ∧ Forall (λ m, snd m = false) (messages (dom s)).
Proof. vm_compute. repeat constructor. Qed.

(** A response that is not ok is reported and the lock is released. *)
Example generate_not_ok_reported :
  let w := mkWorld ImageLoads
             (GenerateNotOk (JsonOk (mkErrorBody (Some "quota"))))
             example_speech example_regexp in
  let s := nextCard w example_page in
  locked s = false ∧ shown s = Some ("❌ Error de IA: quota", true).
Proof. vm_compute. repeat constructor. Qed.

(** * Errors that are reported *)

Lemma play_try_fails o call text item b :
  speech_fails o = true → ∃ m s1, play_try o call text item b = Thrown m s1.
Proof.
  intros H. unfold play_try, play_send, play_answer.
  destruct (card_at b (currentIndex b)) as [card|]; [|eauto].
  destruct o as [m|[e|m]|[d|m] [pb|]]; cbn in H; eauto.
  - destruct (success d && truthy (audio_url d)); eauto.
  - destruct (success d && truthy (audio_url d)); [discriminate|eauto].
Qed.

(** A failed play request shows an error and releases the lock. *)
Lemma playAudioFromApi_failure_reported o text item s :
  speech_fails o = true →
  let s' := playAudioFromApi o text item s in
  locked s' = false ∧ ∃ m, shown s' = Some ("❌ Error de TTS: " ++ m, true).
Proof.
  intros H. cbv zeta. unfold playAudioFromApi, play_end.
  destruct (play_try_fails o (calls s) text item (play_begin item s) H)
    as (m & s1 & ->).
  destruct item as [e|]; [destruct (String.eqb (tagName e) "LI")|];
    (split; [reflexivity|exists m; reflexivity]).
Qed.

(** A failed delete request shows an error and releases the lock. *)
Lemma deleteImage_failure_reported o w s :
  awaitingDeleteConfirmation s = true →
  o ≠ Responded true →
  let s' := deleteImage o w s in
  locked s' = false ∧ ∃ m, shown s' = Some ("❌ Error: " ++ m, true).
Proof.
  intros Ha Ho. cbv zeta. unfold deleteImage. rewrite Ha. cbv zeta.
  destruct (at_index _ _) as [l|]; [|split; [reflexivity|eauto]].
  destruct (card_at _ _) as [card|]; [|split; [reflexivity|eauto]].
  destruct o as [m|[|]]; try congruence; (split; [reflexivity|eauto]).
Qed.

(** * Navigation *)

(** X1. In every state of a session, when the active collection is not
    empty the cursor is inside it, and the card under the cursor exists, is
    not learned, and is the object that the master array holds at the
    position given by its [id]: no operation of the session reads a card
    that is not there. *)
Theorem cursor_on_active_card
    (nameTag : string) (o : DataOutcome) (w : World) (acts : list Action) :
  let s := session nameTag o w acts in
  filteredFlashcardsData s ≠ [] →
  0 <= currentIndex s < Z.of_nat (length (filteredFlashcardsData s))
  ∧ ∃ l card,
      at_index (filteredFlashcardsData s) (currentIndex s) = Some l
      ∧ card_at s (currentIndex s) = Some card
      ∧ learned card = false
      ∧ at_index (masterFlashcardsData s) (id card) = Some l.
Proof.
  intros s Hne. destruct (session_well_formed nameTag o w acts) as (Hi & Hd & Hc).
  fold s in Hi, Hd, Hc. pose proof (Hc Hne) as Hr. split; [exact Hr|].
  destruct (cursor_card s Hi Hd Hr) as (l & card & Hl & Hh & Hat & Hm & Hin).
  exists l, card. repeat split; try assumption.
  unfold derived in Hd. rewrite Hd in Hin. apply List.filter_In in Hin as [_ Hu].
  unfold unlearned in Hu. rewrite Hh in Hu. apply negb_true_iff, Hu.
Qed.

Lemma cursor_on_active_card_witness :
  let s := session "H1" (DataOk (JsonOk [card_A; card_B; card_C])) example_world
             [NextCard example_world] in
  filteredFlashcardsData s ≠ []
  ∧ 0 <= currentIndex s < Z.of_nat (length (filteredFlashcardsData s))
  ∧ ∃ l card,
      at_index (filteredFlashcardsData s) (currentIndex s) = Some l
      ∧ card_at s (currentIndex s) = Some card
      ∧ learned card = false
      ∧ at_index (masterFlashcardsData s) (id card) = Some l.
Proof.
  cbv zeta.
  assert (filteredFlashcardsData
            (session "H1" (DataOk (JsonOk [card_A; card_B; card_C])) example_world
               [NextCard example_world]) ≠ []) as H by (vm_compute; discriminate).
  split; [exact H|].
  exact (cursor_on_active_card "H1" (DataOk (JsonOk [card_A; card_B; card_C]))
           example_world [NextCard example_world] H).
Defined.

(** X2. In every state of a session at most one confirmation timer is
    pending: none while the guard is idle, and while it awaits the second
    click exactly the one whose identifier the script holds, with its
    deadline still ahead. *)
Theorem one_pending_timer
    (nameTag : string) (o : DataOutcome) (w : World) (acts : list Action) :
  let s := session nameTag o w acts in
  (length (timers s) ≤ 1)%nat
  ∧ (guard s = Idle → timers s = [])
  ∧ (guard s = AwaitingConfirm →
       ∃ i deadline, deleteConfirmationTimeoutId s = Some i
                     ∧ timers s = [(i, deadline)] ∧ clock s < deadline).
Proof.
  intros s. pose proof (session_guard_ok nameTag o w acts) as H. fold s in H.
  unfold guard_ok in H. destruct (guard s).
  - rewrite H. split; [cbn; lia|]. split; [reflexivity|discriminate].
  - destruct H as (i & deadline & Hi & Ht & Hd). rewrite Ht.
    split; [cbn; lia|]. split; [discriminate|]. intros _. eauto.
Qed.

Lemma nextCard_cursor w s :
  filteredFlashcardsData s ≠ [] →
  filteredFlashcardsData (nextCard w s) = filteredFlashcardsData s
  ∧ currentIndex (nextCard w s)
    = (currentIndex s + 1) `rem` Z.of_nat (length (filteredFlashcardsData s)).
Proof.
  intros Hne. unfold nextCard.
  destruct (Z.gtb_spec (Z.of_nat (length (filteredFlashcardsData s))) 0) as [_|Hz].
  - split; [apply loadCard_filtered|apply loadCard_currentIndex, Hne].
  - destruct (filteredFlashcardsData s); [congruence|cbn in Hz; lia].
Qed.

Lemma prevCard_cursor w s :
  filteredFlashcardsData s ≠ [] →
  filteredFlashcardsData (prevCard w s) = filteredFlashcardsData s
  ∧ currentIndex (prevCard w s)
    = (currentIndex s - 1 + Z.of_nat (length (filteredFlashcardsData s)))
      `rem` Z.of_nat (length (filteredFlashcardsData s)).
Proof.
  intros Hne. unfold prevCard.
  destruct (Z.gtb_spec (Z.of_nat (length (filteredFlashcardsData s))) 0) as [_|Hz].
  - split; [apply loadCard_filtered|apply loadCard_currentIndex, Hne].
  - destruct (filteredFlashcardsData s); [congruence|cbn in Hz; lia].
Qed.

Lemma rem_next_prev c n : 0 <= c < n → ((c + 1) `rem` n - 1 + n) `rem` n = c.
Proof.
  intros H. rewrite (Z.rem_mod_nonneg (c + 1)) by lia.
  destruct (Z.eq_dec (c + 1) n) as [E|E].
  - rewrite E, Z.mod_same by lia. rewrite Z.rem_mod_nonneg by lia.
    replace (0 - 1 + n) with c by lia. apply Z.mod_small. lia.
  - rewrite (Z.mod_small (c + 1)) by lia. rewrite Z.rem_mod_nonneg by lia.
    replace (c + 1 - 1 + n) with (c + 1 * n) by lia.
    rewrite Z.mod_add by lia. apply Z.mod_small. lia.
Qed.

Lemma rem_prev_next c n : 0 <= c < n → ((c - 1 + n) `rem` n + 1) `rem` n = c.
Proof.
  intros H. rewrite (Z.rem_mod_nonneg (c - 1 + n)) by lia.
  destruct (Z.eq_dec c 0) as [->|E].
  - replace (0 - 1 + n) with (n - 1) by lia. rewrite (Z.mod_small (n - 1)) by lia.
    rewrite Z.rem_mod_nonneg by lia.
    replace (n - 1 + 1) with n by lia. apply Z.mod_same. lia.
  - replace (c - 1 + n) with (c - 1 + 1 * n) by lia. rewrite Z.mod_add by lia.
    rewrite (Z.mod_small (c - 1)) by lia. rewrite Z.rem_mod_nonneg by lia.
    replace (c - 1 + 1) with c by lia. apply Z.mod_small. lia.
Qed.

(** X3. Navigation is a round trip: on a collection that is not empty, with
    the cursor inside it, going to the next card and back, or to the
    previous card and forth, returns the cursor to where it was and leaves
    the active collection as it was, whatever the environment answers. *)
Theorem next_prev_round_trip (w1 w2 : World) (s : State) :
  0 <= currentIndex s < Z.of_nat (length (filteredFlashcardsData s)) →
  currentIndex (prevCard w2 (nextCard w1 s)) = currentIndex s
  ∧ currentIndex (nextCard w2 (prevCard w1 s)) = currentIndex s
  ∧ filteredFlashcardsData (prevCard w2 (nextCard w1 s)) = filteredFlashcardsData s
  ∧ filteredFlashcardsData (nextCard w2 (prevCard w1 s)) = filteredFlashcardsData s.
Proof.
  intros Hc.
  assert (filteredFlashcardsData s ≠ []) as Hne
    by (destruct (filteredFlashcardsData s); [cbn in Hc; lia|discriminate]).
  destruct (nextCard_cursor w1 s Hne) as [Hf1 Hc1].
  destruct (prevCard_cursor w1 s Hne) as [Hf2 Hc2].
  destruct (prevCard_cursor w2 (nextCard w1 s)) as [Hf3 Hc3]; [congruence|].
  destruct (nextCard_cursor w2 (prevCard w1 s)) as [Hf4 Hc4]; [congruence|].
  rewrite Hc3, Hc4, Hf3, Hf4, Hf1, Hf2, Hc1, Hc2.
  repeat split; [apply rem_next_prev|apply rem_prev_next]; exact Hc.
Qed.

Lemma next_prev_round_trip_witness :
  let s := example_second in
  let w := example_world in
  0 <= currentIndex s < Z.of_nat (length (filteredFlashcardsData s))
  ∧ currentIndex (prevCard w (nextCard w s)) = currentIndex s
  ∧ currentIndex (nextCard w (prevCard w s)) = currentIndex s
  ∧ filteredFlashcardsData (prevCard w (nextCard w s)) = filteredFlashcardsData s
  ∧ filteredFlashcardsData (nextCard w (prevCard w s)) = filteredFlashcardsData s.
Proof.
  cbv zeta.
  assert (0 <= currentIndex example_second
          < Z.of_nat (length (filteredFlashcardsData example_second))) as H
    by (vm_compute; split; [discriminate|reflexivity]).
  split; [exact H|].
  exact (next_prev_round_trip example_world example_world example_second H).
Defined.

(** X4. Navigation is circular: after as many [nextCard] as [worlds] has
    entries the cursor has advanced by that number modulo the size of the
    active collection; after exactly one turn it is back where it was. *)
Theorem nextCard_cycles (worlds : list World) (s : State) :
  0 <= currentIndex s < Z.of_nat (length (filteredFlashcardsData s)) →
  let n := Z.of_nat (length (filteredFlashcardsData s)) in
  let s' := foldl (λ s w, nextCard w s) s worlds in
  filteredFlashcardsData s' = filteredFlashcardsData s
  ∧ currentIndex s' = (currentIndex s + Z.of_nat (length worlds)) `mod` n
  ∧ (length worlds = length (filteredFlashcardsData s) →
     currentIndex s' = currentIndex s).
Proof.
  intros Hc n s'.
  assert (filteredFlashcardsData s' = filteredFlashcardsData s
          ∧ currentIndex s' = (currentIndex s + Z.of_nat (length worlds)) `mod` n)
    as [Hf Hi].
  { subst s' n. revert s Hc. induction worlds as [|w ws IH]; intros s Hc.
    - cbn. split; [reflexivity|]. rewrite Z.add_0_r, Z.mod_small; [reflexivity|lia].
    - cbn [foldl length].
      assert (filteredFlashcardsData s ≠ []) as Hne
        by (destruct (filteredFlashcardsData s); [cbn in Hc; lia|discriminate]).
      destruct (nextCard_cursor w s Hne) as [Hf1 Hc1].
      destruct (IH (nextCard w s)) as [Hf2 Hc2].
      { rewrite Hf1, Hc1. apply Z.rem_bound_pos; lia. }
      rewrite Hf2, Hc2, Hf1, Hc1. split; [reflexivity|].
      rewrite Z.rem_mod_nonneg by lia.
      rewrite Zplus_mod_idemp_l. f_equal. lia. }
  split; [exact Hf|]. split; [exact Hi|].
  intros Hlen. rewrite Hi, Hlen. fold n.
  replace (currentIndex s + n) with (currentIndex s + 1 * n) by lia.
  rewrite Z.mod_add by lia. apply Z.mod_small. lia.
Qed.

Lemma nextCard_cycles_witness :
  let s := example_second in
  let worlds := [example_world; example_world; example_world] in
  let n := Z.of_nat (length (filteredFlashcardsData s)) in
  let s' := foldl (λ s w, nextCard w s) s worlds in
  0 <= currentIndex s < Z.of_nat (length (filteredFlashcardsData s))
  ∧ filteredFlashcardsData s' = filteredFlashcardsData s
  ∧ currentIndex s' = (currentIndex s + Z.of_nat (length worlds)) `mod` n
  ∧ (length worlds = length (filteredFlashcardsData s) →
     currentIndex s' = currentIndex s).
Proof.
  cbv zeta.
  assert (0 <= currentIndex example_second
          < Z.of_nat (length (filteredFlashcardsData example_second))) as H
    by (vm_compute; split; [discriminate|reflexivity]).
  split; [exact H|].
  exact (nextCard_cycles [example_world; example_world; example_world]
           example_second H).
Defined.

(** * The collection over time *)

Lemma heap_evolves_refl h : heap_evolves h h.
Proof.
  split; [reflexivity|]. intros l c H. exists c. split; [exact H|].
  split; [reflexivity|exact (λ H, H)].
Qed.

Lemma heap_evolves_trans h1 h2 h3 :
  heap_evolves h1 h2 → heap_evolves h2 h3 → heap_evolves h1 h3.
Proof.
  intros [L1 H1] [L2 H2]. split; [congruence|]. intros l c Hc.
  destruct (H1 l c Hc) as (c2 & Hc2 & E1 & M1).
  destruct (H2 l c2 Hc2) as (c3 & Hc3 & E2 & M2).
  exists c3. split; [exact Hc3|]. split; [congruence|auto].
Qed.

Lemma images_only_evolves h h' : images_only h h' → heap_evolves h h'.
Proof.
  intros H. split.
  - apply (f_equal length) in H. rewrite !length_fmap in H. exact H.
  - intros l c Hc. pose proof (images_only_lookup h h' l H) as E.
    rewrite Hc in E. destruct (h' !! l) as [c'|]; [|discriminate].
    exists c'. split; [reflexivity|]. cbn in E. injection E as E.
    destruct c, c'. cbn in *. inversion E; subst. split; [reflexivity|].
    exact (λ H, H).
Qed.

Lemma learned_evolves l h : heap_evolves h (alter (set_learned true) l h).
Proof.
  split; [apply length_alter|]. intros l' c Hc.
  destruct (decide (l = l')) as [->|Hne].
  - rewrite list_lookup_alter_eq, Hc. eexists. split; [reflexivity|].
    split; reflexivity.
  - rewrite list_lookup_alter_ne by exact Hne. exists c. split; [exact Hc|].
    split; [reflexivity|exact (λ H, H)].
Qed.

Lemma filter_sublist {A} (f : A → bool) (l : list A) : List.filter f l `sublist_of` l.
Proof.
  induction l as [|x l IH]; [constructor|]. cbn.
  destruct (f x); [apply sublist_skip|apply sublist_cons]; exact IH.
Qed.

Lemma deleteImage_collection o w s :
  masterFlashcardsData (deleteImage o w s) = masterFlashcardsData s
  ∧ filteredFlashcardsData (deleteImage o w s) = filteredFlashcardsData s
  ∧ images_only (heap s) (heap (deleteImage o w s)).
Proof.
  unfold deleteImage.
  destruct (awaitingDeleteConfirmation s);
    [|repeat split; exact (images_only_refl _)].
  cbv zeta.
  match goal with |- context [card_at ?S (currentIndex ?S)] =>
    assert (collection S = collection s) as Hcoll
      by (destruct (deleteConfirmationTimeoutId s); reflexivity);
    generalize dependent S end.
  intros T HT. unfold collection in HT. injection HT as Hh Hm Hf.
  rewrite <- Hh, <- Hm, <- Hf.
  destruct (at_index _ _) as [l|]; [|repeat split; exact (images_only_refl _)].
  destruct (card_at _ _) as [card|]; [|repeat split; exact (images_only_refl _)].
  destruct o as [m|[|]]; try (repeat split; exact (images_only_refl _)).
  unfold report. rewrite loadCard_master, loadCard_filtered.
  split; [reflexivity|]. split; [reflexivity|].
  match goal with |- images_only _ (heap (loadCard ?w ?i ?a ?S)) =>
    pose proof (loadCard_heap w i a S) as H end.
  unfold images_only in *. rewrite H. apply images_only_alter.
Qed.

Lemma step_evolves s a :
  well_formed s → keeps_page a = true →
  masterFlashcardsData (step s a) = masterFlashcardsData s
  ∧ filteredFlashcardsData (step s a) `sublist_of` filteredFlashcardsData s
  ∧ heap_evolves (heap s) (heap (step s a)).
Proof.
  intros (Hi & Hd & Hc) Ha.
  assert (∀ s', collection s' = collection s →
            masterFlashcardsData s' = masterFlashcardsData s
            ∧ filteredFlashcardsData s' `sublist_of` filteredFlashcardsData s
            ∧ heap_evolves (heap s) (heap s')) as Hsame.
  { intros s' H. unfold collection in H. injection H as -> -> ->.
    split; [reflexivity|]. split; [reflexivity|apply heap_evolves_refl]. }
  assert (∀ w i p, masterFlashcardsData (loadCard w i p s) = masterFlashcardsData s
            ∧ filteredFlashcardsData (loadCard w i p s) `sublist_of` filteredFlashcardsData s
            ∧ heap_evolves (heap s) (heap (loadCard w i p s))) as Hload.
  { intros w i p. rewrite loadCard_master, loadCard_filtered.
    split; [reflexivity|]. split; [reflexivity|].
    apply images_only_evolves, loadCard_heap. }
  destruct a; try discriminate; cbn [step].
  - unfold nextCard. destruct (_ >? 0); [apply Hload|apply Hsame; reflexivity].
  - unfold prevCard. destruct (_ >? 0); [apply Hload|apply Hsame; reflexivity].
  - assert (o = Responded true ∨ o ≠ Responded true) as [->|Ho]
      by (destruct o as [m|[|]]; [right|left|right]; congruence).
    + destruct (decide (filteredFlashcardsData s = [])) as [He|Hne].
      { assert (markAsLearned (Responded true) w s = s) as ->
          by (unfold markAsLearned; rewrite He; reflexivity).
        apply Hsame. reflexivity. }
      destruct (markAsLearned_success w s Hi Hd (Hc Hne))
        as (l & card & Hl & Hcard & Hin & Heq).
      cbv zeta in Heq. rewrite Heq. clear Heq.
      assert (filteredFlashcardsData (marked l (requested card s))
                `sublist_of` filteredFlashcardsData s) as Hsub.
      { rewrite (marked_filtered l (requested card s) Hd). apply filter_sublist. }
      assert (heap_evolves (heap s) (heap (marked l (requested card s)))) as Hev
        by apply learned_evolves.
      destruct (_ >? 0).
      * rewrite loadCard_master, loadCard_filtered.
        split; [reflexivity|]. split; [exact Hsub|].
        eapply heap_evolves_trans; [exact Hev|].
        apply images_only_evolves, loadCard_heap.
      * split; [reflexivity|]. split; [exact Hsub|exact Hev].
    + destruct (markAsLearned_failure o w s Ho) as [H _]. apply Hsame, H.
  - destruct (deleteImage_collection o w s) as (Hm & Hf & Hh).
    rewrite Hm, Hf. split; [reflexivity|]. split; [reflexivity|].
    apply images_only_evolves, Hh.
  - unfold playPhonetic. destruct (card_at _ _); [|apply Hsame; reflexivity].
    apply Hsame. apply controls_collection;
      [apply playAudioFromApi_controls|apply playAudioFromApi_heap].
  - unfold playSingleExample. destruct (card_at _ _); [|apply Hsame; reflexivity].
    destruct (_ !! index); [|apply Hsame; reflexivity].
    apply Hsame. apply controls_collection;
      [apply playAudioFromApi_controls|apply playAudioFromApi_heap].
  - apply Hsame, (events_collection FlipCard s I).
  - apply Hsame, (events_collection (LoadedMetadata _) s I).
  - apply Hsame, (events_collection (TimeUpdate _) s I).
  - apply Hsame, (events_collection Ended s I).
  - apply Hsame, (events_collection (Elapse _) s I).
Qed.

(** X5. Between two resets the collection only moves one way: whatever
    the actions and the answers of the environment, the master array is not
    touched, no card is added to the active array nor reordered in it (the
    new active array is a sublist of the old one), no card becomes unlearned,
    and no field of a card other than [learned] and [imagePath] changes. *)
Theorem collection_only_shrinks (s : State) (acts : list Action) :
  well_formed s →
  forallb keeps_page acts = true →
  let s' := foldl step s acts in
  masterFlashcardsData s' = masterFlashcardsData s
  ∧ filteredFlashcardsData s' `sublist_of` filteredFlashcardsData s
  ∧ heap_evolves (heap s) (heap s').
Proof.
  cbv zeta. revert s. induction acts as [|a acts IH]; intros s Hwf Hacts.
  - split; [reflexivity|]. split; [reflexivity|apply heap_evolves_refl].
  - cbn in Hacts. apply andb_true_iff in Hacts as [Ha Hacts]. cbn [foldl].
    destruct (step_evolves s a Hwf Ha) as (Hm & Hf & Hh).
    destruct (IH (step s a) (step_well_formed s a Hwf) Hacts) as (Hm' & Hf' & Hh').
    split; [congruence|]. split.
    + etrans; [exact Hf'|exact Hf].
    + eapply heap_evolves_trans; eassumption.
Qed.

Lemma confirmation_timeouts_requests {A} (due : list A) s :
  requests (foldl (λ s _, confirmation_timeout s) s due) = requests s.
Proof.
  revert s. induction due as [|x due IH]; intros s; [reflexivity|].
  cbn. rewrite IH. unfold confirmation_timeout.
  destruct (awaitingDeleteConfirmation s); reflexivity.
Qed.

Lemma events_requests a s :
  match a with
  | FlipCard | LoadedMetadata _ | TimeUpdate _ | Ended | Elapse _ => True
  | _ => False
  end →
  requests (step s a) = requests s.
Proof.
  destruct a; intros H; try (exfalso; exact H); clear H; cbn.
  - unfold flipCard. destruct (_ || _); reflexivity.
  - unfold fire_loadedmetadata.
    destruct (onloadedmetadata _) as [h|]; [|reflexivity].
    destruct (timePerWord_of _ _); reflexivity.
  - unfold fire_timeupdate, timeupdate_with.
    destruct (ontimeupdate _) as [h|]; [|reflexivity].
    destruct (cells s !! _) as [last|]; [|reflexivity].
    destruct (word_index _ _ =? last); [reflexivity|].
    destruct (at_index _ last), (_ && _);
      [destruct (at_index _ _)| |destruct (at_index _ _)|]; reflexivity.
  - unfold fire_ended. destruct (onended _) as [h|]; [|reflexivity].
    destruct (eh_itemElement h); reflexivity.
  - unfold elapse. cbv zeta. rewrite confirmation_timeouts_requests. reflexivity.
Qed.

Lemma card_at_empty s i : filteredFlashcardsData s = [] → card_at s i = None.
Proof.
  intros He. unfold card_at, at_index. rewrite He.
  destruct (i <? 0); reflexivity.
Qed.

Lemma completed_step s a :
  filteredFlashcardsData s = [] → keeps_page a = true →
  collection (step s a) = collection s ∧ requests (step s a) = requests s.
Proof.
  intros He Ha. destruct a; try discriminate; cbn [step].
  - unfold nextCard. rewrite He. split; reflexivity.
  - unfold prevCard. rewrite He. split; reflexivity.
  - unfold markAsLearned. rewrite He. split; reflexivity.
  - unfold deleteImage. destruct (awaitingDeleteConfirmation s); [|split; reflexivity].
    cbv zeta.
    match goal with |- context [at_index (filteredFlashcardsData ?S) ?i] =>
      assert (at_index (filteredFlashcardsData S) i = None) as ->
        by (destruct (deleteConfirmationTimeoutId s); cbn; rewrite He;
            unfold at_index; destruct (_ <? 0); reflexivity) end.
    destruct (deleteConfirmationTimeoutId s); split; reflexivity.
  - unfold playPhonetic. rewrite card_at_empty by exact He. split; reflexivity.
  - unfold playSingleExample. rewrite card_at_empty by exact He. split; reflexivity.
  - split; [apply (events_collection FlipCard s I)|apply (events_requests FlipCard s I)].
  - split; [apply (events_collection (LoadedMetadata _) s I)
           |apply (events_requests (LoadedMetadata _) s I)].
  - split; [apply (events_collection (TimeUpdate _) s I)
           |apply (events_requests (TimeUpdate _) s I)].
  - split; [apply (events_collection Ended s I)|apply (events_requests Ended s I)].
  - split; [apply (events_collection (Elapse _) s I)
           |apply (events_requests (Elapse _) s I)].
Qed.

Lemma empty_collection_steps (s : State) (acts : list Action) :
  filteredFlashcardsData s = [] →
  forallb keeps_page acts = true →
  collection (foldl step s acts) = collection s
  ∧ requests (foldl step s acts) = requests s.
Proof.
  revert s. induction acts as [|a acts IH]; intros s He Hacts; [split; reflexivity|].
  cbn in Hacts. apply andb_true_iff in Hacts as [Ha Hacts]. cbn [foldl].
  destruct (completed_step s a He Ha) as [H Hr].
  destruct (IH (step s a)) as [H' Hr']; [|exact Hacts|].
  - unfold collection in H. injection H as _ _ ->. exact He.
  - split; congruence.
Qed.

(** X6. An empty active collection is final: once no card is active, no
    sequence of actions other than a reset changes the cards or the two
    arrays, and no request is sent. *)
Theorem empty_collection_is_final (s : State) (acts : list Action) :
  filteredFlashcardsData s = [] →
  forallb keeps_page acts = true →
  collection (foldl step s acts) = collection s
  ∧ requests (foldl step s acts) = requests s.
Proof. apply empty_collection_steps. Qed.

(** X7. A failed initial load leaves the page without cards for good: the
    error is shown, and whatever the user does short of a reset, the
    collection stays empty and the only request ever sent is the initial
    one. *)
Theorem failed_load_is_final
    (nameTag : string) (o : DataOutcome) (w : World) (acts : list Action) :
  load_fails o = true →
  forallb keeps_page acts = true →
  let s := session nameTag o w acts in
  (∃ text, shown (loadData o w (initial nameTag)) = Some ("❌ Error fatal: " ++ text, true))
  ∧ locked (loadData o w (initial nameTag)) = false
  ∧ heap s = [] ∧ masterFlashcardsData s = [] ∧ filteredFlashcardsData s = []
  ∧ requests s = [GetFlashcardsData].
Proof.
  intros Ho Hacts s. subst s. unfold session.
  assert (collection (loadData o w (initial nameTag)) = ([], [], [])
          ∧ requests (loadData o w (initial nameTag)) = [GetFlashcardsData]
          ∧ (∃ text, shown (loadData o w (initial nameTag))
                     = Some ("❌ Error fatal: " ++ text, true))
          ∧ locked (loadData o w (initial nameTag)) = false) as (Hc & Hr & Hs & Hl).
  { destruct o as [m| |[data|m]]; try discriminate; repeat split; eexists; reflexivity. }
  destruct (empty_collection_steps (loadData o w (initial nameTag)) acts)
    as [Hc' Hr']; [|exact Hacts|].
  - unfold collection in Hc. congruence.
  - rewrite Hc in Hc'. unfold collection in Hc'. injection Hc' as -> -> ->.
    rewrite Hr', Hr. repeat split; assumption.
Qed.

Lemma failed_load_is_final_witness :
  let o := DataNotOk in
  let w := example_world in
  let acts := [NextCard example_world; MarkAsLearned (Responded true) example_world;
               PlayPhonetic example_speech] in
  let s := session "H1" o w acts in
  load_fails o = true
  ∧ forallb keeps_page acts = true
  ∧ (∃ text, shown (loadData o w (initial "H1")) = Some ("❌ Error fatal: " ++ text, true))
  ∧ locked (loadData o w (initial "H1")) = false
  ∧ heap s = [] ∧ masterFlashcardsData s = [] ∧ filteredFlashcardsData s = []
  ∧ requests s = [GetFlashcardsData].
Proof.
  cbv zeta. split; [reflexivity|]. split; [reflexivity|].
  exact (failed_load_is_final "H1" DataNotOk example_world
           [NextCard example_world; MarkAsLearned (Responded true) example_world;
            PlayPhonetic example_speech] eq_refl eq_refl).
Defined.

Lemma collection_only_shrinks_witness :
  let s := example_second in
  let acts := [MarkAsLearned (Responded true) example_world;
               NextCard example_world; DeleteClick (Responded true) example_world] in
  let s' := foldl step s acts in
  well_formed s
  ∧ forallb keeps_page acts = true
  ∧ masterFlashcardsData s' = masterFlashcardsData s
  ∧ filteredFlashcardsData s' `sublist_of` filteredFlashcardsData s
  ∧ heap_evolves (heap s) (heap s').
Proof.
  cbv zeta.
  assert (well_formed example_second) as H1 by apply session_well_formed.
  split; [exact H1|]. split; [reflexivity|].
  exact (collection_only_shrinks example_second
           [MarkAsLearned (Responded true) example_world;
            NextCard example_world; DeleteClick (Responded true) example_world]
           H1 eq_refl).
Defined.

Lemma empty_collection_is_final_witness :
  let s := initial "H1" in
  let acts := [NextCard example_world; MarkAsLearned (Responded true) example_world;
               DeleteClick (Responded true) example_world;
               DeleteClick (Responded true) example_world;
               PlayPhonetic example_speech] in
  filteredFlashcardsData s = []
  ∧ forallb keeps_page acts = true
  ∧ collection (foldl step s acts) = collection s
  ∧ requests (foldl step s acts) = requests s.
Proof.
  cbv zeta. split; [reflexivity|]. split; [reflexivity|].
  exact (empty_collection_is_final (initial "H1")
           [NextCard example_world; MarkAsLearned (Responded true) example_world;
            DeleteClick (Responded true) example_world;
            DeleteClick (Responded true) example_world;
            PlayPhonetic example_speech] eq_refl eq_refl).
Defined.

(** * The card on the page *)

Lemma play_begin_page_kept i s : page (play_begin i s) = page s.
Proof.
  unfold play_begin.
  destruct (isAudioPlaying s), i as [e|]; try destruct (String.eqb (tagName e) "LI");
    reflexivity.
Qed.

Lemma play_try_page_kept o c t i s : page (state_of (play_try o c t i s)) = page s.
Proof.
  unfold play_try, play_send, play_answer.
  destruct (card_at s (currentIndex s)) as [card|]; [|reflexivity].
  destruct o as [m|[e|m]|[d|m] [pb|]]; try reflexivity.
  all: destruct (success d), (truthy (audio_url d)), i; reflexivity.
Qed.

Lemma playAudioFromApi_page_kept o t i s : page (playAudioFromApi o t i s) = page s.
Proof.
  unfold playAudioFromApi, play_end.
  rewrite <- (play_begin_page_kept i s).
  rewrite <- (play_try_page_kept o (calls s) t i (play_begin i s)).
  destruct (play_try _ _ _ _ _) as [s'|m s'], i as [e|];
    try destruct (String.eqb (tagName e) "LI"); reflexivity.
Qed.

Lemma generateAndLoadImage_page_kept o card s :
  page (generateAndLoadImage o card s) = page s.
Proof.
  unfold generateAndLoadImage.
  destruct (definitions card) as [|def defs]; [reflexivity|].
  destruct o as [m|[e|m]|[d|m] img]; try reflexivity.
  destruct (at_index _ _); [|reflexivity].
  destruct img; reflexivity.
Qed.

Lemma loadCard_page w index autoPlay s card :
  card_at s index = Some card →
  page (loadCard w index autoPlay s) = rendered index card s.
Proof.
  intros Hcard. unfold loadCard.
  assert (filteredFlashcardsData s ≠ []) as Hne by (eapply card_at_nonempty, Hcard).
  assert ((length (filteredFlashcardsData s) =? 0)%nat = false) as ->
    by (destruct (filteredFlashcardsData s); [congruence|reflexivity]).
  assert ((Z.of_nat (length (filteredFlashcardsData s)) >? 0) = true) as Hpos
    by (destruct (filteredFlashcardsData s); [congruence|reflexivity]).
  cbv zeta.
  match goal with |- context [card_at ?s0 index] =>
    assert (card_at s0 index = Some card) as ->
      by (rewrite <- Hcard; clear;
          destruct s as [? ? ? ? ? [] ? [] ? ? ? ? ? ? ?]; reflexivity);
    assert (page s0 = (CounterAt (index + 1)
                         (Z.of_nat (length (filteredFlashcardsData s))),
                       completed (dom s), false, nameElement (dom s),
                       exampleItems (dom s), nextUid (dom s))) as Hp
      by (clear Hcard Hne; unfold page, updateCardCounter;
          destruct s as [? ? ? ? ? [] ? [] ? ? ? ? ? ? ?]; cbn in *;
          rewrite Hpos; reflexivity);
    generalize dependent s0 end.
  intros s0 Hp. unfold page in Hp. injection Hp as H1 H2 H3 H4 H5 H6.
  assert (∀ s1, page s1 = page (renderFrontExamples card (renderCardName card s0)) →
            page s1 = rendered index card s) as Hfin.
  { intros s1 ->. unfold rendered, page, renderFrontExamples, renderCardName, upd_dom.
    cbn. rewrite H6.
    destruct (make_items _ _ _) as [items u]. cbn. rewrite H1, H2, H3, H4.
    reflexivity. }
  unfold renderBackCard.
  destruct (back_renders w card); cbv iota; [|apply Hfin; reflexivity].
  destruct (truthy (imagePath card)); [destruct (cachedImage w)|].
  - destruct autoPlay; apply Hfin; [rewrite playAudioFromApi_page_kept|]; reflexivity.
  - apply Hfin. rewrite generateAndLoadImage_page_kept. reflexivity.
  - apply Hfin. rewrite generateAndLoadImage_page_kept. reflexivity.
Qed.

(** ** What is rendered *)

Lemma make_spans_uids u words : uid <$> make_spans u words = seq u (length words).
Proof.
  revert u. induction words as [|w words IH]; intros u; [reflexivity|].
  cbn. rewrite IH. reflexivity.
Qed.

Lemma make_spans_filter u words :
  List.filter (λ el, String.eqb (tagName el) "SPAN") (make_spans u words)
  = make_spans u words.
Proof.
  revert u. induction words as [|w words IH]; intros u; [reflexivity|].
  cbn. rewrite IH. reflexivity.
Qed.

Lemma wordSpans_of_name u t words first :
  wordSpans_of (Node u t "name" (make_spans first words)) = seq first (length words).
Proof.
  change (wordSpans_of (Node u t "name" (make_spans first words)))
    with (uid <$> List.filter (λ el, String.eqb (tagName el) "SPAN")
                              (make_spans first words)).
  rewrite make_spans_filter. apply make_spans_uids.
Qed.

(** Words are also separated by white space that is not ASCII. *)
Example words_at_no_break_space :
  trim_split ("get" ++ no_break_space ++ "up " ++ no_break_space) = ["get"; "up"].
Proof. reflexivity. Qed.

Lemma trim_split_nonempty s : (1 ≤ length (trim_split s))%nat.
Proof.
  unfold trim_split. destruct (split_ws 0 "" s); cbn; lia.
Qed.

Lemma wordSpans_of_item u i def :
  wordSpans_of (item_of u i def)
  = seq (u + 3) (length (trim_split (usage_example def))).
Proof.
  change (wordSpans_of (item_of u i def))
    with (uid <$> List.filter (λ el, String.eqb (tagName el) "SPAN")
                    (make_spans (u + 3) (trim_split (usage_example def)))).
  rewrite make_spans_filter. apply make_spans_uids.
Qed.

Lemma make_items_cons u i def defs :
  make_items u i (def :: defs)
  = (item_of u i def
       :: fst (make_items (u + 3 + length (trim_split (usage_example def))) (S i) defs),
     snd (make_items (u + 3 + length (trim_split (usage_example def))) (S i) defs)).
Proof.
  cbn. destruct (make_items _ _ _) as [items u']. reflexivity.
Qed.

Lemma make_items_lookup defs u (i k : nat) def :
  defs !! k = Some def →
  ∃ uk, (u ≤ uk)%nat
        ∧ fst (make_items u i defs) !! k = Some (item_of uk (i + k)%nat def).
Proof.
  revert u i k. induction defs as [|d defs IH]; intros u i k H; [discriminate|].
  rewrite make_items_cons. cbn [fst]. destruct k as [|k].
  - injection H as ->. exists u. rewrite Nat.add_0_r. split; [lia|reflexivity].
  - cbn in H. destruct (IH (u + 3 + length (trim_split (usage_example d)))%nat
                          (S i) k H) as (uk & Hu & Hk).
    exists uk. split; [lia|].
    replace (i + S k)%nat with (S i + k)%nat by lia. exact Hk.
Qed.

Lemma make_items_length defs u i :
  length (fst (make_items u i defs)) = length defs.
Proof.
  revert u i. induction defs as [|d defs IH]; intros u i; [reflexivity|].
  rewrite make_items_cons. cbn [fst length]. rewrite IH. reflexivity.
Qed.

Lemma item_id_eqb a b :
  String.eqb ("example-item-" ++ pretty a) ("example-item-" ++ pretty b)
  = bool_decide (a = b :> nat).
Proof.
  destruct (decide (a = b)) as [->|Hne].
  - rewrite String.eqb_refl, bool_decide_eq_true_2; reflexivity.
  - rewrite bool_decide_eq_false_2 by exact Hne.
    apply String.eqb_neq. cbn. intros H. injection H as H.
    apply Hne, (inj pretty), H.
Qed.

(** [document.getElementById('example-item-' + k)] is the item rendered for
    definition [k]. *)
Lemma make_items_find defs u (i k : nat) :
  (k < length defs)%nat →
  List.find (λ e, String.eqb (elemId e) ("example-item-" ++ pretty (i + k)%nat))
            (fst (make_items u i defs))
  = fst (make_items u i defs) !! k.
Proof.
  revert u i k. induction defs as [|d defs IH]; intros u i k H; [cbn in H; lia|].
  rewrite make_items_cons. cbn [fst List.find item_of elemId].
  rewrite item_id_eqb. destruct k as [|k].
  - rewrite Nat.add_0_r, bool_decide_eq_true_2 by reflexivity. reflexivity.
  - rewrite bool_decide_eq_false_2 by lia.
    replace (i + S k)%nat with (S i + k)%nat by lia.
    apply (IH _ (S i) k). cbn in H. lia.
Qed.

(** The words on the page after [loadCard]. *)
Lemma loadCard_words
    (w : World) (index : Z) (autoPlay : bool) (s : State) (card : Card) :
  card_at s index = Some card →
  let s' := loadCard w index autoPlay s in
  cardFlipped (dom s') = false
  ∧ length (wordSpans_of (nameElement (dom s'))) = length (trim_split (name card))
  ∧ (1 ≤ length (wordSpans_of (nameElement (dom s'))))%nat
  ∧ list_to_set (wordSpans_of (nameElement (dom s'))) ⊆ attached (dom s')
  ∧ length (exampleItems (dom s')) = length (definitions card)
  ∧ ∀ k def, definitions card !! k = Some def →
      ∃ item,
        List.find (λ e, String.eqb (elemId e) ("example-item-" ++ pretty k))
                  (exampleItems (dom s')) = Some item
        ∧ exampleItems (dom s') !! k = Some item
        ∧ tagName item = "LI"
        ∧ length (wordSpans_of item) = length (trim_split (usage_example def))
        ∧ (1 ≤ length (wordSpans_of item))%nat
        ∧ list_to_set (wordSpans_of item) ⊆ attached (dom s').
Proof.
  intros Hcard s'. pose proof (loadCard_page w index autoPlay s card Hcard) as Hp.
  fold s' in Hp. unfold page, rendered in Hp. cbv zeta in Hp.
  injection Hp as _ _ Hflip Hname Hitems _.
  split; [exact Hflip|].
  assert (length (wordSpans_of (nameElement (dom s'))) = length (trim_split (name card)))
    as Hlen by (rewrite Hname, wordSpans_of_name, length_seq; reflexivity).
  split; [exact Hlen|]. split; [rewrite Hlen; apply trim_split_nonempty|].
  split; [apply wordSpans_attached; left; reflexivity|].
  split.
  { rewrite Hitems. apply make_items_length. }
  intros k def Hk.
  destruct (make_items_lookup (definitions card)
              (nextUid (dom s) + length (trim_split (name card)))%nat 0%nat k def Hk)
    as (uk & _ & Hitem).
  change (0 + k)%nat with k in Hitem.
  exists (item_of uk k def). rewrite Hitems.
  assert (List.find (λ e, String.eqb (elemId e) ("example-item-" ++ pretty k))
            (fst (make_items (nextUid (dom s) + length (trim_split (name card))) 0
                    (definitions card))) = Some (item_of uk k def)) as Hfind.
  { rewrite <- Hitem. apply (make_items_find (definitions card) _ 0%nat k).
    eapply lookup_lt_Some, Hk. }
  split; [exact Hfind|]. split; [exact Hitem|]. split; [reflexivity|].
  rewrite wordSpans_of_item, length_seq. split; [reflexivity|].
  split; [apply trim_split_nonempty|].
  rewrite <- wordSpans_of_item with (i := k). apply wordSpans_attached. right.
  rewrite Hitems. apply list_elem_of_In. eapply list_elem_of_lookup_2, Hitem.
Qed.

(** X8. What [loadCard] puts on the page for the card it loads: the front
    face is shown; the name has one [span] per word of the card's name, at
    least one; for every definition [k], the element with id
    [example-item-k] is a list item whose text container has one [span] per
    word of that definition's usage example; all these words are attached.
    Hence a play request for the name or for an example always finds words to
    highlight. *)
Theorem loadCard_renders_words
    (w : World) (index : Z) (autoPlay : bool) (s : State) (card : Card) :
  card_at s index = Some card →
  let s' := loadCard w index autoPlay s in
  cardFlipped (dom s') = false
  ∧ length (wordSpans_of (nameElement (dom s'))) = length (trim_split (name card))
  ∧ (1 ≤ length (wordSpans_of (nameElement (dom s'))))%nat
  ∧ list_to_set (wordSpans_of (nameElement (dom s'))) ⊆ attached (dom s')
  ∧ length (exampleItems (dom s')) = length (definitions card)
  ∧ ∀ k def, definitions card !! k = Some def →
      ∃ item,
        List.find (λ e, String.eqb (elemId e) ("example-item-" ++ pretty k))
                  (exampleItems (dom s')) = Some item
        ∧ exampleItems (dom s') !! k = Some item
        ∧ tagName item = "LI"
        ∧ length (wordSpans_of item) = length (trim_split (usage_example def))
        ∧ (1 ≤ length (wordSpans_of item))%nat
        ∧ list_to_set (wordSpans_of item) ⊆ attached (dom s').
Proof. exact (loadCard_words w index autoPlay s card). Qed.

Lemma loadCard_renders_words_witness :
  let s := example_page in
  let s' := loadCard example_world 1 true s in
  card_at s 1 = Some (set_id 1 card_B)
  ∧ cardFlipped (dom s') = false
  ∧ length (wordSpans_of (nameElement (dom s'))) = 2%nat.
Proof.
  cbv zeta.
  assert (card_at example_page 1 = Some (set_id 1 card_B)) as H by (vm_compute; reflexivity).
  destruct (loadCard_renders_words example_world 1 true example_page _ H)
    as (H1 & H2 & _).
  split; [exact H|]. split; [exact H1|].
  rewrite H2. vm_compute. reflexivity.
Defined.

(** * The card counter *)

Lemma counter_ok_same s s' :
  counter_view s' = counter_view s → counter_ok s → counter_ok s'.
Proof.
  unfold counter_view, counter_ok. intros H. injection H as -> -> -> ->. tauto.
Qed.

Lemma page_counter_view s s' :
  page s' = page s → currentIndex s' = currentIndex s →
  filteredFlashcardsData s' = filteredFlashcardsData s →
  counter_view s' = counter_view s.
Proof.
  unfold page, counter_view. intros H -> ->. injection H as -> -> _ _ _ _.
  reflexivity.
Qed.

Lemma counter_ok_active s :
  counter_ok s → filteredFlashcardsData s ≠ [] → completed (dom s) = false.
Proof.
  unfold counter_ok. destruct (cardCounter (dom s)); tauto.
Qed.

Lemma loadCard_counter_view w index autoPlay s :
  filteredFlashcardsData s ≠ [] →
  counter_view (loadCard w index autoPlay s) =
  (CounterAt (index + 1) (Z.of_nat (length (filteredFlashcardsData s))),
   completed (dom s), index, filteredFlashcardsData s).
Proof.
  intros Hne. unfold counter_view.
  rewrite loadCard_filtered, (loadCard_currentIndex _ _ _ _ Hne).
  destruct (card_at s index) as [card|] eqn:Hcard.
  - pose proof (loadCard_page w index autoPlay s card Hcard) as Hp.
    unfold page, rendered in Hp. cbv zeta in Hp. injection Hp as -> -> _ _ _ _.
    reflexivity.
  - unfold loadCard.
    assert ((length (filteredFlashcardsData s) =? 0)%nat = false) as ->
      by (destruct (filteredFlashcardsData s); [congruence|reflexivity]).
    assert ((Z.of_nat (length (filteredFlashcardsData s)) >? 0) = true) as Hpos
      by (destruct (filteredFlashcardsData s); [congruence|reflexivity]).
    cbv zeta.
    match goal with |- context [card_at ?s0 index] =>
      assert (card_at s0 index = None) as ->
        by (rewrite <- Hcard; clear;
            destruct s as [? ? ? ? ? [] ? [] ? ? ? ? ? ? ?]; reflexivity)
    end.
    clear Hcard Hne. unfold updateCardCounter.
    destruct s as [? ? ? ? ? [] ? [] ? ? ? ? ? ? ?]; cbn in *;
      rewrite Hpos; reflexivity.
Qed.

Lemma counter_ok_loaded s' index (filtered : list nat) :
  counter_view s' =
    (CounterAt (index + 1) (Z.of_nat (length filtered)), false, index, filtered) →
  filtered ≠ [] → counter_ok s'.
Proof.
  unfold counter_view, counter_ok. intros H Hne. injection H as -> -> -> ->.
  tauto.
Qed.

Lemma loadCard_counter_ok w index autoPlay s :
  filteredFlashcardsData s ≠ [] → completed (dom s) = false →
  counter_ok (loadCard w index autoPlay s).
Proof.
  intros Hne Hc. apply (counter_ok_loaded _ index (filteredFlashcardsData s)); [|exact Hne].
  rewrite loadCard_counter_view, Hc by exact Hne. reflexivity.
Qed.

Lemma displayCompletionMessage_counter_ok s :
  filteredFlashcardsData s = [] → counter_ok (displayCompletionMessage s).
Proof. intros H. unfold counter_ok. cbn. split; [exact H|reflexivity]. Qed.

Lemma nonempty_length {A} (l : list A) :
  (Z.of_nat (length l) >? 0) = true ↔ l ≠ [].
Proof.
  destruct l; split; intros H; try reflexivity; try discriminate.
  contradiction.
Qed.

Lemma markAsLearned_failure_page o w s :
  o ≠ Responded true → page (markAsLearned o w s) = page s.
Proof.
  intros Ho. unfold markAsLearned.
  destruct (length _ =? 0)%nat; [reflexivity|]. cbv zeta.
  destruct (card_at _ _); [|reflexivity].
  destruct o as [m|[]]; try reflexivity. congruence.
Qed.

Lemma markAsLearned_counter_ok o w s :
  well_formed s → counter_ok s → counter_ok (markAsLearned o w s).
Proof.
  intros (Hids & Hder & Hcur) Hc.
  assert (o = Responded true ∨ o ≠ Responded true) as [->|Ho]
    by (destruct o as [m|[]]; [right|left|right]; congruence).
  - destruct (filteredFlashcardsData s) as [|x rest] eqn:He.
    { assert (markAsLearned (Responded true) w s = s) as ->
        by (unfold markAsLearned; rewrite He; reflexivity).
      exact Hc. }
    assert (filteredFlashcardsData s ≠ []) as Hne by (rewrite He; discriminate).
    clear He x rest.
    destruct (markAsLearned_success w s Hids Hder (Hcur Hne))
      as (l & card & _ & _ & _ & Heq). cbv zeta in Heq. rewrite Heq.
    pose proof (counter_ok_active s Hc Hne) as Hcomp.
    destruct (_ >? 0) eqn:Hk.
    + apply loadCard_counter_ok; [apply nonempty_length, Hk|exact Hcomp].
    + apply displayCompletionMessage_counter_ok.
      destruct (filteredFlashcardsData (marked l (requested card s))); [reflexivity|].
      discriminate.
  - revert Hc. apply counter_ok_same.
    destruct (markAsLearned_failure o w s Ho) as [Hcol Hidx].
    apply page_counter_view; [apply markAsLearned_failure_page, Ho|exact Hidx|].
    unfold collection in Hcol. congruence.
Qed.

Lemma deleteImage_counter_ok o w s :
  counter_ok s → counter_ok (deleteImage o w s).
Proof.
  intros Hc. unfold deleteImage.
  destruct (awaitingDeleteConfirmation s); [|revert Hc; apply counter_ok_same; reflexivity].
  cbv zeta.
  destruct (at_index _ _) as [l|] eqn:Hl.
  2: { revert Hc. apply counter_ok_same. clear.
       destruct s as [? ? ? ? ? ? ? [] ? ? ? ? ? ? ?]; reflexivity. }
  destruct (card_at _ _) as [card|].
  2: { revert Hc. apply counter_ok_same. clear.
       destruct s as [? ? ? ? ? ? ? [] ? ? ? ? ? ? ?]; reflexivity. }
  assert (filteredFlashcardsData s ≠ []) as Hne.
  { intros He. revert Hl. clear - He.
    destruct s as [? ? ? ? ? ? ? [] ? ? ? ? ? ? ?]; cbn in *; subst;
      unfold at_index; cbn; destruct (_ <? 0); try discriminate;
      rewrite lookup_nil; discriminate. }
  destruct o as [m|[]].
  - revert Hc. apply counter_ok_same. clear.
    destruct s as [? ? ? ? ? ? ? [] ? ? ? ? ? ? ?]; reflexivity.
  - unfold report. apply loadCard_counter_ok.
    + clear - Hne. destruct s as [? ? ? ? ? ? ? [] ? ? ? ? ? ? ?]; exact Hne.
    + rewrite <- (counter_ok_active s Hc Hne). clear.
      destruct s as [? ? ? ? ? ? ? [] ? ? ? ? ? ? ?]; reflexivity.
  - revert Hc. apply counter_ok_same. clear.
    destruct s as [? ? ? ? ? ? ? [] ? ? ? ? ? ? ?]; reflexivity.
Qed.

Lemma loadData_counter_ok o w s :
  cardCounter (dom s) = CounterBlank → completed (dom s) = false →
  filteredFlashcardsData s = [] →
  counter_ok (loadData o w s).
Proof.
  intros Hb Hc He.
  assert (∀ m, counter_ok (showAppMessage m true (send GetFlashcardsData s))) as Hfatal.
  { intros m. unfold counter_ok. cbn. rewrite Hb. split; assumption. }
  unfold loadData. cbv zeta.
  destruct o as [m| |[data|m]]; try apply Hfatal.
  destruct (0 <? length _)%nat eqn:Hlen.
  - apply loadCard_counter_ok; [|exact Hc].
    intros Hnil. cbn [filteredFlashcardsData set_filteredFlashcardsData] in *.
    rewrite Hnil in Hlen. discriminate.
  - apply displayCompletionMessage_counter_ok.
    cbn [filteredFlashcardsData set_filteredFlashcardsData] in *.
    destruct (List.filter _ _); [reflexivity|discriminate].
Qed.

Lemma resetAllCards_counter_ok c o r w s :
  counter_ok s → counter_ok (resetAllCards c o r w s).
Proof.
  intros Hc. unfold resetAllCards. destruct c; [|exact Hc].
  destruct o as [m|[]]; try (revert Hc; apply counter_ok_same; reflexivity).
  apply loadData_counter_ok; reflexivity.
Qed.

Lemma playAudioFromApi_counter_view o text item s :
  counter_view (playAudioFromApi o text item s) = counter_view s.
Proof.
  pose proof (playAudioFromApi_controls o text item s) as Hctl.
  apply page_counter_view; [apply playAudioFromApi_page_kept| |];
    unfold controls in Hctl; congruence.
Qed.

Lemma confirmation_timeouts_page {A} (due : list A) s :
  page (foldl (λ s _, confirmation_timeout s) s due) = page s.
Proof.
  revert s. induction due as [|x due IH]; intros s; [reflexivity|].
  cbn. rewrite IH. unfold confirmation_timeout.
  destruct (awaitingDeleteConfirmation s); reflexivity.
Qed.

(** The events of the audio element and the passing of time leave the card
    on the page as it is. *)
Lemma events_page a s :
  match a with
  | LoadedMetadata _ | TimeUpdate _ | Ended | Elapse _ => True
  | _ => False
  end →
  page (step s a) = page s.
Proof.
  destruct a; intros H; try (exfalso; exact H); clear H; cbn.
  - unfold fire_loadedmetadata.
    destruct (onloadedmetadata _) as [h|]; [|reflexivity].
    destruct (timePerWord_of _ _); reflexivity.
  - unfold fire_timeupdate, timeupdate_with.
    destruct (ontimeupdate _) as [h|]; [|reflexivity].
    destruct (cells s !! _) as [last|]; [|reflexivity].
    destruct (word_index _ _ =? last); [reflexivity|].
    destruct (at_index _ last), (_ && _); try destruct (at_index _ _); reflexivity.
  - unfold fire_ended. destruct (onended _) as [h|]; [|reflexivity].
    destruct (eh_itemElement h); reflexivity.
  - unfold elapse. cbv zeta. rewrite confirmation_timeouts_page. reflexivity.
Qed.

Lemma events_counter_view a s :
  match a with
  | LoadedMetadata _ | TimeUpdate _ | Ended | Elapse _ => True
  | _ => False
  end →
  counter_view (step s a) = counter_view s.
Proof.
  intros H.
  assert (match a with
          | FlipCard | LoadedMetadata _ | TimeUpdate _ | Ended | Elapse _ => True
          | _ => False
          end) as H' by (destruct a; first [exact H|exact I]).
  destruct (events_collection a s H') as [Hcol Hi].
  apply page_counter_view; [apply events_page, H|exact Hi|].
  unfold collection in Hcol. injection Hcol as _ _ Hf. exact Hf.
Qed.

Lemma step_counter_ok s a :
  well_formed s → counter_ok s → counter_ok (step s a).
Proof.
  intros Hwf Hc. destruct a; cbn.
  - unfold nextCard. cbv zeta. destruct (_ >? 0) eqn:Hk; [|exact Hc].
    apply nonempty_length in Hk.
    apply loadCard_counter_ok; [exact Hk|apply counter_ok_active; assumption].
  - unfold prevCard. cbv zeta. destruct (_ >? 0) eqn:Hk; [|exact Hc].
    apply nonempty_length in Hk.
    apply loadCard_counter_ok; [exact Hk|apply counter_ok_active; assumption].
  - apply markAsLearned_counter_ok; assumption.
  - apply deleteImage_counter_ok; assumption.
  - apply resetAllCards_counter_ok; assumption.
  - unfold playPhonetic. destruct (card_at _ _); [|exact Hc].
    revert Hc. apply counter_ok_same, playAudioFromApi_counter_view.
  - unfold playSingleExample. destruct (card_at _ _); [|exact Hc].
    destruct (_ !! index); [|exact Hc].
    revert Hc. apply counter_ok_same, playAudioFromApi_counter_view.
  - revert Hc. apply counter_ok_same. unfold flipCard.
    destruct (_ || _); reflexivity.
  - revert Hc. apply counter_ok_same, (events_counter_view (LoadedMetadata audioDuration)), I.
  - revert Hc. apply counter_ok_same, (events_counter_view (TimeUpdate time)), I.
  - revert Hc. apply counter_ok_same, (events_counter_view Ended), I.
  - revert Hc. apply counter_ok_same, (events_counter_view (Elapse ms)), I.
Qed.

Lemma session_counter_ok nameTag o w acts : counter_ok (session nameTag o w acts).
Proof.
  unfold session.
  assert (well_formed (loadData o w (initial nameTag))
          ∧ counter_ok (loadData o w (initial nameTag))) as H.
  { split; [apply loadData_well_formed; [apply initial_well_formed|reflexivity]|].
    apply loadData_counter_ok; reflexivity. }
  revert H. generalize (loadData o w (initial nameTag)).
  induction acts as [|a acts IH]; intros s [Hwf Hc]; [exact Hc|].
  cbn. apply IH. split; [apply step_well_formed, Hwf|apply step_counter_ok; assumption].
Qed.

(** X9. In every session the counter agrees with the state: while cards are
    active it shows the cursor plus one over the number of active cards and
    the completion message is not shown; the completion message is shown
    only with no active card, and exactly when the counter reads as
    completed; the text for an empty collection in [updateCardCounter] is
    never shown. *)
Theorem counter_shows_position
    (nameTag : string) (o : DataOutcome) (w : World) (acts : list Action) :
  let s := session nameTag o w acts in
  (filteredFlashcardsData s ≠ [] →
     cardCounter (dom s) =
       CounterAt (currentIndex s + 1) (Z.of_nat (length (filteredFlashcardsData s)))
     ∧ 1 <= currentIndex s + 1 <= Z.of_nat (length (filteredFlashcardsData s))
     ∧ completed (dom s) = false)
  ∧ (completed (dom s) = true ↔ cardCounter (dom s) = CounterCompleted)
  ∧ (completed (dom s) = true → filteredFlashcardsData s = [])
  ∧ cardCounter (dom s) ≠ CounterNoCards.
Proof.
  intros s.
  pose proof (session_counter_ok nameTag o w acts) as Hc.
  pose proof (session_well_formed nameTag o w acts) as (_ & _ & Hcur).
  fold s in Hc, Hcur. unfold counter_ok in Hc. unfold cursor_ok in Hcur.
  destruct (cardCounter (dom s)) as [|position total| |].
  - destruct Hc as [He Hcomp]. rewrite Hcomp.
    split; [intros Hne; contradiction|]. repeat split; congruence.
  - destruct Hc as (-> & -> & Hne & Hcomp). rewrite Hcomp.
    split; [intros _; split; [reflexivity|split; [specialize (Hcur Hne); lia|reflexivity]]|].
    repeat split; congruence.
  - contradiction.
  - destruct Hc as [He Hcomp]. rewrite Hcomp.
    split; [intros Hne; contradiction|]. repeat split; congruence.
Qed.

(** * Playback from request to end *)

Lemma play_begin_requests i s : requests (play_begin i s) = requests s.
Proof.
  unfold play_begin.
  destruct (isAudioPlaying s), i as [e|]; try destruct (String.eqb (tagName e) "LI");
    reflexivity.
Qed.

Lemma play_begin_flags i s :
  isAudioPlaying (play_begin i s) = false ∧ locked (play_begin i s) = true.
Proof.
  unfold play_begin.
  destruct (isAudioPlaying s), i as [e|]; try destruct (String.eqb (tagName e) "LI");
    split; reflexivity.
Qed.

Lemma play_try_requests o c text i s :
  requests (state_of (play_try o c text i s)) =
  (requests s ++ match card_at s (currentIndex s) with
                 | Some card => [speech_request text card]
                 | None => []
                 end)%list.
Proof.
  unfold play_try, play_send, play_answer.
  destruct (card_at s (currentIndex s)) as [card|]; [|cbn; rewrite app_nil_r; reflexivity].
  destruct o as [m|[e|m]|[d|m] [pb|]]; try reflexivity.
  all: destruct (success d), (truthy (audio_url d)), i; reflexivity.
Qed.

Lemma play_try_thrown o c text i b m s1 :
  play_try o c text i b = Thrown m s1 →
  isAudioPlaying s1 = isAudioPlaying b ∧ loading_audio (dom s1) = loading_audio (dom b).
Proof.
  unfold play_try, play_send, play_answer.
  destruct (card_at b (currentIndex b)) as [card|];
    [|intros H; injection H as _ <-; split; reflexivity].
  destruct o as [m'|[e|m']|[d|m'] [pb|]];
    try (intros H; injection H as _ <-; split; reflexivity).
  all: destruct (success d), (truthy (audio_url d)), i; cbn;
    intros H; try discriminate; injection H as _ <-; split; reflexivity.
Qed.

Lemma play_try_normal o c text i b s1 :
  play_try o c text i b = Normal s1 →
  speech_fails o = false
  ∧ is_Some (card_at b (currentIndex b))
  ∧ isAudioPlaying s1 = true
  ∧ paused (audioPlayer s1) = false
  ∧ locked s1 = locked b
  ∧ shown s1 = Some ("▶️ Reproduciendo...", false)
  ∧ onended (audioPlayer s1) = Some (mkEndedHandler c (uid <$> i))
  ∧ loading_audio (dom s1) = loading_audio (dom b).
Proof.
  unfold play_try, play_send, play_answer.
  destruct (card_at b (currentIndex b)) as [card|]; [|discriminate].
  destruct o as [m'|[e|m']|[d|m'] [pb|]]; try discriminate.
  all: unfold speech_fails;
    destruct (success d), (truthy (audio_url d)), i; cbn;
    intros H; try discriminate; injection H as <-; repeat split; eauto.
Qed.

Lemma play_try_no_card o c text i b :
  card_at b (currentIndex b) = None → ∃ m, play_try o c text i b = Thrown m b.
Proof. intros H. unfold play_try, play_send, play_answer. rewrite H. eauto. Qed.

Lemma play_begin_loading i s e :
  i = Some e → String.eqb (tagName e) "LI" = true →
  loading_audio (dom (play_begin i s)) = {[uid e]} ∪ loading_audio (dom s).
Proof.
  intros -> He. unfold play_begin. rewrite He.
  destruct (isAudioPlaying s); reflexivity.
Qed.

(** The outcomes of one play request. *)
Lemma playAudioFromApi_outcomes
    (o : SpeechOutcome) (text : string) (item : option Elem) (s : State) :
  let s' := playAudioFromApi o text item s in
  requests s' =
    (requests s ++ match card_at s (currentIndex s) with
                   | Some card => [speech_request text card]
                   | None => []
                   end)%list
  ∧ (∀ e, item = Some e → tagName e = "LI" → uid e ∉ loading_audio (dom s'))
  ∧ (speech_fails o = true ∨ card_at s (currentIndex s) = None →
       isAudioPlaying s' = false ∧ locked s' = false
       ∧ ∃ m, shown s' = Some ("❌ Error de TTS: " ++ m, true))
  ∧ (speech_fails o = false → is_Some (card_at s (currentIndex s)) →
       isAudioPlaying s' = true ∧ locked s' = true
       ∧ paused (audioPlayer s') = false
       ∧ shown s' = Some ("▶️ Reproduciendo...", false)
       ∧ onended (audioPlayer s') = Some (mkEndedHandler (calls s) (uid <$> item))).
Proof.
  intros s'. subst s'.
  pose proof (play_begin_requests item s) as Hreq.
  pose proof (play_begin_flags item s) as [Hplay Hlock].
  pose proof (play_try_requests o (calls s) text item (play_begin item s)) as Htry.
  pose proof (play_begin_controls item s) as Hctl.
  pose proof (play_begin_heap item s) as Hheap.
  rewrite (card_at_frame _ _ _ Hctl Hheap), (controls_currentIndex _ _ Hctl), Hreq in Htry.
  assert (card_at (play_begin item s) (currentIndex (play_begin item s))
          = card_at s (currentIndex s)) as Hcard
    by (rewrite (controls_currentIndex _ _ Hctl); apply card_at_frame; assumption).
  unfold playAudioFromApi, play_end.
  destruct (play_try o (calls s) text item (play_begin item s)) as [s1|m s1] eqn:Hres.
  - apply play_try_normal in Hres
      as (Hok & Hsome & Hp & Hpaused & Hl & Hshown & Hended & Hload).
    rewrite Hcard in Hsome. cbn [state_of] in Htry.
    split; [|split; [|split]].
    + destruct item as [e|]; [destruct (String.eqb (tagName e) "LI")|]; exact Htry.
    + intros e -> He. rewrite He. cbn. set_solver.
    + intros [Hf|Hn]; [congruence|]. rewrite Hn in Hsome. destruct Hsome; discriminate.
    + intros _ _. rewrite Hlock in Hl.
      destruct item as [e|]; [destruct (String.eqb (tagName e) "LI")|];
        repeat split; assumption.
  - pose proof Hres as Hres'. apply play_try_thrown in Hres' as [Hp Hload].
    cbn [state_of] in Htry.
    split; [|split; [|split]].
    + destruct item as [e|]; [destruct (String.eqb (tagName e) "LI")|]; exact Htry.
    + intros e -> He. rewrite He. cbn. set_solver.
    + intros _. rewrite Hplay in Hp.
      destruct item as [e|]; [destruct (String.eqb (tagName e) "LI")|];
        (split; [exact Hp|split; [reflexivity|exists m; reflexivity]]).
    + intros Hok Hsome. exfalso.
      rewrite <- Hcard in Hsome. revert Hres. clear - Hok Hsome.
      unfold play_try, play_send, play_answer. destruct Hsome as [card ->].
      destruct o as [m'|[e|m']|[d|m'] [pb|]]; try discriminate.
      unfold speech_fails in Hok. apply negb_false_iff in Hok. rewrite Hok.
      destruct item; discriminate.
Qed.

(** X10. One play request, whatever its outcome: it sends exactly one
    synthesis request, for the card under the cursor (none if there is no
    such card); it leaves no list item marked as loading its audio; if it
    fails, or there is no card, the player is not playing, the lock is
    released and an error is on display; if it succeeds the player is
    playing, the lock is held and the progress message is shown. *)
Theorem play_request_outcomes
    (o : SpeechOutcome) (text : string) (item : option Elem) (s : State) :
  let s' := playAudioFromApi o text item s in
  requests s' =
    (requests s ++ match card_at s (currentIndex s) with
                   | Some card => [speech_request text card]
                   | None => []
                   end)%list
  ∧ (∀ e, item = Some e → tagName e = "LI" → uid e ∉ loading_audio (dom s'))
  ∧ (speech_fails o = true ∨ card_at s (currentIndex s) = None →
       isAudioPlaying s' = false ∧ locked s' = false
       ∧ ∃ m, shown s' = Some ("❌ Error de TTS: " ++ m, true))
  ∧ (speech_fails o = false → is_Some (card_at s (currentIndex s)) →
       isAudioPlaying s' = true ∧ locked s' = true
       ∧ paused (audioPlayer s') = false
       ∧ shown s' = Some ("▶️ Reproduciendo...", false)
       ∧ onended (audioPlayer s') = Some (mkEndedHandler (calls s) (uid <$> item))).
Proof. exact (playAudioFromApi_outcomes o text item s). Qed.

Lemma fire_loadedmetadata_player d s :
  player_view (fire_loadedmetadata d s) = player_view s
  ∧ onended (audioPlayer (fire_loadedmetadata d s)) = onended (audioPlayer s).
Proof.
  unfold fire_loadedmetadata.
  destruct (onloadedmetadata _) as [h|]; [|split; reflexivity].
  destruct (timePerWord_of _ _); split; reflexivity.
Qed.

Lemma fire_timeupdate_player t s :
  player_view (fire_timeupdate t s) = player_view s
  ∧ onended (audioPlayer (fire_timeupdate t s)) = onended (audioPlayer s).
Proof.
  unfold fire_timeupdate, timeupdate_with.
  destruct (ontimeupdate _) as [h|]; [|split; reflexivity].
  destruct (cells s !! _) as [last|]; [|split; reflexivity].
  destruct (word_index _ _ =? last); [split; reflexivity|].
  destruct (at_index _ last), (_ && _); try destruct (at_index _ _); split; reflexivity.
Qed.

Lemma notify_player times s :
  player_view (notify s times) = player_view s
  ∧ onended (audioPlayer (notify s times)) = onended (audioPlayer s).
Proof.
  revert s. induction times as [|t times IH]; intros s; [split; reflexivity|].
  cbn. destruct (IH (fire_timeupdate t s)) as [H1 H2].
  destruct (fire_timeupdate_player t s) as [H3 H4].
  unfold notify in H1, H2. rewrite H1, H2, H3, H4. split; reflexivity.
Qed.

Lemma notify_page times s : page (notify s times) = page s.
Proof.
  revert s. induction times as [|t times IH]; intros s; [reflexivity|].
  cbn. unfold notify in IH. rewrite IH. apply (events_page (TimeUpdate t)), I.
Qed.

Lemma fire_ended_released s h :
  onended (audioPlayer s) = Some h →
  let s' := fire_ended s in
  isAudioPlaying s' = false ∧ locked s' = false
  ∧ highlighted_words s' = ∅
  ∧ shown s' = Some ("Audio finalizado.", false)
  ∧ (∀ u, eh_itemElement h = Some u → u ∉ active_example_line (dom s')).
Proof.
  intros H. cbv zeta. unfold fire_ended. rewrite H.
  destruct (eh_itemElement h) as [u|]; repeat split; try discriminate.
  - unfold highlighted_words. cbn. set_solver.
  - intros u' Hu. injection Hu as <-. cbn. set_solver.
  - unfold highlighted_words. cbn. set_solver.
Qed.

(** X11. A play request that succeeds holds the page until the end of the
    playback: from the request on, through the metadata event and any
    progress events, the player is playing, the navigation is locked and
    [flipCard] does nothing; the end of the playback stops the player,
    releases the lock, clears the highlight and the mark of the item, and
    shows the final message.  The card on the page is never touched. *)
Theorem play_until_ended
    (s : State) (card : Card) (data : SpeechData) (text : string)
    (item : option Elem) (audioDuration : option Q) (times : list Q) :
  card_at s (currentIndex s) = Some card →
  success data = true → truthy (audio_url data) = true →
  let s1 := playAudioFromApi (SpeechOk (JsonOk data) None) text item s in
  let s2 := notify (fire_loadedmetadata audioDuration s1) times in
  let s3 := fire_ended s2 in
  (isAudioPlaying s2 = true ∧ locked s2 = true ∧ paused (audioPlayer s2) = false
   ∧ flipCard s2 = s2)
  ∧ isAudioPlaying s3 = false
  ∧ locked s3 = false
  ∧ highlighted_words s3 = ∅
  ∧ shown s3 = Some ("Audio finalizado.", false)
  ∧ (∀ e, item = Some e → uid e ∉ active_example_line (dom s3))
  ∧ page s3 = page s.
Proof.
  intros Hcard Hs Hu s1 s2 s3.
  destruct (playAudioFromApi_outcomes (SpeechOk (JsonOk data) None) text item s)
    as (_ & _ & _ & Hgood).
  destruct Hgood as (Hp & Hl & Hpa & _ & Hended);
    [unfold speech_fails; rewrite Hs, Hu; reflexivity|rewrite Hcard; eauto|].
  fold s1 in Hp, Hl, Hpa, Hended.
  destruct (fire_loadedmetadata_player audioDuration s1) as [Hv1 He1].
  destruct (notify_player times (fire_loadedmetadata audioDuration s1)) as [Hv2 He2].
  fold s2 in Hv2, He2. rewrite Hv1 in Hv2. rewrite He1, Hended in He2.
  unfold player_view in Hv2. injection Hv2 as Hp2 Hpa2 Hl2 _.
  rewrite Hp in Hp2. rewrite Hpa in Hpa2. rewrite Hl in Hl2.
  destruct (fire_ended_released s2 _ He2) as (H1 & H2 & H3 & H4 & H5).
  fold s3 in H1, H2, H3, H4, H5.
  split; [|split; [|split; [|split; [|split; [|split]]]]];
    try assumption.
  - split; [exact Hp2|split; [exact Hl2|split; [exact Hpa2|]]].
    unfold flipCard. rewrite Hp2. reflexivity.
  - intros e ->. apply H5. reflexivity.
  - transitivity (page s2); [exact (events_page Ended s2 I)|].
    unfold s2. rewrite notify_page.
    transitivity (page s1);
      [exact (events_page (LoadedMetadata audioDuration) s1 I)|].
    apply playAudioFromApi_page_kept.
Qed.

Lemma play_until_ended_witness :
  let s := example_page in
  let data := mkSpeechData true (Some "/card_audio/phrasal_verbs/daily/a.mp3") in
  let item := Some (nameElement (dom s)) in
  let s1 := playAudioFromApi (SpeechOk (JsonOk data) None) "get up" item s in
  let s2 := notify (fire_loadedmetadata (Some (2 # 1)%Q) s1) [(1 # 2)%Q; (3 # 2)%Q] in
  let s3 := fire_ended s2 in
  card_at s (currentIndex s) = Some (set_id 0 card_A)
  ∧ isAudioPlaying s2 = true ∧ flipCard s2 = s2
  ∧ isAudioPlaying s3 = false ∧ locked s3 = false
  ∧ highlighted_words s3 = ∅
  ∧ page s3 = page s.
Proof.
  cbv zeta.
  assert (card_at example_page (currentIndex example_page) = Some (set_id 0 card_A))
    as Hcard by (vm_compute; reflexivity).
  destruct (play_until_ended example_page (set_id 0 card_A)
              (mkSpeechData true (Some "/card_audio/phrasal_verbs/daily/a.mp3"))
              "get up" (Some (nameElement (dom example_page)))
              (Some (2 # 1)%Q) [(1 # 2)%Q; (3 # 2)%Q] Hcard eq_refl eq_refl)
    as ((H1 & _ & _ & H2) & H3 & H4 & H5 & _ & _ & H6).
  exact (conj Hcard (conj H1 (conj H2 (conj H3 (conj H4 (conj H5 H6)))))).
Defined.

Lemma fire_timeupdate_cell t s h last :
  ontimeupdate (audioPlayer s) = Some h →
  cells s !! th_call h = Some last →
  ontimeupdate (audioPlayer (fire_timeupdate t s)) = Some h
  ∧ cells (fire_timeupdate t s) !! th_call h = Some (word_index t (th_timePerWord h)).
Proof.
  intros Hh Hc. unfold fire_timeupdate, timeupdate_with. rewrite Hh, Hc.
  destruct (word_index _ _ =? last) eqn:He.
  - apply Z.eqb_eq in He. rewrite He. split; assumption.
  - destruct (at_index _ last), (_ && _); try destruct (at_index _ _);
      (split; [exact Hh|cbn; apply lookup_insert_eq]).
Qed.

(** X12. The progress handler acts only when the word changes: a progress
    event at a time that falls in the same word as the event before it leaves
    the state as it is, so the highlight classes are touched once per
    word and not once per event. *)
Theorem timeupdate_same_word (s : State) (h : TimeHandler) (t t' : Q) :
  ontimeupdate (audioPlayer s) = Some h →
  word_index t' (th_timePerWord h) = word_index t (th_timePerWord h) →
  fire_timeupdate t' (fire_timeupdate t s) = fire_timeupdate t s.
Proof.
  intros Hh Hw.
  destruct (cells s !! th_call h) as [last|] eqn:Hc.
  - destruct (fire_timeupdate_cell t s h last Hh Hc) as [Hh1 Hc1].
    unfold fire_timeupdate at 1; unfold timeupdate_with. rewrite Hh1, Hc1, Hw, Z.eqb_refl. reflexivity.
  - assert (fire_timeupdate t s = s) as ->
      by (unfold fire_timeupdate, timeupdate_with; rewrite Hh, Hc; reflexivity).
    unfold fire_timeupdate, timeupdate_with. rewrite Hh, Hc. reflexivity.
Qed.

Lemma timeupdate_same_word_witness :
  let s := example_playing in
  let t := (1 # 2)%Q in
  let t' := (3 # 4)%Q in
  ontimeupdate (audioPlayer s) = Some example_handler
  ∧ word_index t' (th_timePerWord example_handler)
    = word_index t (th_timePerWord example_handler)
  ∧ highlighted_words (fire_timeupdate t s) = {[1%nat]}
  ∧ fire_timeupdate t' (fire_timeupdate t s) = fire_timeupdate t s.
Proof.
  cbv zeta.
  assert (ontimeupdate (audioPlayer example_playing) = Some example_handler) as Hh
    by (vm_compute; reflexivity).
  assert (word_index (3 # 4) (th_timePerWord example_handler)
          = word_index (1 # 2) (th_timePerWord example_handler)) as Hw
    by (vm_compute; reflexivity).
  split; [exact Hh|]. split; [exact Hw|]. split; [vm_compute; reflexivity|].
  apply (timeupdate_same_word example_playing example_handler _ _ Hh Hw).
Defined.

(** * What loading a card asks of the server *)

Lemma upd_dom_data f s : data_view (upd_dom f s) = data_view s.
Proof. reflexivity. Qed.

Lemma data_view_card_at s s' :
  data_view s' = data_view s →
  card_at s' (currentIndex s') = card_at s (currentIndex s)
  ∧ requests s' = requests s.
Proof.
  unfold data_view, card_at. intros H. injection H as -> -> -> ->.
  split; reflexivity.
Qed.

Lemma data_view_fields s' h f i r :
  data_view s' = (h, f, i, r) →
  heap s' = h ∧ filteredFlashcardsData s' = f ∧ currentIndex s' = i
  ∧ requests s' = r.
Proof. unfold data_view. intros H. injection H as H1 H2 H3 H4. auto. Qed.

Lemma generateAndLoadImage_requests o card s :
  requests (generateAndLoadImage o card s) = (requests s ++ generate_request card)%list.
Proof.
  unfold generateAndLoadImage, generate_request.
  destruct (definitions card) as [|def defs]; [cbn; rewrite app_nil_r; reflexivity|].
  destruct o as [m|[e|m]|[d|m] img]; try reflexivity.
  cbv zeta. destruct (at_index _ _); [|reflexivity].
  destruct img; reflexivity.
Qed.

(** The player is not touched by the generation of an image. *)
Lemma generateAndLoadImage_player o card s :
  isAudioPlaying (generateAndLoadImage o card s) = isAudioPlaying s
  ∧ audioPlayer (generateAndLoadImage o card s) = audioPlayer s.
Proof.
  unfold generateAndLoadImage.
  destruct (definitions card) as [|def defs]; [split; reflexivity|].
  destruct o as [m|[e|m]|[d|m] img]; try (split; reflexivity).
  cbv zeta. destruct (at_index _ _); [|split; reflexivity].
  destruct img; split; reflexivity.
Qed.

Lemma loadCard_cases w index autoPlay s card :
  card_at s index = Some card →
  loadCard w index autoPlay s =
  if back_renders w card then
    if truthy (imagePath card) then
      match cachedImage w with
      | ImageLoads =>
          if autoPlay
          then playAudioFromApi (speech w) (name card)
                 (Some (nameElement (dom (loadCard_ready index card s))))
                 (loadCard_ready index card s)
          else loadCard_ready index card s
      | ImageFails =>
          generateAndLoadImage (generation w) card (loadCard_rendered index card s)
      end
    else generateAndLoadImage (generation w) card (loadCard_rendered index card s)
  else loadCard_front index card s.
Proof.
  intros Hcard. unfold loadCard.
  assert ((length (filteredFlashcardsData s) =? 0)%nat = false) as ->
    by (pose proof (card_at_nonempty _ _ _ Hcard);
        destruct (filteredFlashcardsData s); [congruence|reflexivity]).
  cbv zeta.
  match goal with |- context [card_at ?s0 index] =>
    assert (card_at s0 index = Some card) as ->
      by (rewrite <- Hcard; clear;
          destruct s as [? ? ? ? ? [] ? [] ? ? ? ? ? ? ?]; reflexivity)
  end.
  unfold renderBackCard. destruct (back_renders w card); reflexivity.
Qed.

Lemma loadCard_rendered_front index card s :
  loadCard_rendered index card s
  = upd_dom (λ d,
      set_spinnerShown true
        (set_deleteShown false (set_imgVisible false (set_imgSrc "" d))))
      (loadCard_front index card s).
Proof. reflexivity. Qed.

Lemma loadCard_front_data index card s :
  data_view (loadCard_front index card s)
  = (heap s, filteredFlashcardsData s, index, requests s).
Proof.
  unfold loadCard_front.
  destruct s as [? ? ? ? ? [] ? [] ? ? ? ? ? ? ?]; reflexivity.
Qed.

Lemma loadCard_rendered_data index card s :
  data_view (loadCard_rendered index card s)
  = (heap s, filteredFlashcardsData s, index, requests s).
Proof.
  unfold loadCard_rendered.
  destruct s as [? ? ? ? ? [] ? [] ? ? ? ? ? ? ?]; reflexivity.
Qed.

Lemma loadCard_ready_data index card s :
  data_view (loadCard_ready index card s)
  = (heap s, filteredFlashcardsData s, index, requests s).
Proof.
  rewrite <- (loadCard_rendered_data index card s).
  unfold loadCard_ready. cbv zeta. unfold toggleNavigation, showAppMessage.
  rewrite !upd_dom_data. reflexivity.
Qed.

Lemma loadCard_sends_requests w index autoPlay s card :
  card_at s index = Some card →
  requests (loadCard w index autoPlay s)
  = (requests s ++ loadCard_sends w autoPlay card)%list.
Proof.
  intros Hcard. rewrite (loadCard_cases _ _ _ _ _ Hcard). unfold loadCard_sends.
  destruct (data_view_fields _ _ _ _ _ (loadCard_rendered_data index card s))
    as (_ & _ & _ & Hrr).
  destruct (data_view_fields _ _ _ _ _ (loadCard_ready_data index card s))
    as (Hyh & Hyf & Hyi & Hyr).
  assert (card_at (loadCard_ready index card s)
            (currentIndex (loadCard_ready index card s)) = Some card) as Hyc
    by (rewrite <- Hcard; unfold card_at; rewrite Hyh, Hyf, Hyi; reflexivity).
  destruct (back_renders w card);
    [|destruct (data_view_fields _ _ _ _ _ (loadCard_front_data index card s))
        as (_ & _ & _ & ->); rewrite app_nil_r; reflexivity].
  destruct (truthy (imagePath card)); [destruct (cachedImage w)|].
  - destruct autoPlay; [|rewrite Hyr, app_nil_r; reflexivity].
    destruct (playAudioFromApi_outcomes (speech w) (name card)
                (Some (nameElement (dom (loadCard_ready index card s))))
                (loadCard_ready index card s)) as (Hreq & _).
    rewrite Hreq, Hyc, Hyr. reflexivity.
  - rewrite generateAndLoadImage_requests, Hrr. reflexivity.
  - rewrite generateAndLoadImage_requests, Hrr. reflexivity.
Qed.

(** X13. Loading a card sends at most one request.  When [renderBackCard]
    throws on the name of the card, nothing is sent.  When it returns, the
    image of the card alone decides: when the card has an image path and
    that file loads, nothing is sent unless the name is to be played, and
    then it is the one synthesis request for the name; otherwise it is the
    one generation request for the first definition of the card (none for a
    card without definitions), and no synthesis request follows it, whatever
    the outcome of the generation. *)
Theorem loadCard_requests
    (w : World) (index : Z) (autoPlay : bool) (s : State) (card : Card) :
  card_at s index = Some card →
  let s' := loadCard w index autoPlay s in
  requests s' = (requests s ++ loadCard_sends w autoPlay card)%list
  ∧ (length (loadCard_sends w autoPlay card) ≤ 1)%nat
  ∧ (back_renders w card = false → loadCard_sends w autoPlay card = [])
  ∧ (back_renders w card = true →
     truthy (imagePath card) = false ∨ cachedImage w = ImageFails →
       loadCard_sends w autoPlay card = generate_request card)
  ∧ (back_renders w card = true →
     truthy (imagePath card) = true → cachedImage w = ImageLoads →
       loadCard_sends w autoPlay card
       = if autoPlay then [speech_request (name card) card] else [])
  ∧ (autoPlay = false → ∀ r, In r (loadCard_sends w autoPlay card) →
       ∃ prompt, r = PostGenerateImage (id card) 0 prompt).
Proof.
  intros Hcard s'. split; [apply loadCard_sends_requests, Hcard|].
  unfold loadCard_sends, generate_request.
  split; [|split; [|split; [|split]]].
  - destruct (back_renders w card), (truthy (imagePath card)), (cachedImage w),
      autoPlay, (definitions card); cbn; lia.
  - intros ->. reflexivity.
  - intros -> [->| ->]; [reflexivity|]. destruct (truthy _); reflexivity.
  - intros -> -> ->. reflexivity.
  - intros -> r Hin.
    destruct (back_renders w card), (truthy (imagePath card)), (cachedImage w),
      (definitions card) as [|def defs];
      cbn in Hin; try contradiction; destruct Hin as [<-|[]]; eauto.
Qed.

Lemma loadCard_requests_witness :
  let s := example_page in
  let card := set_id 1 card_B in
  let s' := loadCard example_world 1 true s in
  card_at s 1 = Some card
  ∧ requests s' = (requests s ++ loadCard_sends example_world true card)%list
  ∧ loadCard_sends example_world true card
    = [PostGenerateImage 1 0
         (image_prompt card
            (mkCardDefinition "ceder" "She never gives in" "Ella nunca cede" None))].
Proof.
  cbv zeta.
  assert (card_at example_page 1 = Some (set_id 1 card_B)) as Hcard
    by (vm_compute; reflexivity).
  destruct (loadCard_requests example_world 1 true example_page _ Hcard) as (H1 & _).
  split; [exact Hcard|]. split; [exact H1|]. reflexivity.
Defined.

(** X14. [loadCard] pauses a playback in progress but keeps the playing
    flag: loading, while a playback is in progress, a card whose image has
    to be generated leaves the player paused and the flag set, so that
    [flipCard] does nothing on the new card. *)
Theorem loadCard_keeps_playing_flag
    (w : World) (index : Z) (autoPlay : bool) (s : State) (card : Card) :
  card_at s index = Some card →
  isAudioPlaying s = true →
  truthy (imagePath card) = false ∨ cachedImage w = ImageFails →
  let s' := loadCard w index autoPlay s in
  paused (audioPlayer s') = true
  ∧ isAudioPlaying s' = true
  ∧ flipCard s' = s'
  ∧ onended (audioPlayer s') = onended (audioPlayer s)
  ∧ ontimeupdate (audioPlayer s') = ontimeupdate (audioPlayer s).
Proof.
  intros Hcard Hplay Himg s'.
  assert (isAudioPlaying (loadCard_front index card s) = true
          ∧ audioPlayer (loadCard_front index card s)
            = set_paused true (audioPlayer s)) as [Hp0 Ha0].
  { unfold loadCard_front. revert Hplay. clear.
    destruct s as [? ? ? ? ? playing ? [] ? ? ? ? ? ? ?]; intros Hplay;
      change (playing = true) in Hplay; subst; split; reflexivity. }
  assert (isAudioPlaying (loadCard_rendered index card s) = true
          ∧ audioPlayer (loadCard_rendered index card s)
            = set_paused true (audioPlayer s)) as [Hp' Ha'].
  { unfold loadCard_rendered. revert Hplay. clear.
    destruct s as [? ? ? ? ? playing ? [] ? ? ? ? ? ? ?]; intros Hplay;
      change (playing = true) in Hplay; subst; split; reflexivity. }
  assert (isAudioPlaying s' = true
          ∧ audioPlayer s' = set_paused true (audioPlayer s)) as [Hp Ha].
  { unfold s'. rewrite (loadCard_cases _ _ _ _ _ Hcard).
    destruct (back_renders w card); [|split; assumption].
    destruct (generateAndLoadImage_player (generation w) card
                (loadCard_rendered index card s)) as [Hp Ha].
    rewrite Hp' in Hp. rewrite Ha' in Ha.
    destruct Himg as [-> | ->]; [split; assumption|].
    destruct (truthy _); split; assumption. }
  split; [rewrite Ha; reflexivity|]. split; [exact Hp|].
  split; [unfold flipCard; rewrite Hp; reflexivity|].
  rewrite Ha. split; reflexivity.
Qed.

Lemma loadCard_keeps_playing_flag_witness :
  let s := example_playing in
  let card := set_id 1 card_B in
  let s' := loadCard example_world 1 true s in
  card_at s 1 = Some card
  ∧ isAudioPlaying s = true
  ∧ (truthy (imagePath card) = false ∨ cachedImage example_world = ImageFails)
  ∧ paused (audioPlayer s') = true
  ∧ isAudioPlaying s' = true
  ∧ flipCard s' = s'.
Proof.
  cbv zeta.
  assert (card_at example_playing 1 = Some (set_id 1 card_B)) as Hcard
    by (vm_compute; reflexivity).
  assert (isAudioPlaying example_playing = true) as Hplay by (vm_compute; reflexivity).
  assert (truthy (imagePath (set_id 1 card_B)) = false
          ∨ cachedImage example_world = ImageFails) as Himg by (left; reflexivity).
  destruct (loadCard_keeps_playing_flag example_world 1 true example_playing _
              Hcard Hplay Himg) as (H1 & H2 & H3 & _).
  exact (conj Hcard (conj Hplay (conj Himg (conj H1 (conj H2 H3))))).
Defined.

(** ** Deleting an image *)

Lemma delete_done_data l card s :
  data_view (delete_done l card s)
  = (alter (set_imagePath None) l (heap s), filteredFlashcardsData s,
     currentIndex s, (requests s ++ [DeleteImage (id card) 0])%list).
Proof.
  unfold delete_done. destruct s as [? ? ? ? ? ? ? [] ? ? ? ? ? ? ?]; reflexivity.
Qed.

Lemma deleteImage_confirmed w s l card :
  awaitingDeleteConfirmation s = true →
  at_index (filteredFlashcardsData s) (currentIndex s) = Some l →
  heap s !! l = Some card →
  deleteImage (Responded true) w s
  = loadCard w (currentIndex s) true (delete_done l card s).
Proof.
  intros Ha Hl Hh. unfold deleteImage. rewrite Ha. cbv zeta.
  match goal with |- context [at_index ?f ?i] =>
    assert (at_index f i = Some l) as ->
      by (rewrite <- Hl; clear;
          destruct s as [? ? ? ? ? ? ? [] ? ? ? ? ? ? ?]; reflexivity)
  end.
  match goal with |- context [card_at ?s0 ?i] =>
    assert (card_at s0 i = Some card) as ->
      by (rewrite <- Hh; revert Hl; clear; unfold card_at;
          destruct s as [? ? ? ? ? ? ? [] ? ? ? ? ? ? ?]; cbn;
          intros ->; reflexivity)
  end.
  unfold report, delete_done.
  destruct s as [? ? ? ? ? ? ? [] ? ? ? ? ? ? ?]; reflexivity.
Qed.

Lemma generateAndLoadImage_heap_exact o card s l :
  at_index (filteredFlashcardsData s) (currentIndex s) = Some l →
  heap (generateAndLoadImage o card s)
  = match definitions card, o with
    | _ :: _, GenerateOk (JsonOk data) _ => alter (set_imagePath (path data)) l (heap s)
    | _, _ => heap s
    end.
Proof.
  intros Hl. unfold generateAndLoadImage.
  destruct (definitions card) as [|def defs]; [reflexivity|].
  destruct o as [m|[e|m]|[d|m] img]; try reflexivity.
  cbv zeta.
  match goal with |- context [at_index ?f ?i] =>
    change (at_index f i)
      with (at_index (filteredFlashcardsData s) (currentIndex s))
  end.
  rewrite Hl. destruct img; reflexivity.
Qed.

Lemma generate_request_imagePath p card :
  generate_request (set_imagePath p card) = generate_request card.
Proof. destruct card. reflexivity. Qed.

Lemma alter_imagePath_twice p l (h : list Card) :
  alter (set_imagePath p) l (alter (set_imagePath None) l h)
  = alter (set_imagePath p) l h.
Proof.
  rewrite list_alter_alter_eq. apply list_alter_ext; [|reflexivity].
  intros card _. destruct card. reflexivity.
Qed.

Lemma back_renders_imagePath w p card :
  back_renders w (set_imagePath p card) = back_renders w card.
Proof. destruct card. reflexivity. Qed.

(** X15. A confirmed deletion that the server accepts reloads the card, and
    on a card whose back renders it is followed by a regeneration and by
    nothing else: the requests sent are the deletion and then the generation
    request for the same card; the card under the cursor, and no other card,
    changes, and only in its image path, which ends as the path the
    generation returned, or as no path when the generation gave none.  When
    [renderBackCard] throws on the name of the card, the deletion is the only
    request and the card ends without a path.  In both cases the cursor and
    the active cards stay. *)
Theorem confirmed_delete_regenerates (w : World) (s : State) (l : nat) (card : Card) :
  awaitingDeleteConfirmation s = true →
  at_index (filteredFlashcardsData s) (currentIndex s) = Some l →
  heap s !! l = Some card →
  let s' := deleteImage (Responded true) w s in
  let regenerated :=
    if back_renders w card then new_imagePath (generation w) card else None in
  requests s'
  = (requests s ++ DeleteImage (id card) 0
       :: (if back_renders w card then generate_request card else []))%list
  ∧ heap s' = alter (set_imagePath regenerated) l (heap s)
  ∧ heap s' !! l = Some (set_imagePath regenerated card)
  ∧ filteredFlashcardsData s' = filteredFlashcardsData s
  ∧ currentIndex s' = currentIndex s
  ∧ awaitingDeleteConfirmation s' = false.
Proof.
  intros Ha Hl Hh s' regenerated. unfold s'.
  rewrite (deleteImage_confirmed w s l card Ha Hl Hh).
  destruct (data_view_fields _ _ _ _ _ (delete_done_data l card s))
    as (Hdh & Hdf & Hdi & Hdr).
  set (sD := delete_done l card s) in *.
  assert (card_at sD (currentIndex s) = Some (set_imagePath None card)) as Hcard.
  { unfold card_at. rewrite Hdf, Hl, Hdh, list_lookup_alter_eq, Hh. reflexivity. }
  assert (filteredFlashcardsData sD ≠ []) as Hne
    by (eapply card_at_nonempty, Hcard).
  pose proof (loadCard_controls w (currentIndex s) true sD) as Hctl.
  assert ((length (filteredFlashcardsData sD) =? 0)%nat = false) as Hlen
    by (destruct (filteredFlashcardsData sD); [congruence|reflexivity]).
  rewrite Hlen in Hctl. unfold controls, controls_loaded in Hctl.
  injection Hctl as _ Hf Hi Haw _ _ _ _ _.
  rewrite (loadCard_sends_requests _ _ _ _ _ Hcard) at 1.
  assert (loadCard_sends w true (set_imagePath None card)
          = if back_renders w card then generate_request card else []) as ->
    by (unfold loadCard_sends; rewrite back_renders_imagePath;
        destruct card; reflexivity).
  rewrite Hdr, <- app_assoc.
  split; [reflexivity|].
  assert (heap (loadCard w (currentIndex s) true sD)
          = alter (set_imagePath regenerated) l (heap s)) as Hheap.
  { rewrite (loadCard_cases _ _ _ _ _ Hcard). rewrite back_renders_imagePath.
    subst regenerated. destruct (back_renders w card).
    - assert (truthy (imagePath (set_imagePath None card)) = false) as ->
        by (destruct card; reflexivity).
      destruct (data_view_fields _ _ _ _ _
                  (loadCard_rendered_data (currentIndex s) (set_imagePath None card) sD))
        as (Hrh & Hrf & Hri & _).
      rewrite (generateAndLoadImage_heap_exact _ _ _ l)
        by (rewrite Hrf, Hri, Hdf; exact Hl).
      rewrite Hrh, Hdh. unfold new_imagePath.
      assert (definitions (set_imagePath None card) = definitions card) as ->
        by (destruct card; reflexivity).
      destruct (definitions card) as [|def defs]; [reflexivity|].
      destruct (generation w) as [m|[e|m]|[d|m] img]; try reflexivity.
      apply alter_imagePath_twice.
    - destruct (data_view_fields _ _ _ _ _
                  (loadCard_front_data (currentIndex s) (set_imagePath None card) sD))
        as (Hrh & _). rewrite Hrh, Hdh. reflexivity. }
  split; [exact Hheap|].
  split; [rewrite Hheap, list_lookup_alter_eq, Hh; reflexivity|].
  split; [rewrite Hf; exact Hdf|]. split; [exact Hi|exact Haw].
Qed.

Lemma confirmed_delete_regenerates_witness :
  let s := deleteImage (Responded true) example_world example_page in
  let card := set_id 0 card_A in
  let s' := deleteImage (Responded true) example_world s in
  awaitingDeleteConfirmation s = true
  ∧ at_index (filteredFlashcardsData s) (currentIndex s) = Some 0%nat
  ∧ heap s !! 0%nat = Some card
  ∧ requests s' =
      (requests s ++ DeleteImage 0 0 :: generate_request card)%list
  ∧ heap s' !! 0%nat = Some (set_imagePath (Some "/card_images/new.png") card).
Proof.
  cbv zeta.
  assert (awaitingDeleteConfirmation
            (deleteImage (Responded true) example_world example_page) = true) as Ha
    by (vm_compute; reflexivity).
  assert (at_index (filteredFlashcardsData
                      (deleteImage (Responded true) example_world example_page))
            (currentIndex (deleteImage (Responded true) example_world example_page))
          = Some 0%nat) as Hl by (vm_compute; reflexivity).
  assert (heap (deleteImage (Responded true) example_world example_page) !! 0%nat
          = Some (set_id 0 card_A)) as Hh by (vm_compute; reflexivity).
  destruct (confirmed_delete_regenerates example_world _ _ _ Ha Hl Hh)
    as (H1 & _ & H2 & _).
  exact (conj Ha (conj Hl (conj Hh (conj H1 H2)))).
Defined.

(** * Loading the data *)

Lemma cards_of_appended (h d : list Card) :
  omap (λ l, (h ++ d)%list !! l) (seq (length h) (length d)) = d.
Proof.
  revert h. induction d as [|x d IH]; intros h; [reflexivity|].
  cbn [length seq omap list_omap].
  assert ((h ++ x :: d)%list !! length h = Some x) as ->
    by (rewrite lookup_app_r by lia; rewrite Nat.sub_diag; reflexivity).
  f_equal. specialize (IH (h ++ [x])%list).
  rewrite length_app, <- app_assoc in IH. cbn in IH.
  rewrite Nat.add_1_r in IH. exact IH.
Qed.

Lemma images_only_cards_of (h h' : list Card) (refs : list nat) :
  images_only h h' →
  set_imagePath None <$> omap (λ l, h' !! l) refs
  = set_imagePath None <$> omap (λ l, h !! l) refs.
Proof.
  intros H. induction refs as [|r refs IH]; [reflexivity|].
  cbn [omap list_omap]. pose proof (images_only_lookup h h' r H) as Hr.
  destruct (h' !! r) as [c'|], (h !! r) as [c|]; try discriminate.
  - assert (set_imagePath None c' = set_imagePath None c) as E
      by (apply (inj Some); exact Hr).
    rewrite !fmap_cons, E, IH. reflexivity.
  - exact IH.
Qed.

Lemma with_ids_length data : length (with_ids data) = length data.
Proof. unfold with_ids. apply length_imap. Qed.

Lemma loadData_heap data w s :
  images_only (heap s ++ with_ids data)%list
              (heap (loadData (DataOk (JsonOk data)) w s))
  ∧ masterFlashcardsData (loadData (DataOk (JsonOk data)) w s)
    = seq (length (heap s)) (length data).
Proof.
  unfold loadData. cbv zeta.
  destruct (0 <? length _)%nat.
  - rewrite loadCard_master. split; [|reflexivity].
    match goal with |- images_only _ (heap (loadCard ?w ?i ?a ?S)) =>
      exact (loadCard_heap w i a S) end.
  - split; [exact (images_only_refl _)|reflexivity].
Qed.

(** X16. The cards are numbered by the script, not by the server: after a
    successful load the master array holds the cards received, in the order
    received, each with its position as [id] whatever [id] it came with and
    with every other field as received (but for the image path, which the
    load of the first card may set); the active array holds those of them
    that are not learned. *)
Theorem loadData_numbers_cards (data : list Card) (w : World) (s : State) :
  let s' := loadData (DataOk (JsonOk data)) w s in
  let master := cards_of s' (masterFlashcardsData s') in
  set_imagePath None <$> master = set_imagePath None <$> with_ids data
  ∧ id <$> master = Z.of_nat <$> seq 0 (length data)
  ∧ set_id 0 <$> (set_imagePath None <$> master)
    = set_id 0 <$> (set_imagePath None <$> data)
  ∧ cards_of s' (filteredFlashcardsData s')
    = List.filter (λ card, negb (learned card)) master.
Proof.
  intros s' master.
  destruct (loadData_heap data w s) as [Hheap Hmaster]. fold s' in Hheap, Hmaster.
  assert (set_imagePath None <$> master = set_imagePath None <$> with_ids data) as H1.
  { unfold master, cards_of. rewrite Hmaster.
    rewrite (images_only_cards_of _ _ _ Hheap).
    rewrite <- (with_ids_length data), cards_of_appended. reflexivity. }
  assert (∀ l : list Card, id <$> (set_imagePath None <$> l) = id <$> l) as Hid.
  { intros l. rewrite <- list_fmap_compose. apply list_fmap_ext.
    intros i [] _. reflexivity. }
  split; [exact H1|]. split; [|split].
  - rewrite <- Hid, H1, Hid. unfold with_ids.
    apply list_eq. intros i. rewrite !list_lookup_fmap, list_lookup_imap.
    destruct (data !! i) as [c|] eqn:Hc; cbn.
    + rewrite lookup_seq_lt by (eapply lookup_lt_Some, Hc). destruct c; reflexivity.
    + rewrite lookup_seq_ge by (apply lookup_ge_None, Hc). reflexivity.
  - rewrite H1. unfold with_ids.
    apply list_eq. intros i. rewrite !list_lookup_fmap, list_lookup_imap.
    destruct (data !! i) as [c|]; [destruct c|]; reflexivity.
  - unfold master.
    assert (filteredFlashcardsData s'
            = List.filter (unlearned (heap s')) (masterFlashcardsData s')) as ->.
    { unfold s', loadData. cbv zeta.
      destruct (0 <? length _)%nat.
      - rewrite loadCard_filtered, loadCard_master.
        cbn [filteredFlashcardsData set_filteredFlashcardsData masterFlashcardsData
             set_masterFlashcardsData set_heap heap].
        apply filter_ext_all. intros l.
        symmetry. apply images_only_unlearned.
        match goal with |- images_only _ (heap (loadCard ?w ?i ?a ?S)) =>
          exact (loadCard_heap w i a S) end.
      - reflexivity. }
    apply cards_of_filter.
Qed.

(** * One highlighted word *)

Lemma page_elements s s' : page s' = page s → elements s' = elements s.
Proof.
  unfold page, elements. intros H. injection H as _ _ _ H1 H2 H3.
  rewrite H1, H2, H3. reflexivity.
Qed.

Lemma marks_fields s ontime onmeta c hw :
  marks s = (ontime, onmeta, c, hw) →
  ontimeupdate (audioPlayer s) = ontime
  ∧ onloadedmetadata (audioPlayer s) = onmeta
  ∧ cells s = c
  ∧ highlighted_word (dom s) = hw.
Proof. unfold marks. intros H. injection H as H1 H2 H3 H4. auto. Qed.

Lemma elements_fields s nameEl items next :
  elements s = (nameEl, items, next) →
  nameElement (dom s) = nameEl ∧ exampleItems (dom s) = items
  ∧ nextUid (dom s) = next.
Proof. unfold elements. intros H. injection H as H1 H2 H3. auto. Qed.

Lemma highlight_ok_same s s' :
  marks s' = marks s → elements s' = elements s →
  highlight_ok s → highlight_ok s'.
Proof.
  unfold marks, elements, highlight_ok, highlighted_words, attached.
  intros Hm He. injection Hm as H1 H2 H3 H4. injection He as H5 H6 H7.
  rewrite H1, H2, H3, H4, H5, H6, H7. exact (λ H, H).
Qed.

Lemma highlighted_words_same s s' :
  marks s' = marks s → elements s' = elements s →
  highlighted_words s' = highlighted_words s.
Proof.
  unfold marks, elements, highlighted_words, attached.
  intros Hm He. injection Hm as _ _ _ H4. injection He as H5 H6 _.
  rewrite H4, H5, H6. reflexivity.
Qed.

(** ** Play requests *)

Lemma play_begin_marks i s :
  marks (play_begin i s)
  = (None, onloadedmetadata (audioPlayer s), cells s,
     highlighted_word (dom s) ∖ attached (dom s)).
Proof.
  pose proof (play_begin_audio i s) as Hx. cbv zeta in Hx.
  destruct Hx as (H1 & H2 & _ & _ & _ & _ & H3).
  pose proof (play_begin_page i s) as Hy. cbv zeta in Hy.
  destruct Hy as (_ & H4 & _).
  unfold marks. rewrite H1, H2, H3, H4. reflexivity.
Qed.

Lemma play_begin_highlight_ok i s :
  highlight_ok s →
  highlight_ok (play_begin i s)
  ∧ ontimeupdate (audioPlayer (play_begin i s)) = None
  ∧ highlighted_words (play_begin i s) = ∅.
Proof.
  intros (Ha & Hb & Hc & Hd & He & Hf & Hg & Hh).
  pose proof (play_begin_marks i s) as Hm.
  pose proof (page_elements _ _ (play_begin_page_kept i s)) as Hel.
  apply marks_fields in Hm as (H1 & H2 & H3 & H4).
  apply elements_fields in Hel as (H5 & H6 & H7).
  assert (highlighted_words (play_begin i s) = ∅) as Hempty.
  { unfold highlighted_words, attached. rewrite H4, H5, H6.
    unfold attached. set_solver. }
  split; [|split; [exact H1|exact Hempty]].
  unfold highlight_ok. rewrite H1, H2, H4, H5, H6, H7.
  split; [exact Ha|]. split; [exact Hb|]. split; [exact Hc|]. split; [exact Hd|].
  split; [intros u Hu; apply He; set_solver|]. split; [exact Hf|].
  split; [discriminate|]. left. exact Hempty.
Qed.

Lemma play_try_meta o call text item b :
  let s := state_of (play_try o call text item b) in
  onloadedmetadata (audioPlayer s) = onloadedmetadata (audioPlayer b)
  ∨ ∃ e, item = Some e
         ∧ onloadedmetadata (audioPlayer s) = Some (mkMetaHandler call (wordSpans_of e)).
Proof.
  cbv zeta. unfold play_try, play_send, play_answer.
  destruct (card_at b (currentIndex b)) as [card|]; [|left; reflexivity].
  destruct o as [m|[e|m]|[d|m] [pb|]]; try (left; reflexivity).
  all: destruct (success d), (truthy (audio_url d)); try (left; reflexivity).
  all: destruct item as [e|]; [right; exists e; split; reflexivity|left; reflexivity].
Qed.

Lemma play_try_highlight_ok o call text item b :
  highlight_ok b → item_on_page b item →
  ontimeupdate (audioPlayer b) = None → highlighted_words b = ∅ →
  highlight_ok (state_of (play_try o call text item b)).
Proof.
  intros (Ha & Hb & Hc & Hd & He & Hf & Hg & Hh) Hitem Hnone Hempty.
  pose proof (play_try_page o call text item b) as Hx. cbv zeta in Hx.
  destruct Hx as (H1 & H4 & Hatt).
  pose proof (page_elements _ _ (play_try_page_kept o call text item b)) as Hel.
  apply elements_fields in Hel as (H5 & H6 & H7).
  unfold highlight_ok, highlighted_words. rewrite H1, H4, Hatt, H5, H6, H7, Hnone.
  split; [exact Ha|]. split; [exact Hb|]. split; [exact Hc|]. split; [exact Hd|].
  split; [exact He|]. split; [|split; [discriminate|left; exact Hempty]].
  intros mh Hmh.
  destruct (play_try_meta o call text item b) as [Hsame|(e & -> & Hnew)].
  - apply Hf. rewrite <- Hsame. exact Hmh.
  - rewrite Hnew in Hmh. injection Hmh as <-. cbn [mh_wordSpans].
    destruct (Hitem e eq_refl) as [->|Hin]; [exact Hc|exact (Hd e Hin)].
Qed.

Lemma playAudioFromApi_marks o text item s :
  let s1 := state_of (play_try o (calls s) text item (play_begin item s)) in
  marks (playAudioFromApi o text item s) = marks s1
  ∧ elements (playAudioFromApi o text item s) = elements s1.
Proof.
  cbv zeta. unfold playAudioFromApi, play_end.
  destruct (play_try _ _ _ _ _) as [s1|m s1], item as [e|];
    try destruct (String.eqb (tagName e) "LI"); split; reflexivity.
Qed.

Lemma playAudioFromApi_highlight_ok o text item s :
  highlight_ok s → item_on_page s item →
  highlight_ok (playAudioFromApi o text item s).
Proof.
  intros Hok Hitem.
  destruct (playAudioFromApi_marks o text item s) as [Hm He].
  apply (highlight_ok_same _ _ Hm He).
  destruct (play_begin_highlight_ok item s Hok) as (Hb & Hnone & Hempty).
  apply play_try_highlight_ok; try assumption.
  pose proof (page_elements _ _ (play_begin_page_kept item s)) as Hel.
  apply elements_fields in Hel as (H5 & H6 & _).
  unfold item_on_page. rewrite H5, H6. exact Hitem.
Qed.

(** ** The events of the player *)

Lemma fire_loadedmetadata_highlight_ok d s :
  highlight_ok s → highlight_ok (fire_loadedmetadata d s).
Proof.
  intros Hok. unfold fire_loadedmetadata.
  destruct (onloadedmetadata (audioPlayer s)) as [mh|] eqn:Hmh; [|exact Hok].
  destruct (timePerWord_of d (mh_wordSpans mh)) as [tpw|]; [|exact Hok].
  destruct Hok as (Ha & Hb & Hc & Hd & He & Hf & Hg & Hh).
  unfold highlight_ok, highlighted_words.
  cbn [dom upd_audio set_audioPlayer audioPlayer set_ontimeupdate ontimeupdate
       onloadedmetadata cells].
  rewrite Hmh.
  split; [exact Ha|]. split; [exact Hb|]. split; [exact Hc|]. split; [exact Hd|].
  split; [exact He|]. split; [rewrite <- Hmh; exact Hf|].
  split; [intros h [= <-]; destruct mh; reflexivity|].
  destruct Hh as [Hempty|(h & last & Hh1 & Hh2 & Hh3)]; [left; exact Hempty|].
  right. exists (mkTimeHandler (mh_call mh) (mh_wordSpans mh) tpw), last.
  specialize (Hg h Hh1). rewrite Hmh in Hg. injection Hg as ->.
  cbn [th_call th_wordSpans mh_call mh_wordSpans].
  split; [reflexivity|]. split; [exact Hh2|exact Hh3].
Qed.

Lemma fire_timeupdate_highlight_ok t s :
  highlight_ok s → highlight_ok (fire_timeupdate t s).
Proof.
  intros Hok. unfold fire_timeupdate, timeupdate_with.
  destruct (ontimeupdate (audioPlayer s)) as [h|] eqn:Hh; [|exact Hok].
  destruct (cells s !! th_call h) as [last|] eqn:Hc; [|exact Hok].
  destruct (Z.eqb_spec (word_index t (th_timePerWord h)) last) as [E|Hne];
    [exact Hok|].
  generalize (word_index t (th_timePerWord h)) as k. intros k.
  destruct Hok as (Ha & Hb & Hc' & Hd & He & Hf & Hg & Hone).
  pose proof (Hg h Hh) as Hmeta.
  pose proof (Hf _ Hmeta) as Hbound. cbn [mh_wordSpans] in Hbound.
  assert (highlighted_words s ⊆ marker (th_wordSpans h) last) as Hold.
  { destruct Hone as [->|(h' & last' & Hh' & Hc'' & Hsub)]; [set_solver|].
    rewrite Hh in Hh'. injection Hh' as <-. rewrite Hc in Hc''.
    injection Hc'' as <-. exact Hsub. }
  destruct h as [call ws tpw]. cbn [th_call th_wordSpans th_timePerWord] in *.
  assert (∀ i span, at_index ws i = Some span → (1 ≤ span < nextUid (dom s))%nat)
    as Hin by (intros i span Hi; apply Hbound, (at_index_elem _ i), Hi).
  assert (at_index ws k = None →
          (0 <=? k) && (k <? Z.of_nat (length ws)) = false) as Hout.
  { intros Hk. destruct (Z.leb_spec 0 k), (Z.ltb_spec k (Z.of_nat (length ws)));
      try reflexivity.
    destruct (at_index_in_range ws k) as [x Hx]; [lia|congruence]. }
  assert (is_Some (at_index ws k) →
          (0 <=? k) && (k <? Z.of_nat (length ws)) = true) as Hinr.
  { intros Hk. apply at_index_range in Hk.
    destruct (Z.leb_spec 0 k), (Z.ltb_spec k (Z.of_nat (length ws)));
      try reflexivity; lia. }
  unfold highlighted_words, marker in Hold.
  destruct (at_index ws k) as [span|] eqn:Hk.
  - rewrite Hinr by eauto. pose proof (Hin _ _ Hk) as Hspan.
    destruct (at_index ws last) as [old|] eqn:Hlast.
    all: unfold highlight_ok, highlighted_words, marker;
      cbn [dom set_dom set_cells upd_dom highlighted_word set_highlighted_word
           nameElement exampleItems nextUid audioPlayer cells th_call
           th_wordSpans attached];
      (split; [exact Ha|]); (split; [exact Hb|]); (split; [exact Hc'|]);
      (split; [exact Hd|]);
      (split; [intros u Hu; assert (u = span ∨ u ∈ highlighted_word (dom s))
                 as [->|Hu'] by set_solver; [exact Hspan|exact (He u Hu')]|]);
      (split; [exact Hf|]); (split; [exact Hg|]);
      right; exists (mkTimeHandler call ws tpw), k;
      cbn [th_call th_wordSpans];
      (split; [exact Hh|]); (split; [apply lookup_insert_eq|]);
      rewrite Hk; set_solver.
  - rewrite Hout by reflexivity.
    destruct (at_index ws last) as [old|] eqn:Hlast.
    all: unfold highlight_ok, highlighted_words, marker;
      cbn [dom set_dom set_cells upd_dom highlighted_word set_highlighted_word
           nameElement exampleItems nextUid audioPlayer cells th_call
           th_wordSpans attached];
      (split; [exact Ha|]); (split; [exact Hb|]); (split; [exact Hc'|]);
      (split; [exact Hd|]);
      (split; [intros u Hu; apply He; set_solver|]);
      (split; [exact Hf|]); (split; [exact Hg|]);
      right; exists (mkTimeHandler call ws tpw), k;
      cbn [th_call th_wordSpans];
      (split; [exact Hh|]); (split; [apply lookup_insert_eq|]);
      rewrite Hk; set_solver.
Qed.

Lemma fire_ended_highlight_ok s : highlight_ok s → highlight_ok (fire_ended s).
Proof.
  intros Hok. unfold fire_ended.
  destruct (onended (audioPlayer s)) as [h|]; [|exact Hok].
  destruct Hok as (Ha & Hb & Hc & Hd & He & Hf & Hg & Hone).
  destruct (eh_itemElement h) as [u|].
  all: unfold highlight_ok, highlighted_words;
    cbn [dom set_dom upd_dom highlighted_word set_highlighted_word
         nameElement exampleItems nextUid audioPlayer cells attached
         toggleNavigation showAppMessage set_isAudioPlaying];
    (split; [exact Ha|]); (split; [exact Hb|]); (split; [exact Hc|]);
    (split; [exact Hd|]);
    (split; [intros u' Hu; apply He; set_solver|]);
    (split; [exact Hf|]); (split; [exact Hg|]);
    left; unfold attached; set_solver.
Qed.

(** ** Loading a card *)

Lemma uids_in_cons c cs : uids_in (c :: cs) = uids_of c ∪ uids_in cs.
Proof. reflexivity. Qed.

Lemma make_spans_uids_in u words x :
  x ∈ uids_in (make_spans u words) → (u ≤ x < u + length words)%nat.
Proof.
  revert u. induction words as [|w words IH]; intros u.
  - cbn. set_solver.
  - cbn [make_spans length]. rewrite uids_in_cons, uids_of_node.
    intros H. apply elem_of_union in H as [H|H].
    + assert (x = u) as -> by set_solver. lia.
    + specialize (IH _ H). lia.
Qed.

Lemma make_items_next defs u i : (u ≤ snd (make_items u i defs))%nat.
Proof.
  revert u i. induction defs as [|d defs IH]; intros u i; [cbn; lia|].
  rewrite make_items_cons. cbn [snd].
  specialize (IH (u + 3 + length (trim_split (usage_example d)))%nat (S i)). lia.
Qed.

Lemma make_items_uids defs u i x :
  x ∈ uids_in (fst (make_items u i defs)) →
  (u ≤ x < snd (make_items u i defs))%nat.
Proof.
  revert u i. induction defs as [|d defs IH]; intros u i.
  - cbn. set_solver.
  - rewrite make_items_cons. cbn [fst snd]. rewrite uids_in_cons.
    pose proof (make_items_next defs
                  (u + 3 + length (trim_split (usage_example d)))%nat (S i)) as Hn.
    intros H. apply elem_of_union in H as [H|H].
    + unfold item_of in H. rewrite uids_of_node, !uids_in_cons, !uids_of_node in H.
      assert (x = u ∨ x = (u + 1)%nat ∨ x = (u + 2)%nat
              ∨ x ∈ uids_in (make_spans (u + 3) (trim_split (usage_example d))))
        as [->|[->|[->|Hx]]] by set_solver; try lia.
      apply make_spans_uids_in in Hx. lia.
    + specialize (IH _ _ H). lia.
Qed.

Lemma uids_of_in e items : In e items → uids_of e ⊆ uids_in items.
Proof.
  induction items as [|c cs IH]; [intros []|].
  rewrite uids_in_cons. intros [->|H]; [set_solver|]. specialize (IH H). set_solver.
Qed.

Lemma render_elements card s :
  elements (renderFrontExamples card (renderCardName card s))
  = (Node (uid (nameElement (dom s))) (tagName (nameElement (dom s))) "name"
          (make_spans (nextUid (dom s)) (trim_split (name card))),
     fst (make_items (nextUid (dom s) + length (trim_split (name card))) 0
                     (definitions card)),
     snd (make_items (nextUid (dom s) + length (trim_split (name card))) 0
                     (definitions card))).
Proof.
  unfold elements, renderFrontExamples, renderCardName, upd_dom. cbn.
  destruct (make_items _ _ _) as [items u]. reflexivity.
Qed.

Lemma render_marks card s :
  marks (renderFrontExamples card (renderCardName card s)) = marks s.
Proof.
  unfold marks, renderFrontExamples, renderCardName, upd_dom. cbn.
  destruct (make_items _ _ _) as [items u]. reflexivity.
Qed.

Lemma upd_dom_marks f s :
  (∀ d, highlighted_word (f d) = highlighted_word d) →
  marks (upd_dom f s) = marks s.
Proof. intros H. unfold marks. cbn. rewrite H. reflexivity. Qed.

Lemma upd_dom_elements f s :
  (∀ d, (nameElement (f d), exampleItems (f d), nextUid (f d))
        = (nameElement d, exampleItems d, nextUid d)) →
  elements (upd_dom f s) = elements s.
Proof. intros H. unfold elements. cbn. apply H. Qed.

Lemma loadCard_rendered_marks index card s :
  marks (loadCard_rendered index card s) = marks s.
Proof.
  unfold loadCard_rendered. cbv zeta.
  rewrite upd_dom_marks by (intros; reflexivity).
  rewrite render_marks.
  unfold updateCardCounter, showAppMessage, toggleNavigation.
  rewrite !upd_dom_marks by (intros; reflexivity).
  destruct s as [? ? ? ? ? [] ? [] ? ? ? ? ? ? ?]; reflexivity.
Qed.

Lemma loadCard_rendered_elements index card s :
  elements (loadCard_rendered index card s)
  = (Node (uid (nameElement (dom s))) (tagName (nameElement (dom s))) "name"
          (make_spans (nextUid (dom s)) (trim_split (name card))),
     fst (make_items (nextUid (dom s) + length (trim_split (name card))) 0
                     (definitions card)),
     snd (make_items (nextUid (dom s) + length (trim_split (name card))) 0
                     (definitions card))).
Proof.
  unfold loadCard_rendered. cbv zeta.
  rewrite upd_dom_elements by (intros; reflexivity).
  rewrite render_elements.
  match goal with |- context [nextUid (dom ?s0)] =>
    assert (elements s0 = elements s) as He
  end.
  { unfold updateCardCounter, showAppMessage, toggleNavigation.
    rewrite !upd_dom_elements by (intros; reflexivity).
    destruct s as [? ? ? ? ? [] ? [] ? ? ? ? ? ? ?]; reflexivity. }
  apply elements_fields in He as (-> & _ & ->). reflexivity.
Qed.

Lemma loadCard_rendered_fields index card s :
  ∃ sR, loadCard_rendered index card s = sR
    ∧ marks sR = marks s
    ∧ elements sR
      = (Node (uid (nameElement (dom s))) (tagName (nameElement (dom s))) "name"
              (make_spans (nextUid (dom s)) (trim_split (name card))),
         fst (make_items (nextUid (dom s) + length (trim_split (name card))) 0
                         (definitions card)),
         snd (make_items (nextUid (dom s) + length (trim_split (name card))) 0
                         (definitions card))).
Proof.
  exists (loadCard_rendered index card s). split; [reflexivity|].
  split; [apply loadCard_rendered_marks|apply loadCard_rendered_elements].
Qed.

Lemma loadCard_rendered_highlight_ok index card s :
  highlight_ok s → highlight_ok (loadCard_rendered index card s).
Proof.
  intros (Ha & Hb & Hc & Hd & He & Hf & Hg & Hone).
  destruct (loadCard_rendered_fields index card s) as (sR & -> & Hm & Hel).
  apply marks_fields in Hm as (H1 & H2 & H3 & H4).
  apply elements_fields in Hel as (H5 & H6 & H7).
  set (n0 := nextUid (dom s)) in *.
  set (words := trim_split (name card)) in *.
  pose proof (make_items_next (definitions card) (n0 + length words) 0) as Hn.
  unfold highlight_ok, highlighted_words, attached.
  rewrite H1, H2, H4, H5, H6, H7.
  split; [exact Ha|]. split; [lia|].
  split.
  { rewrite wordSpans_of_name. intros u Hu. apply elem_of_seq in Hu. lia. }
  split.
  { intros e Hin u Hu.
    assert (u ∈ uids_in (fst (make_items (n0 + length words) 0 (definitions card))))
      as Hx.
    { apply (uids_of_in _ _ Hin), (wordSpans_inside e), elem_of_list_to_set, Hu. }
    apply make_items_uids in Hx. lia. }
  split; [intros u Hu; specialize (He u Hu); lia|].
  split; [intros mh Hmh u Hu; specialize (Hf mh Hmh u Hu); lia|].
  split; [exact Hg|].
  left. apply set_eq. intros x. split; [|set_solver].
  intros Hx. apply elem_of_intersection in Hx as [Hx1 Hx2].
  specialize (He x Hx1). exfalso.
  rewrite uids_of_node in Hx2.
  assert (x = uid (nameElement (dom s))
          ∨ x ∈ uids_in (make_spans n0 words)
          ∨ x ∈ uids_in (fst (make_items (n0 + length words) 0 (definitions card))))
    as [->|[Hx|Hx]] by set_solver.
  - lia.
  - apply make_spans_uids_in in Hx. lia.
  - apply make_items_uids in Hx. lia.
Qed.

Lemma generateAndLoadImage_marks o card s :
  marks (generateAndLoadImage o card s) = marks s.
Proof.
  unfold generateAndLoadImage.
  destruct (definitions card) as [|def defs]; [reflexivity|].
  destruct o as [m|[e|m]|[d|m] img]; try reflexivity.
  cbv zeta. destruct (at_index _ _); [|reflexivity].
  destruct img; reflexivity.
Qed.

Lemma loadCard_highlight_ok w index autoPlay s :
  highlight_ok s → highlight_ok (loadCard w index autoPlay s).
Proof.
  intros Hok.
  destruct (card_at s index) as [card|] eqn:Hcard.
  - rewrite (loadCard_cases _ _ _ _ _ Hcard).
    pose proof (loadCard_rendered_highlight_ok index card s Hok) as Hr.
    assert (highlight_ok (loadCard_ready index card s)) as Hy.
    { revert Hr. unfold loadCard_ready. cbv zeta.
      unfold toggleNavigation, showAppMessage.
      apply highlight_ok_same;
        [rewrite !upd_dom_marks by (intros; reflexivity)
        |rewrite !upd_dom_elements by (intros; reflexivity)]; reflexivity. }
    assert (highlight_ok (generateAndLoadImage (generation w) card
                            (loadCard_rendered index card s))) as Hgen.
    { revert Hr. apply highlight_ok_same; [apply generateAndLoadImage_marks|].
      apply page_elements, generateAndLoadImage_page_kept. }
    assert (highlight_ok (loadCard_front index card s)) as Hfr.
    { revert Hr. rewrite loadCard_rendered_front.
      apply highlight_ok_same; symmetry;
        [rewrite upd_dom_marks by (intros; reflexivity)
        |rewrite upd_dom_elements by (intros; reflexivity)]; reflexivity. }
    destruct (back_renders w card); [|exact Hfr].
    destruct (truthy (imagePath card)); [destruct (cachedImage w)|];
      try exact Hgen.
    destruct autoPlay; [|exact Hy].
    apply playAudioFromApi_highlight_ok; [exact Hy|].
    intros e He. left. apply (inj Some) in He. symmetry. exact He.
  - revert Hok. unfold loadCard.
    destruct (length _ =? 0)%nat; [apply highlight_ok_same; reflexivity|].
    cbv zeta.
    match goal with |- context [card_at ?s0 index] =>
      assert (card_at s0 index = None) as ->
        by (rewrite <- Hcard; clear;
            destruct s as [? ? ? ? ? [] ? [] ? ? ? ? ? ? ?]; reflexivity)
    end.
    unfold updateCardCounter, showAppMessage, toggleNavigation.
    apply highlight_ok_same;
      [rewrite !upd_dom_marks by (intros; reflexivity)
      |rewrite !upd_dom_elements by (intros; reflexivity)];
      destruct s as [? ? ? ? ? [] ? [] ? ? ? ? ? ? ?]; reflexivity.
Qed.

(** ** Sessions *)

Lemma markAsLearned_failure_marks o w s :
  o ≠ Responded true → marks (markAsLearned o w s) = marks s.
Proof.
  intros Ho. unfold markAsLearned.
  destruct (length _ =? 0)%nat; [reflexivity|]. cbv zeta.
  destruct (card_at _ _); [|reflexivity].
  destruct o as [m|[]]; try reflexivity. congruence.
Qed.

Lemma markAsLearned_highlight_ok o w s :
  well_formed s → highlight_ok s → highlight_ok (markAsLearned o w s).
Proof.
  intros (Hids & Hder & Hcur) Hok.
  assert (o = Responded true ∨ o ≠ Responded true) as [->|Ho]
    by (destruct o as [m|[]]; [right|left|right]; congruence).
  - destruct (filteredFlashcardsData s) as [|x rest] eqn:He.
    { assert (markAsLearned (Responded true) w s = s) as ->
        by (unfold markAsLearned; rewrite He; reflexivity).
      exact Hok. }
    assert (filteredFlashcardsData s ≠ []) as Hne by (rewrite He; discriminate).
    clear He x rest.
    destruct (markAsLearned_success w s Hids Hder (Hcur Hne))
      as (l & card & _ & _ & _ & Heq). cbv zeta in Heq. rewrite Heq.
    assert (highlight_ok (marked l (requested card s))) as Hok1
      by (revert Hok; apply highlight_ok_same; reflexivity).
    destruct (_ >? 0).
    + apply loadCard_highlight_ok, Hok1.
    + revert Hok1. apply highlight_ok_same; reflexivity.
  - revert Hok. apply highlight_ok_same.
    + apply markAsLearned_failure_marks, Ho.
    + apply page_elements, markAsLearned_failure_page, Ho.
Qed.

Lemma deleteImage_highlight_ok o w s :
  highlight_ok s → highlight_ok (deleteImage o w s).
Proof.
  intros Hok. unfold deleteImage.
  destruct (awaitingDeleteConfirmation s);
    [|revert Hok; apply highlight_ok_same; reflexivity].
  cbv zeta.
  destruct (at_index _ _) as [l|].
  2: { revert Hok. apply highlight_ok_same; clear;
       destruct s as [? ? ? ? ? ? ? [] ? ? ? ? ? ? ?]; reflexivity. }
  destruct (card_at _ _) as [card|].
  2: { revert Hok. apply highlight_ok_same; clear;
       destruct s as [? ? ? ? ? ? ? [] ? ? ? ? ? ? ?]; reflexivity. }
  destruct o as [m|[]].
  - revert Hok. apply highlight_ok_same; clear;
      destruct s as [? ? ? ? ? ? ? [] ? ? ? ? ? ? ?]; reflexivity.
  - unfold report. apply loadCard_highlight_ok.
    revert Hok. apply highlight_ok_same; clear;
      destruct s as [? ? ? ? ? ? ? [] ? ? ? ? ? ? ?]; reflexivity.
  - revert Hok. apply highlight_ok_same; clear;
      destruct s as [? ? ? ? ? ? ? [] ? ? ? ? ? ? ?]; reflexivity.
Qed.

Lemma loadData_highlight_ok o w s :
  highlight_ok s → highlight_ok (loadData o w s).
Proof.
  intros Hok. unfold loadData. cbv zeta.
  destruct o as [m| |[data|m]];
    try (revert Hok; apply highlight_ok_same; reflexivity).
  destruct (0 <? length _)%nat.
  - apply loadCard_highlight_ok. revert Hok. apply highlight_ok_same; reflexivity.
  - revert Hok. apply highlight_ok_same; reflexivity.
Qed.

Lemma initial_highlight_ok nameTag : highlight_ok (initial nameTag).
Proof.
  unfold highlight_ok, highlighted_words. cbn.
  split; [reflexivity|]. split; [lia|].
  split; [intros u Hu; apply elem_of_nil in Hu; destruct Hu|].
  split; [intros e []|]. split; [intros u Hu; set_solver|].
  split; [discriminate|]. split; [discriminate|]. left. set_solver.
Qed.

Lemma resetAllCards_highlight_ok c o r w s :
  highlight_ok s → highlight_ok (resetAllCards c o r w s).
Proof.
  intros Hok. unfold resetAllCards. destruct c; [|exact Hok].
  destruct o as [m|[]]; try (revert Hok; apply highlight_ok_same; reflexivity).
  apply loadData_highlight_ok. unfold reload_page.
  match goal with |- highlight_ok (set_requests _ (set_clock _ (initial ?t))) =>
    generalize (initial_highlight_ok t); apply highlight_ok_same; reflexivity
  end.
Qed.

Lemma confirmation_timeouts_marks {A} (due : list A) s :
  marks (foldl (λ s _, confirmation_timeout s) s due) = marks s.
Proof.
  revert s. induction due as [|x due IH]; intros s; [reflexivity|].
  cbn. rewrite IH. unfold confirmation_timeout.
  destruct (awaitingDeleteConfirmation s); reflexivity.
Qed.

Lemma step_highlight_ok s a :
  well_formed s → highlight_ok s → highlight_ok (step s a).
Proof.
  intros Hwf Hok. destruct a; cbn.
  - unfold nextCard. cbv zeta. destruct (_ >? 0); [|exact Hok].
    apply loadCard_highlight_ok, Hok.
  - unfold prevCard. cbv zeta. destruct (_ >? 0); [|exact Hok].
    apply loadCard_highlight_ok, Hok.
  - apply markAsLearned_highlight_ok; assumption.
  - apply deleteImage_highlight_ok, Hok.
  - apply resetAllCards_highlight_ok, Hok.
  - unfold playPhonetic. destruct (card_at _ _); [|exact Hok].
    apply playAudioFromApi_highlight_ok; [exact Hok|].
    intros e He. left. apply (inj Some) in He. symmetry. exact He.
  - unfold playSingleExample. destruct (card_at _ _); [|exact Hok].
    destruct (_ !! index); [|exact Hok].
    apply playAudioFromApi_highlight_ok; [exact Hok|].
    intros e He. right. apply find_some in He as [He _]. exact He.
  - revert Hok. apply highlight_ok_same; unfold flipCard;
      destruct (_ || _); reflexivity.
  - apply fire_loadedmetadata_highlight_ok, Hok.
  - apply fire_timeupdate_highlight_ok, Hok.
  - apply fire_ended_highlight_ok, Hok.
  - revert Hok. apply highlight_ok_same.
    + unfold elapse. cbv zeta. rewrite confirmation_timeouts_marks. reflexivity.
    + apply page_elements, (events_page (Elapse ms)), I.
Qed.

Lemma session_highlight_ok nameTag o w acts :
  highlight_ok (session nameTag o w acts).
Proof.
  unfold session.
  assert (well_formed (loadData o w (initial nameTag))
          ∧ highlight_ok (loadData o w (initial nameTag))) as H.
  { split; [apply loadData_well_formed; [apply initial_well_formed|reflexivity]|].
    apply loadData_highlight_ok, initial_highlight_ok. }
  revert H. generalize (loadData o w (initial nameTag)).
  induction acts as [|a acts IH]; intros s [Hwf Hok]; [exact Hok|].
  cbn. apply IH. split; [apply step_well_formed, Hwf|apply step_highlight_ok; assumption].
Qed.

(** X17. At most one word is highlighted as long as requests do not
    overlap: in every state of a session, in which every request is answered
    before the next operation starts, whatever the order of the operations
    and of the events of the player, at most one attached element carries
    the highlight; when one does, a progress handler is installed and the
    element is the word whose index that handler recorded last; without a
    progress handler nothing is highlighted.  In particular the handlers
    that an earlier card or an earlier play request left behind never mark a
    word of the card on the page besides the current one.  (A play request
    made while another one is pending is outside a session; there two words
    can carry the highlight.) *)
Theorem one_highlighted_word
    (nameTag : string) (o : DataOutcome) (w : World) (acts : list Action) :
  let s := session nameTag o w acts in
  (size (highlighted_words s) ≤ 1)%nat
  ∧ (ontimeupdate (audioPlayer s) = None → highlighted_words s = ∅)
  ∧ (highlighted_words s ≠ ∅ →
       ∃ h last span,
         ontimeupdate (audioPlayer s) = Some h
         ∧ cells s !! th_call h = Some last
         ∧ at_index (th_wordSpans h) last = Some span
         ∧ highlighted_words s = {[span]}).
Proof.
  intros s.
  destruct (session_highlight_ok nameTag o w acts) as (_ & _ & _ & _ & _ & _ & _ & Hone).
  fold s in Hone.
  destruct Hone as [Hempty|(h & last & Hh & Hc & Hsub)].
  - rewrite Hempty. split; [rewrite size_empty; lia|].
    split; [reflexivity|]. intros Hne. contradiction.
  - split; [|split].
    + etrans; [apply subseteq_size, Hsub|apply marker_size].
    + intros Hnone. rewrite Hnone in Hh. discriminate.
    + intros Hne. unfold marker in Hsub.
      destruct (at_index (th_wordSpans h) last) as [span|] eqn:Hspan.
      * exists h, last, span.
        split; [exact Hh|]. split; [exact Hc|]. split; [exact Hspan|].
        apply set_eq. intros x. split; [apply Hsub|].
        intros Hx. apply elem_of_singleton in Hx as ->.
        apply set_choose_L in Hne as [y Hy].
        pose proof (Hsub y Hy) as Hy'. apply elem_of_singleton in Hy' as <-.
        exact Hy.
      * exfalso. apply Hne. apply set_eq. intros x. split; [apply Hsub|set_solver].
Qed.

(** * The card after the one learned *)

Lemma filter_delete (l : list nat) (i x : nat) :
  NoDup l → l !! i = Some x →
  List.filter (λ y, negb (y =? x)%nat) l = delete i l.
Proof.
  intros Hnd. revert i. induction Hnd as [|a l Ha Hnd IH]; intros i Hi;
    [discriminate|].
  destruct i as [|i]; cbn in Hi.
  - injection Hi as ->. cbn. rewrite Nat.eqb_refl. cbn.
    apply filter_none. intros y Hy.
    apply negb_true_iff, Nat.eqb_neq. intros ->.
    apply Ha, list_elem_of_In, Hy.
  - cbn. assert (a ≠ x) as Hne
      by (intros ->; apply Ha; eapply list_elem_of_lookup_2, Hi).
    apply Nat.eqb_neq in Hne. rewrite Hne. cbn. f_equal. apply IH, Hi.
Qed.

(** X18. Marking the card under the cursor as learned removes exactly that
    position from the active array and keeps the order of the others; the
    cursor then rests on the card that followed the learned one, or, when the
    learned one was the last, on the card that preceded it; when it was the
    only one the collection is completed. *)
Theorem markAsLearned_moves_to_next (w : World) (s : State) (l : nat) :
  well_formed s →
  at_index (filteredFlashcardsData s) (currentIndex s) = Some l →
  let c := currentIndex s in
  let k := Z.of_nat (length (filteredFlashcardsData s)) in
  let s' := markAsLearned (Responded true) w s in
  filteredFlashcardsData s' = delete (Z.to_nat c) (filteredFlashcardsData s)
  ∧ (c + 1 < k →
       currentIndex s' = c
       ∧ at_index (filteredFlashcardsData s') (currentIndex s')
         = at_index (filteredFlashcardsData s) (c + 1))
  ∧ (c + 1 = k → 1 < k →
       currentIndex s' = c - 1
       ∧ at_index (filteredFlashcardsData s') (currentIndex s')
         = at_index (filteredFlashcardsData s) (c - 1))
  ∧ (k = 1 → filteredFlashcardsData s' = [] ∧ completed (dom s') = true).
Proof.
  intros (Hids & Hder & Hcur) Hl c k s'.
  assert (0 <= c < k) as Hc by (apply at_index_range; eauto).
  destruct (markAsLearned_success w s Hids Hder Hc)
    as (l' & card & Hl' & Hcard & Hin & Heq).
  rewrite Hl in Hl'. injection Hl' as <-.
  cbv zeta in Heq. fold s' in Heq.
  set (s1 := marked l (requested card s)) in *.
  assert (filteredFlashcardsData s1 = delete (Z.to_nat c) (filteredFlashcardsData s))
    as Hf1.
  { unfold s1. rewrite marked_filtered by exact Hder.
    change (filteredFlashcardsData (requested card s))
      with (filteredFlashcardsData s).
    apply filter_delete; [apply ids_in_place_NoDup; assumption|].
    apply at_index_Some in Hl as [_ Hl]. exact Hl. }
  assert (Z.of_nat (length (filteredFlashcardsData s1)) = k - 1) as Hk1.
  { rewrite Hf1, length_delete; [unfold k; lia|].
    apply at_index_Some in Hl as [_ Hl]. eauto. }
  rewrite Hk1 in Heq.
  assert (∀ j, 0 <= j → j < c →
            at_index (delete (Z.to_nat c) (filteredFlashcardsData s)) j
            = at_index (filteredFlashcardsData s) j) as Hbefore.
  { intros j Hj0 Hjc. unfold at_index.
    destruct (Z.ltb_spec j 0); [lia|].
    apply list_lookup_delete_lt. lia. }
  assert (∀ j, c <= j →
            at_index (delete (Z.to_nat c) (filteredFlashcardsData s)) j
            = at_index (filteredFlashcardsData s) (j + 1)) as Hafter.
  { intros j Hj. unfold at_index.
    destruct (Z.ltb_spec j 0), (Z.ltb_spec (j + 1) 0); try lia.
    rewrite list_lookup_delete_ge by lia. f_equal. lia. }
  destruct (Z.gtb_spec (k - 1) 0) as [Hpos|Hz].
  - assert (filteredFlashcardsData s1 ≠ []) as Hne
      by (intros He; rewrite He in Hk1; cbn in Hk1; lia).
    assert (filteredFlashcardsData s' = filteredFlashcardsData s1) as Hf'
      by (rewrite Heq; apply loadCard_filtered).
    assert (currentIndex s' = Z.min c (k - 1 - 1)) as Hc'
      by (rewrite Heq; apply loadCard_currentIndex, Hne).
    rewrite Hf', Hf1, Hc'.
    split; [reflexivity|]. split; [|split].
    + intros Hlt. rewrite Z.min_l by lia. split; [reflexivity|].
      apply Hafter. lia.
    + intros Hlast _. rewrite Z.min_r by lia.
      replace (k - 1 - 1) with (c - 1) by lia. split; [reflexivity|].
      apply Hbefore; lia.
    + intros Hone. lia.
  - assert (filteredFlashcardsData s1 = []) as He
      by (destruct (filteredFlashcardsData s1); [reflexivity|cbn in Hk1; lia]).
    assert (filteredFlashcardsData s' = filteredFlashcardsData s1) as Hf'
      by (rewrite Heq; reflexivity).
    rewrite Hf'. split; [exact Hf1|]. split; [intros; lia|].
    split; [intros; lia|]. intros _. split; [exact He|].
    rewrite Heq. reflexivity.
Qed.

Lemma markAsLearned_moves_to_next_witness :
  let s := example_second in
  let s' := markAsLearned (Responded true) example_world s in
  well_formed s
  ∧ at_index (filteredFlashcardsData s) (currentIndex s) = Some 1%nat
  ∧ filteredFlashcardsData s = [0; 1; 2]%nat
  ∧ filteredFlashcardsData s' = [0; 2]%nat
  ∧ currentIndex s' = 1
  ∧ at_index (filteredFlashcardsData s') (currentIndex s') = Some 2%nat.
Proof.
  cbv zeta.
  assert (well_formed example_second) as Hwf by apply session_well_formed.
  assert (at_index (filteredFlashcardsData example_second)
            (currentIndex example_second) = Some 1%nat) as Hl
    by (vm_compute; reflexivity).
  assert (filteredFlashcardsData example_second = [0; 1; 2]%nat) as Hf
    by (vm_compute; reflexivity).
  assert (currentIndex example_second = 1) as Hc by (vm_compute; reflexivity).
  destruct (markAsLearned_moves_to_next example_world example_second 1%nat Hwf Hl)
    as (H1 & H2 & _).
  rewrite Hf, Hc in H1, H2.
  destruct H2 as [H2 H3]; [cbn; lia|].
  split; [exact Hwf|]. split; [exact Hl|]. split; [exact Hf|].
  split; [rewrite H1; reflexivity|]. split; [exact H2|]. rewrite H3. reflexivity.
Defined.

(** * Playing the name of a loaded card *)

Lemma loadCard_ready_elements index card s :
  elements (loadCard_ready index card s) = elements (loadCard_rendered index card s).
Proof.
  unfold loadCard_ready. cbv zeta. unfold toggleNavigation, showAppMessage.
  rewrite !upd_dom_elements by (intros; reflexivity). reflexivity.
Qed.

Lemma loadCard_ready_name index card s :
  wordSpans_of (nameElement (dom (loadCard_ready index card s)))
  = seq (nextUid (dom s)) (length (trim_split (name card))).
Proof.
  pose proof (loadCard_ready_elements index card s) as He.
  rewrite loadCard_rendered_elements in He.
  apply elements_fields in He as (-> & _ & _). apply wordSpans_of_name.
Qed.

(** X19. Navigation to a card whose image is at hand plays its name and
    schedules one highlight slot per word of the name: when [renderBackCard]
    returns for the card, the card has an image path, the image loads and
    the speech request succeeds, [loadCard] with autoplay leaves the player
    playing with the page locked, and once the metadata arrive with a
    duration that is not zero a playback session is in progress whose words
    are the spans of the name on the page, as many as the name has words,
    each given the duration divided by that number (the quotient as a
    double). *)
Theorem autoplay_schedules_name
    (w : World) (index : Z) (s : State) (card : Card) (data : SpeechData) (D : Q) :
  card_at s index = Some card →
  back_renders w card = true →
  truthy (imagePath card) = true → cachedImage w = ImageLoads →
  speech w = SpeechOk (JsonOk data) None →
  success data = true → truthy (audio_url data) = true →
  ¬ (D == 0)%Q →
  let s1 := loadCard w index true s in
  let s2 := fire_loadedmetadata (Some D) s1 in
  let n := length (trim_split (name card)) in
  ∃ h, in_session s2 h (-1)
       ∧ th_wordSpans h = wordSpans_of (nameElement (dom s1))
       ∧ length (th_wordSpans h) = n
       ∧ (1 ≤ n)%nat
       ∧ th_timePerWord h = round64 (D / inject_Z (Z.of_nat n))
       ∧ isAudioPlaying s2 = true
       ∧ locked s2 = true.
Proof.
  intros Hcard Hback Himg Hcache Hspeech Hok Hurl HD s1 s2 n.
  assert (s1 = playAudioFromApi (SpeechOk (JsonOk data) None) (name card)
                 (Some (nameElement (dom (loadCard_ready index card s))))
                 (loadCard_ready index card s)) as Hs1.
  { unfold s1.
    rewrite (loadCard_cases _ _ _ _ _ Hcard), Hback, Himg, Hcache, Hspeech.
    reflexivity. }
  destruct (data_view_fields _ _ _ _ _ (loadCard_ready_data index card s))
    as (Hyh & Hyf & Hyi & _).
  assert (card_at (loadCard_ready index card s)
            (currentIndex (loadCard_ready index card s)) = Some card) as Hyc
    by (rewrite <- Hcard; unfold card_at; rewrite Hyh, Hyf, Hyi; reflexivity).
  pose proof (loadCard_ready_name index card s) as Hspans.
  revert Hs1 Hyc Hspans. generalize (loadCard_ready index card s). intros sy Hs1 Hyc Hspans.
  assert (length (wordSpans_of (nameElement (dom sy))) = n) as Hlen
    by (rewrite Hspans; apply length_seq).
  pose proof (trim_split_nonempty (name card)) as Hn. fold n in Hn.
  assert (timePerWord_of (Some D) (wordSpans_of (nameElement (dom sy)))
          = Some (round64 (D / inject_Z (Z.of_nat n)))) as Htpw.
  { unfold timePerWord_of. rewrite Hlen.
    assert (Qeq_bool D 0 = false) as ->
      by (apply not_true_is_false; intros H; apply HD, Qeq_bool_eq, H).
    assert ((n =? 0)%nat = false) as -> by (apply Nat.eqb_neq; lia).
    reflexivity. }
  pose proof (play_starts_session sy card data (name card) (nameElement (dom sy))
                (Some D) _ Hyc Hok Hurl (or_introl eq_refl) Htpw) as Hsess.
  cbv zeta in Hsess. rewrite <- Hs1 in Hsess. fold s2 in Hsess.
  destruct (playAudioFromApi_outcomes (SpeechOk (JsonOk data) None) (name card)
              (Some (nameElement (dom sy))) sy) as (_ & _ & _ & Hgood).
  destruct Hgood as (Hp & Hl & _);
    [unfold speech_fails; rewrite Hok, Hurl; reflexivity|rewrite Hyc; eauto|].
  rewrite <- Hs1 in Hp, Hl.
  destruct (fire_loadedmetadata_player (Some D) s1) as [Hv _]. fold s2 in Hv.
  unfold player_view in Hv.
  assert (isAudioPlaying s2 = true ∧ locked s2 = true) as [Hp2 Hl2]
    by (split; congruence).
  assert (nameElement (dom s1) = nameElement (dom sy)) as Hname.
  { pose proof (page_elements _ _ (playAudioFromApi_page_kept
                  (SpeechOk (JsonOk data) None) (name card)
                  (Some (nameElement (dom sy))) sy)) as He.
    rewrite <- Hs1 in He. apply elements_fields in He as (He & _). exact He. }
  eexists. split; [exact Hsess|]. cbn [th_wordSpans th_timePerWord].
  split; [rewrite Hname; reflexivity|]. split; [exact Hlen|].
  split; [exact Hn|]. split; [reflexivity|]. split; assumption.
Qed.

Lemma autoplay_schedules_name_witness :
  let s := example_page in
  let card := set_id 2 card_C in
  let data := mkSpeechData true
                (Some "https://storage.googleapis.com/cards/card_audio/phrasal_verbs/daily/a.mp3") in
  let D := (3 # 1)%Q in
  let s1 := loadCard example_world 2 true s in
  let s2 := fire_loadedmetadata (Some D) s1 in
  card_at s 2 = Some card
  ∧ back_renders example_world card = true
  ∧ ¬ (D == 0)%Q
  ∧ ∃ h, in_session s2 h (-1)
         ∧ length (th_wordSpans h) = 2%nat
         ∧ th_timePerWord h = round64 (D / inject_Z 2)
         ∧ isAudioPlaying s2 = true.
Proof.
  cbv zeta.
  assert (card_at example_page 2 = Some (set_id 2 card_C)) as Hcard
    by (vm_compute; reflexivity).
  assert (¬ ((3 # 1) == 0)%Q) as HD by discriminate.
  destruct (autoplay_schedules_name example_world 2 example_page (set_id 2 card_C)
              (mkSpeechData true
                 (Some "https://storage.googleapis.com/cards/card_audio/phrasal_verbs/daily/a.mp3"))
              (3 # 1)%Q Hcard eq_refl eq_refl eq_refl eq_refl eq_refl eq_refl HD)
    as (h & H1 & _ & H2 & _ & H3 & H4 & _).
  split; [exact Hcard|]. split; [reflexivity|]. split; [exact HD|].
  exists h. split; [exact H1|]. split; [exact H2|]. split; [exact H3|exact H4].
Defined.

(** * When the generation of an image settles *)

Lemma generateAndLoadImage_busy o card s l :
  at_index (filteredFlashcardsData s) (currentIndex s) = Some l →
  busy (generateAndLoadImage o card s)
  = (if generation_settles o card then (false, false, false)
     else (locked s, spinnerShown (dom s), true))
  ∧ (generation_settles o card = false →
       shown (generateAndLoadImage o card s)
       = Some ("⏳ Generando imagen de IA...", false)).
Proof.
  intros Hl. unfold generateAndLoadImage, generation_settles.
  destruct (definitions card) as [|def defs]; [split; reflexivity|].
  destruct o as [m|[e|m]|[d|m] img]; try (split; [reflexivity|]);
    try reflexivity; try discriminate.
  cbv zeta.
  match goal with |- context [at_index ?f ?i] =>
    change (at_index f i)
      with (at_index (filteredFlashcardsData s) (currentIndex s))
  end.
  rewrite Hl. destruct img; split; try reflexivity; discriminate.
Qed.

Lemma upd_dom_locked f s :
  (∀ d, (nextDisabled (f d), prevDisabled (f d), deleteInert (f d))
        = (nextDisabled d, prevDisabled d, deleteInert d)) →
  locked (upd_dom f s) = locked s.
Proof.
  intros H. unfold locked. cbn. specialize (H (dom s)).
  injection H as -> -> ->. reflexivity.
Qed.

Lemma loadCard_rendered_busy index card s :
  locked (loadCard_rendered index card s) = true
  ∧ spinnerShown (dom (loadCard_rendered index card s)) = true.
Proof.
  split; [|reflexivity].
  unfold loadCard_rendered. cbv zeta.
  unfold renderFrontExamples, renderCardName, updateCardCounter, showAppMessage.
  rewrite upd_dom_locked by (intros; reflexivity).
  rewrite upd_dom_locked by (intros; destruct (make_items _ _ _); reflexivity).
  rewrite !upd_dom_locked by (intros; reflexivity).
  reflexivity.
Qed.

Lemma loadCard_front_busy index card s :
  locked (loadCard_front index card s) = true
  ∧ spinnerShown (dom (loadCard_front index card s)) = spinnerShown (dom s)
  ∧ cardLoading (dom (loadCard_front index card s)) = false
  ∧ shown (loadCard_front index card s) = Some ("Cargando tarjeta...", false).
Proof.
  unfold loadCard_front. cbv zeta.
  unfold renderFrontExamples, renderCardName, updateCardCounter, showAppMessage.
  split; [|split; [|split]].
  - rewrite upd_dom_locked by (intros; destruct (make_items _ _ _); reflexivity).
    rewrite !upd_dom_locked by (intros; reflexivity).
    reflexivity.
  - unfold upd_dom. cbn. destruct (make_items _ _ _). cbn.
    destruct s as [? ? ? ? ? [] ? [] ? ? ? ? ? ? ?]; reflexivity.
  - unfold upd_dom. cbn. destruct (make_items _ _ _). reflexivity.
  - unfold shown, upd_dom. cbn. destruct (make_items _ _ _). reflexivity.
Qed.

(** X20. When [loadCard] has to generate the image of the card, the page
    is handed back in exactly two cases, in both of which [renderBackCard]
    has returned: the server answers that the request is not ok, or it
    returns an image and that image loads.  In every other case the
    navigation stays locked.  When [renderBackCard] throws on the name of the
    card, no request is sent and the message that the card is loading stays
    on display.  When it returns and the generation does not settle (the
    request is rejected, the body does not parse, the generated image does
    not load, the card has no definition), the spinner stays, the card stays
    in its loading state, the progress message stays on display and
    [flipCard] does nothing. *)
Theorem generation_settles_or_hangs
    (w : World) (index : Z) (autoPlay : bool) (s : State) (card : Card) :
  card_at s index = Some card →
  truthy (imagePath card) = false ∨ cachedImage w = ImageFails →
  let s' := loadCard w index autoPlay s in
  let settled := back_renders w card && generation_settles (generation w) card in
  locked s' = negb settled
  ∧ (back_renders w card = false →
       requests s' = requests s
       ∧ shown s' = Some ("Cargando tarjeta...", false)
       ∧ spinnerShown (dom s') = spinnerShown (dom s)
       ∧ cardLoading (dom s') = false)
  ∧ (back_renders w card = true →
       spinnerShown (dom s') = negb settled
       ∧ cardLoading (dom s') = negb settled
       ∧ (settled = false →
            flipCard s' = s'
            ∧ shown s' = Some ("⏳ Generando imagen de IA...", false))).
Proof.
  intros Hcard Himg s' settled.
  assert (s' = if back_renders w card
               then generateAndLoadImage (generation w) card
                      (loadCard_rendered index card s)
               else loadCard_front index card s) as Heq.
  { unfold s'. rewrite (loadCard_cases _ _ _ _ _ Hcard).
    destruct (back_renders w card); [|reflexivity].
    destruct Himg as [-> | ->]; [reflexivity|].
    destruct (truthy (imagePath card)); reflexivity. }
  destruct (data_view_fields _ _ _ _ _ (loadCard_rendered_data index card s))
    as (_ & Hrf & Hri & _).
  destruct (data_view_fields _ _ _ _ _ (loadCard_front_data index card s))
    as (_ & _ & _ & Hfr).
  destruct (card_at_at_index _ _ _ Hcard) as (l & Hl & _).
  destruct (loadCard_rendered_busy index card s) as [Hlock Hspin].
  destruct (loadCard_front_busy index card s) as (Hf1 & Hf2 & Hf3 & Hf4).
  destruct (generateAndLoadImage_busy (generation w) card
              (loadCard_rendered index card s) l) as [Hbusy Hshown];
    [rewrite Hrf, Hri; exact Hl|].
  rewrite Hlock, Hspin in Hbusy. unfold busy in Hbusy.
  subst settled. revert Heq.
  destruct (back_renders w card); cbn [andb negb]; intros Heq;
    rewrite <- Heq in *; clear Heq.
  - set (settled := generation_settles (generation w) card) in *.
    assert (locked s' = negb settled ∧ spinnerShown (dom s') = negb settled
            ∧ cardLoading (dom s') = negb settled) as (H1 & H2 & H3).
    { destruct settled; injection Hbusy as -> -> ->; repeat split. }
    split; [exact H1|]. split; [discriminate|]. intros _.
    split; [exact H2|]. split; [exact H3|].
    intros Hs. split; [|exact (Hshown Hs)].
    unfold flipCard. rewrite H3, Hs, orb_true_r. reflexivity.
  - split; [exact Hf1|]. split; [|discriminate]. intros _.
    split; [exact Hfr|]. split; [exact Hf4|]. split; [exact Hf2|exact Hf3].
Qed.

Lemma generation_settles_or_hangs_witness :
  let w := mkWorld ImageLoads (GenerateRejected "Failed to fetch") example_speech
             example_regexp in
  let s := example_page in
  let card := set_id 1 card_B in
  let s' := loadCard w 1 true s in
  card_at s 1 = Some card
  ∧ (truthy (imagePath card) = false ∨ cachedImage w = ImageFails)
  ∧ back_renders w card = true
  ∧ generation_settles (generation w) card = false
  ∧ locked s' = true
  ∧ spinnerShown (dom s') = true
  ∧ flipCard s' = s'.
Proof.
  cbv zeta.
  assert (card_at example_page 1 = Some (set_id 1 card_B)) as Hcard
    by (vm_compute; reflexivity).
  assert (truthy (imagePath (set_id 1 card_B)) = false
          ∨ cachedImage (mkWorld ImageLoads (GenerateRejected "Failed to fetch")
                           example_speech example_regexp) = ImageFails) as Himg
    by (left; reflexivity).
  destruct (generation_settles_or_hangs
              (mkWorld ImageLoads (GenerateRejected "Failed to fetch") example_speech
                 example_regexp)
              1 true example_page _ Hcard Himg) as (H1 & _ & H2).
  destruct (H2 eq_refl) as (H3 & _ & H4).
  destruct (H4 eq_refl) as [H5 _].
  exact (conj Hcard (conj Himg (conj eq_refl (conj eq_refl (conj H1 (conj H3 H5)))))).
Defined.

(** A card named [c++]: [renderBackCard] throws on its name, and the page
    stays locked on the loading message, with the image of the card before
    and no request sent. *)
Example back_of_card_throws :
  let s0 := session "H1" (DataOk (JsonOk [card_A; card_P])) example_world [] in
  let s := nextCard example_world s0 in
  back_renders example_world (set_id 1 card_P) = false
  ∧ currentIndex s = 1
  ∧ locked s = true
  ∧ shown s = Some ("Cargando tarjeta...", false)
  ∧ requests s = requests s0
  ∧ imgSrc (dom s) = imgSrc (dom s0)
  ∧ length (wordSpans_of (nameElement (dom s))) = 1%nat.
Proof. vm_compute. repeat split. Qed.

(** * A deletion that fails *)

(** X21. A confirmed deletion that fails (the request is rejected or the
    answer is not ok) is reported and releases the navigation, but the
    delete button, hidden before the request, is not shown again: the cards
    and the image on display are as before, the guard is idle, at most the
    one delete request was sent, and the button stays hidden. *)
Theorem failed_delete_hides_button (o : StatusOutcome) (w : World) (s : State) :
  awaitingDeleteConfirmation s = true →
  o ≠ Responded true →
  let s' := deleteImage o w s in
  deleteShown (dom s') = false
  ∧ imgSrc (dom s') = imgSrc (dom s)
  ∧ imgVisible (dom s') = imgVisible (dom s)
  ∧ collection s' = collection s
  ∧ currentIndex s' = currentIndex s
  ∧ guard s' = Idle
  ∧ locked s' = false
  ∧ (∃ m, shown s' = Some ("❌ Error: " ++ m, true))
  ∧ (deletions s' ≤ S (deletions s))%nat
  ∧ (is_Some (card_at s (currentIndex s)) → deletions s' = S (deletions s)).
Proof.
  intros Ha Ho. cbv zeta.
  unfold deleteImage. rewrite Ha. cbv zeta.
  match goal with |- context [at_index ?f ?i] =>
    assert (at_index f i = at_index (filteredFlashcardsData s) (currentIndex s))
      as -> by (clear; destruct s as [hp ms fs ci ap pl aw [] dm ce ca ti nt ck rq];
                reflexivity)
  end.
  match goal with |- context [card_at ?s0 ?i] =>
    assert (card_at s0 i = card_at s (currentIndex s))
      as -> by (clear; destruct s as [hp ms fs ci ap pl aw [] dm ce ca ti nt ck rq];
                reflexivity)
  end.
  unfold card_at.
  destruct (at_index _ _) as [l|].
  2: { clear. destruct s as [hp ms fs ci ap pl aw [] dm ce ca ti nt ck rq].
       all: do 7 (split; [reflexivity|]).
       all: split; [eexists; reflexivity|].
       all: split; [cbn; lia|intros [c Hc]; discriminate]. }
  destruct (heap s !! l) as [card|].
  2: { clear. destruct s as [hp ms fs ci ap pl aw [] dm ce ca ti nt ck rq].
       all: do 7 (split; [reflexivity|]).
       all: split; [eexists; reflexivity|].
       all: split; [cbn; lia|intros [c Hc]; discriminate]. }
  destruct o as [m|[]]; try congruence.
  all: clear Ha Ho; destruct s as [hp ms fs ci ap pl aw [] dm ce ca ti nt ck rq].
  all: do 7 (split; [reflexivity|]).
  all: split; [eexists; reflexivity|].
  all: unfold deletions;
    cbn [requests send set_requests report toggleNavigation
         showAppMessage upd_dom set_dom set_heap clearTimeout set_timers
         set_awaitingDeleteConfirmation];
    rewrite List.filter_app, length_app; cbn; split; [lia|intros _; lia].
Qed.

Lemma failed_delete_hides_button_witness :
  let s := deleteImage (Responded true) example_world example_page in
  let s' := deleteImage (Responded false) example_world s in
  awaitingDeleteConfirmation s = true
  ∧ Responded false ≠ Responded true
  ∧ deleteShown (dom s) = true
  ∧ deleteShown (dom s') = false
  ∧ imgVisible (dom s') = true
  ∧ locked s' = false.
Proof.
  cbv zeta.
  assert (awaitingDeleteConfirmation
            (deleteImage (Responded true) example_world example_page) = true) as Ha
    by (vm_compute; reflexivity).
  assert (Responded false ≠ Responded true) as Ho by discriminate.
  destruct (failed_delete_hides_button (Responded false) example_world _ Ha Ho)
    as (H1 & _ & H2 & _ & _ & _ & H3 & _).
  split; [exact Ha|]. split; [exact Ho|]. split; [vm_compute; reflexivity|].
  split; [exact H1|]. split; [rewrite H2; vm_compute; reflexivity|exact H3].
Defined.

(** * The line being played *)

Lemma lines_fields s active loading :
  lines s = (active, loading) →
  active_example_line (dom s) = active ∧ loading_audio (dom s) = loading.
Proof. unfold lines. intros H. injection H as H1 H2. auto. Qed.

Lemma lines_ok_same s s' :
  lines s' = lines s → elements s' = elements s → lines_ok s → lines_ok s'.
Proof.
  unfold lines, elements, lines_ok, attached.
  intros Hl He. injection Hl as H1 H2. injection He as H3 H4 H5.
  rewrite H1, H2, H3, H4, H5. exact (λ H, H).
Qed.

Lemma upd_dom_lines f s :
  (∀ d, (active_example_line (f d), loading_audio (f d))
        = (active_example_line d, loading_audio d)) →
  lines (upd_dom f s) = lines s.
Proof. intros H. unfold lines. cbn. apply H. Qed.

(** ** Play requests *)

Lemma play_begin_lines i s :
  lines (play_begin i s)
  = (match i with
     | Some e => {[uid e]} ∪ (active_example_line (dom s) ∖ attached (dom s))
     | None => active_example_line (dom s) ∖ attached (dom s)
     end,
     match i with
     | Some e => if String.eqb (tagName e) "LI"
                 then {[uid e]} ∪ loading_audio (dom s)
                 else loading_audio (dom s)
     | None => loading_audio (dom s)
     end).
Proof.
  unfold play_begin.
  destruct (isAudioPlaying s), i as [e|]; try destruct (String.eqb (tagName e) "LI");
    reflexivity.
Qed.

Lemma play_try_lines o c t i b : lines (state_of (play_try o c t i b)) = lines b.
Proof.
  unfold play_try, play_send, play_answer.
  destruct (card_at b (currentIndex b)) as [card|]; [|reflexivity].
  destruct o as [m|[e|m]|[d|m] [pb|]]; try reflexivity.
  all: destruct (success d), (truthy (audio_url d)), i; reflexivity.
Qed.

Lemma playAudioFromApi_lines o text item s :
  lines (playAudioFromApi o text item s)
  = (match item with
     | Some e => {[uid e]} ∪ (active_example_line (dom s) ∖ attached (dom s))
     | None => active_example_line (dom s) ∖ attached (dom s)
     end,
     match item with
     | Some e => if String.eqb (tagName e) "LI"
                 then ({[uid e]} ∪ loading_audio (dom s)) ∖ {[uid e]}
                 else loading_audio (dom s)
     | None => loading_audio (dom s)
     end).
Proof.
  pose proof (play_begin_lines item s) as Hb.
  pose proof (play_try_lines o (calls s) text item (play_begin item s)) as Ht.
  rewrite Hb in Ht. clear Hb. apply lines_fields in Ht as [H1 H2].
  unfold playAudioFromApi, play_end.
  destruct (play_try _ _ _ _ _) as [s1|m s1]; cbn [state_of] in H1, H2;
    destruct item as [e|]; try destruct (String.eqb (tagName e) "LI");
    unfold lines;
    cbn [dom upd_dom set_dom toggleNavigation showAppMessage
         active_example_line loading_audio set_loading_audio
         set_deleteInert set_prevDisabled set_nextDisabled set_messages];
    rewrite H1, H2; reflexivity.
Qed.

Lemma playAudioFromApi_lines_ok o text item s :
  lines_ok s → item_on_page s item →
  lines_ok (playAudioFromApi o text item s).
Proof.
  intros (Ha & Hb & Hc & Hd & He & Hf) Hitem.
  pose proof (playAudioFromApi_lines o text item s) as Hl.
  pose proof (page_elements _ _ (playAudioFromApi_page_kept o text item s)) as Hel.
  revert Hl Hel. generalize (playAudioFromApi o text item s). intros s' Hl Hel.
  apply lines_fields in Hl as [H1 H2].
  apply elements_fields in Hel as (H3 & H4 & H5).
  unfold lines_ok, attached. rewrite H1, H2, H3, H4, H5. fold (attached (dom s)).
  split; [exact Ha|]. split; [exact Hb|]. split; [exact Hc|].
  destruct item as [e|].
  - assert (uid e < nextUid (dom s))%nat as Hu.
    { destruct (Hitem e eq_refl) as [->|Hin]; [lia|exact (Hc e Hin)]. }
    split; [intros u Hin;
            assert (u = uid e ∨ u ∈ active_example_line (dom s)) as [->|Hu']
              by set_solver; [exact Hu|exact (Hd u Hu')]|].
    split.
    + etrans; [apply (subseteq_size _ {[uid e]}); set_solver|].
      rewrite size_singleton. lia.
    + rewrite Hf. destruct (String.eqb (tagName e) "LI"); set_solver.
  - split; [intros u Hin; apply Hd; set_solver|].
    split; [|exact Hf].
    etrans; [apply (subseteq_size _ ∅); set_solver|]. rewrite size_empty. lia.
Qed.

(** ** Loading a card *)

Lemma render_lines card s :
  lines (renderFrontExamples card (renderCardName card s)) = lines s.
Proof.
  unfold lines, renderFrontExamples, renderCardName, upd_dom. cbn.
  destruct (make_items _ _ _) as [items u]. reflexivity.
Qed.

Lemma loadCard_rendered_lines index card s :
  lines (loadCard_rendered index card s) = lines s.
Proof.
  unfold loadCard_rendered. cbv zeta.
  rewrite upd_dom_lines by (intros; reflexivity).
  rewrite render_lines.
  unfold updateCardCounter, showAppMessage, toggleNavigation.
  rewrite !upd_dom_lines by (intros; reflexivity).
  destruct s as [? ? ? ? ? [] ? [] ? ? ? ? ? ? ?]; reflexivity.
Qed.

Lemma loadCard_rendered_line_fields index card s :
  ∃ sR, loadCard_rendered index card s = sR
    ∧ lines sR = lines s
    ∧ elements sR
      = (Node (uid (nameElement (dom s))) (tagName (nameElement (dom s))) "name"
              (make_spans (nextUid (dom s)) (trim_split (name card))),
         fst (make_items (nextUid (dom s) + length (trim_split (name card))) 0
                         (definitions card)),
         snd (make_items (nextUid (dom s) + length (trim_split (name card))) 0
                         (definitions card))).
Proof.
  exists (loadCard_rendered index card s). split; [reflexivity|].
  split; [apply loadCard_rendered_lines|apply loadCard_rendered_elements].
Qed.

Lemma uid_in_uids e : uid e ∈ uids_of e.
Proof. destruct e as [u t i cs]. rewrite uids_of_node. set_solver. Qed.

Lemma loadCard_rendered_lines_ok index card s :
  lines_ok s → lines_ok (loadCard_rendered index card s).
Proof.
  intros (Ha & Hb & Hc & Hd & He & Hf).
  destruct (loadCard_rendered_line_fields index card s) as (sR & -> & Hl & Hel).
  apply lines_fields in Hl as (H1 & H2).
  apply elements_fields in Hel as (H5 & H6 & H7).
  set (n0 := nextUid (dom s)) in *.
  set (words := trim_split (name card)) in *.
  pose proof (make_items_next (definitions card) (n0 + length words) 0) as Hn.
  unfold lines_ok, attached.
  rewrite H1, H2, H5, H6, H7.
  split; [exact Ha|]. split; [lia|].
  split.
  { intros e Hin.
    assert (uid e ∈ uids_in (fst (make_items (n0 + length words) 0 (definitions card))))
      as Hx by (apply (uids_of_in _ _ Hin), uid_in_uids).
    apply make_items_uids in Hx. lia. }
  split; [intros u Hu; specialize (Hd u Hu); lia|].
  split; [|exact Hf].
  etrans; [apply (subseteq_size _ {[uid (nameElement (dom s))]})|
           rewrite size_singleton; lia].
  intros x Hx. apply elem_of_intersection in Hx as [Hx1 Hx2].
  specialize (Hd x Hx1). rewrite uids_of_node in Hx2.
  assert (x = uid (nameElement (dom s))
          ∨ x ∈ uids_in (make_spans n0 words)
          ∨ x ∈ uids_in (fst (make_items (n0 + length words) 0 (definitions card))))
    as [->|[Hx|Hx]] by set_solver.
  - set_solver.
  - apply make_spans_uids_in in Hx. lia.
  - apply make_items_uids in Hx. lia.
Qed.

Lemma generateAndLoadImage_lines o card s :
  lines (generateAndLoadImage o card s) = lines s.
Proof.
  unfold generateAndLoadImage.
  destruct (definitions card) as [|def defs]; [reflexivity|].
  destruct o as [m|[e|m]|[d|m] img]; try reflexivity.
  cbv zeta. destruct (at_index _ _); [|reflexivity].
  destruct img; reflexivity.
Qed.

Lemma loadCard_lines_ok w index autoPlay s :
  lines_ok s → lines_ok (loadCard w index autoPlay s).
Proof.
  intros Hok.
  destruct (card_at s index) as [card|] eqn:Hcard.
  - rewrite (loadCard_cases _ _ _ _ _ Hcard).
    pose proof (loadCard_rendered_lines_ok index card s Hok) as Hr.
    assert (lines_ok (loadCard_ready index card s)) as Hy.
    { revert Hr. unfold loadCard_ready. cbv zeta.
      unfold toggleNavigation, showAppMessage.
      apply lines_ok_same;
        [rewrite !upd_dom_lines by (intros; reflexivity)
        |rewrite !upd_dom_elements by (intros; reflexivity)]; reflexivity. }
    assert (lines_ok (generateAndLoadImage (generation w) card
                        (loadCard_rendered index card s))) as Hgen.
    { revert Hr. apply lines_ok_same; [apply generateAndLoadImage_lines|].
      apply page_elements, generateAndLoadImage_page_kept. }
    assert (lines_ok (loadCard_front index card s)) as Hfr.
    { revert Hr. rewrite loadCard_rendered_front.
      apply lines_ok_same; symmetry;
        [rewrite upd_dom_lines by (intros; reflexivity)
        |rewrite upd_dom_elements by (intros; reflexivity)]; reflexivity. }
    destruct (back_renders w card); [|exact Hfr].
    destruct (truthy (imagePath card)); [destruct (cachedImage w)|];
      try exact Hgen.
    destruct autoPlay; [|exact Hy].
    apply playAudioFromApi_lines_ok; [exact Hy|].
    intros e He. left. apply (inj Some) in He. symmetry. exact He.
  - revert Hok. unfold loadCard.
    destruct (length _ =? 0)%nat; [apply lines_ok_same; reflexivity|].
    cbv zeta.
    match goal with |- context [card_at ?s0 index] =>
      assert (card_at s0 index = None) as ->
        by (rewrite <- Hcard; clear;
            destruct s as [? ? ? ? ? [] ? [] ? ? ? ? ? ? ?]; reflexivity)
    end.
    unfold updateCardCounter, showAppMessage, toggleNavigation.
    apply lines_ok_same;
      [rewrite !upd_dom_lines by (intros; reflexivity)
      |rewrite !upd_dom_elements by (intros; reflexivity)];
      destruct s as [? ? ? ? ? [] ? [] ? ? ? ? ? ? ?]; reflexivity.
Qed.

(** ** Sessions *)

Lemma markAsLearned_failure_lines o w s :
  o ≠ Responded true → lines (markAsLearned o w s) = lines s.
Proof.
  intros Ho. unfold markAsLearned.
  destruct (length _ =? 0)%nat; [reflexivity|]. cbv zeta.
  destruct (card_at _ _); [|reflexivity].
  destruct o as [m|[]]; try reflexivity. congruence.
Qed.

Lemma markAsLearned_lines_ok o w s :
  well_formed s → lines_ok s → lines_ok (markAsLearned o w s).
Proof.
  intros (Hids & Hder & Hcur) Hok.
  assert (o = Responded true ∨ o ≠ Responded true) as [->|Ho]
    by (destruct o as [m|[]]; [right|left|right]; congruence).
  - destruct (filteredFlashcardsData s) as [|x rest] eqn:He.
    { assert (markAsLearned (Responded true) w s = s) as ->
        by (unfold markAsLearned; rewrite He; reflexivity).
      exact Hok. }
    assert (filteredFlashcardsData s ≠ []) as Hne by (rewrite He; discriminate).
    clear He x rest.
    destruct (markAsLearned_success w s Hids Hder (Hcur Hne))
      as (l & card & _ & _ & _ & Heq). cbv zeta in Heq. rewrite Heq.
    assert (lines_ok (marked l (requested card s))) as Hok1
      by (revert Hok; apply lines_ok_same; reflexivity).
    destruct (_ >? 0).
    + apply loadCard_lines_ok, Hok1.
    + revert Hok1. apply lines_ok_same; reflexivity.
  - revert Hok. apply lines_ok_same.
    + apply markAsLearned_failure_lines, Ho.
    + apply page_elements, markAsLearned_failure_page, Ho.
Qed.

Lemma deleteImage_lines_ok o w s : lines_ok s → lines_ok (deleteImage o w s).
Proof.
  intros Hok. unfold deleteImage.
  destruct (awaitingDeleteConfirmation s);
    [|revert Hok; apply lines_ok_same; reflexivity].
  cbv zeta.
  destruct (at_index _ _) as [l|].
  2: { revert Hok. apply lines_ok_same; clear;
       destruct s as [? ? ? ? ? ? ? [] ? ? ? ? ? ? ?]; reflexivity. }
  destruct (card_at _ _) as [card|].
  2: { revert Hok. apply lines_ok_same; clear;
       destruct s as [? ? ? ? ? ? ? [] ? ? ? ? ? ? ?]; reflexivity. }
  destruct o as [m|[]].
  - revert Hok. apply lines_ok_same; clear;
      destruct s as [? ? ? ? ? ? ? [] ? ? ? ? ? ? ?]; reflexivity.
  - unfold report. apply loadCard_lines_ok.
    revert Hok. apply lines_ok_same; clear;
      destruct s as [? ? ? ? ? ? ? [] ? ? ? ? ? ? ?]; reflexivity.
  - revert Hok. apply lines_ok_same; clear;
      destruct s as [? ? ? ? ? ? ? [] ? ? ? ? ? ? ?]; reflexivity.
Qed.

Lemma loadData_lines_ok o w s : lines_ok s → lines_ok (loadData o w s).
Proof.
  intros Hok. unfold loadData. cbv zeta.
  destruct o as [m| |[data|m]];
    try (revert Hok; apply lines_ok_same; reflexivity).
  destruct (0 <? length _)%nat.
  - apply loadCard_lines_ok. revert Hok. apply lines_ok_same; reflexivity.
  - revert Hok. apply lines_ok_same; reflexivity.
Qed.

Lemma initial_lines_ok nameTag : lines_ok (initial nameTag).
Proof.
  unfold lines_ok. cbn.
  split; [reflexivity|]. split; [lia|]. split; [intros e []|].
  split; [intros u Hu; set_solver|]. split; [|reflexivity].
  etrans; [apply (subseteq_size _ ∅); set_solver|]. rewrite size_empty. lia.
Qed.

Lemma resetAllCards_lines_ok c o r w s :
  lines_ok s → lines_ok (resetAllCards c o r w s).
Proof.
  intros Hok. unfold resetAllCards. destruct c; [|exact Hok].
  destruct o as [m|[]]; try (revert Hok; apply lines_ok_same; reflexivity).
  apply loadData_lines_ok. unfold reload_page.
  match goal with |- lines_ok (set_requests _ (set_clock _ (initial ?t))) =>
    generalize (initial_lines_ok t); apply lines_ok_same; reflexivity
  end.
Qed.

Lemma confirmation_timeouts_lines {A} (due : list A) s :
  lines (foldl (λ s _, confirmation_timeout s) s due) = lines s.
Proof.
  revert s. induction due as [|x due IH]; intros s; [reflexivity|].
  cbn. rewrite IH. unfold confirmation_timeout.
  destruct (awaitingDeleteConfirmation s); reflexivity.
Qed.

Lemma fire_ended_lines_ok s : lines_ok s → lines_ok (fire_ended s).
Proof.
  intros Hok. unfold fire_ended.
  destruct (onended (audioPlayer s)) as [h|]; [|exact Hok].
  destruct Hok as (Ha & Hb & Hc & Hd & He & Hf).
  destruct (eh_itemElement h) as [u|].
  - unfold lines_ok.
    cbn [dom set_dom upd_dom active_example_line set_active_example_line
         loading_audio nameElement exampleItems nextUid attached
         toggleNavigation showAppMessage set_isAudioPlaying
         set_highlighted_word].
    split; [exact Ha|]. split; [exact Hb|]. split; [exact Hc|].
    split; [intros u' Hu; apply Hd; set_solver|]. split; [|exact Hf].
    etrans; [apply subseteq_size|exact He]. unfold attached. set_solver.
  - revert Ha Hb Hc Hd He Hf. unfold lines_ok.
    cbn [dom set_dom upd_dom active_example_line set_active_example_line
         loading_audio nameElement exampleItems nextUid attached
         toggleNavigation showAppMessage set_isAudioPlaying
         set_highlighted_word].
    intros. repeat (split; [assumption|]). assumption.
Qed.

Lemma events_lines a s :
  match a with
  | LoadedMetadata _ | TimeUpdate _ | Elapse _ => True
  | _ => False
  end →
  lines (step s a) = lines s.
Proof.
  destruct a; intros H; try (exfalso; exact H); clear H; cbn.
  - unfold fire_loadedmetadata.
    destruct (onloadedmetadata _) as [h|]; [|reflexivity].
    destruct (timePerWord_of _ _); reflexivity.
  - unfold fire_timeupdate, timeupdate_with.
    destruct (ontimeupdate _) as [h|]; [|reflexivity].
    destruct (cells s !! _) as [last|]; [|reflexivity].
    destruct (word_index _ _ =? last); [reflexivity|].
    destruct (at_index _ last), (_ && _); try destruct (at_index _ _); reflexivity.
  - unfold elapse. cbv zeta. rewrite confirmation_timeouts_lines. reflexivity.
Qed.

Lemma step_lines_ok s a : well_formed s → lines_ok s → lines_ok (step s a).
Proof.
  intros Hwf Hok. destruct a.
  - cbn. unfold nextCard. cbv zeta. destruct (_ >? 0); [|exact Hok].
    apply loadCard_lines_ok, Hok.
  - cbn. unfold prevCard. cbv zeta. destruct (_ >? 0); [|exact Hok].
    apply loadCard_lines_ok, Hok.
  - apply markAsLearned_lines_ok; assumption.
  - apply deleteImage_lines_ok, Hok.
  - apply resetAllCards_lines_ok, Hok.
  - cbn. unfold playPhonetic. destruct (card_at _ _); [|exact Hok].
    apply playAudioFromApi_lines_ok; [exact Hok|].
    intros e He. left. apply (inj Some) in He. symmetry. exact He.
  - cbn. unfold playSingleExample. destruct (card_at _ _); [|exact Hok].
    destruct (_ !! index); [|exact Hok].
    apply playAudioFromApi_lines_ok; [exact Hok|].
    intros e He. right. apply find_some in He as [He _]. exact He.
  - cbn. revert Hok. apply lines_ok_same; unfold flipCard;
      destruct (_ || _); reflexivity.
  - revert Hok. apply lines_ok_same;
      [apply (events_lines (LoadedMetadata audioDuration)), I
      |apply page_elements, (events_page (LoadedMetadata audioDuration)), I].
  - revert Hok. apply lines_ok_same;
      [apply (events_lines (TimeUpdate time)), I
      |apply page_elements, (events_page (TimeUpdate time)), I].
  - apply fire_ended_lines_ok, Hok.
  - revert Hok. apply lines_ok_same;
      [apply (events_lines (Elapse ms)), I
      |apply page_elements, (events_page (Elapse ms)), I].
Qed.

Lemma session_lines_ok nameTag o w acts : lines_ok (session nameTag o w acts).
Proof.
  unfold session.
  assert (well_formed (loadData o w (initial nameTag))
          ∧ lines_ok (loadData o w (initial nameTag))) as H.
  { split; [apply loadData_well_formed; [apply initial_well_formed|reflexivity]|].
    apply loadData_lines_ok, initial_lines_ok. }
  revert H. generalize (loadData o w (initial nameTag)).
  induction acts as [|a acts IH]; intros s [Hwf Hok]; [exact Hok|].
  cbn. apply IH. split; [apply step_well_formed, Hwf|apply step_lines_ok; assumption].
Qed.

(** X22. At most one line is marked as being played, and the loading mark
    never outlives its request: in every state of a session at most one
    attached element carries the class of the active line, and no element
    carries the class that shows an item loading its audio. *)
Theorem one_active_line
    (nameTag : string) (o : DataOutcome) (w : World) (acts : list Action) :
  let s := session nameTag o w acts in
  (size (active_example_line (dom s) ∩ attached (dom s)) ≤ 1)%nat
  ∧ loading_audio (dom s) = ∅.
Proof.
  intros s.
  destruct (session_lines_ok nameTag o w acts) as (_ & _ & _ & _ & H1 & H2).
  split; [exact H1|exact H2].
Qed.

(** * Playing an example of the loaded card *)

(** The card under the cursor after [loadCard] is the card loaded, but for
    its image path. *)
Lemma loadCard_card w index autoPlay s card :
  card_at s index = Some card →
  let s1 := loadCard w index autoPlay s in
  ∃ card1, card_at s1 (currentIndex s1) = Some card1
           ∧ set_imagePath None card1 = set_imagePath None card.
Proof.
  intros Hcard s1.
  destruct (card_at_at_index _ _ _ Hcard) as (l & Hl & Hh).
  assert (currentIndex s1 = index) as Hi
    by (apply loadCard_currentIndex; eapply card_at_nonempty, Hcard).
  assert (filteredFlashcardsData s1 = filteredFlashcardsData s) as Hf
    by apply loadCard_filtered.
  pose proof (images_only_lookup _ _ l (loadCard_heap w index autoPlay s)) as Himg.
  fold s1 in Himg. rewrite Hh in Himg.
  unfold card_at. rewrite Hi, Hf, Hl.
  destruct (heap s1 !! l) as [card1|]; [|discriminate].
  exists card1. split; [reflexivity|]. apply (inj Some). exact Himg.
Qed.

(** X23. The play button of example [k] plays that example and schedules
    one highlight slot per word of it: on the page that [loadCard] has
    rendered for a card, whatever happened to its image or to the back of
    the card, [playSingleExample]
    for a definition [k] of the card sends the synthesis request for the
    usage example of that definition, and when the request succeeds and the
    metadata arrive with a duration that is not zero, a playback session is in
    progress over the spans of the list item of that definition: as many as
    the usage example has words, each given the duration divided by that
    number (the quotient as a double). *)
Theorem example_play_schedules_words
    (w : World) (index : Z) (autoPlay : bool) (s : State) (card : Card)
    (k : nat) (def : CardDefinition) (data : SpeechData) (D : Q) :
  card_at s index = Some card →
  definitions card !! k = Some def →
  success data = true → truthy (audio_url data) = true →
  ¬ (D == 0)%Q →
  let s1 := loadCard w index autoPlay s in
  let s2 := playSingleExample (SpeechOk (JsonOk data) None) k s1 in
  let s3 := fire_loadedmetadata (Some D) s2 in
  let n := length (trim_split (usage_example def)) in
  ∃ h card1,
    card_at s1 (currentIndex s1) = Some card1
    ∧ requests s2 = (requests s1 ++ [speech_request (usage_example def) card1])%list
    ∧ in_session s3 h (-1)
    ∧ length (th_wordSpans h) = n
    ∧ (1 ≤ n)%nat
    ∧ th_timePerWord h = round64 (D / inject_Z (Z.of_nat n))
    ∧ isAudioPlaying s3 = true
    ∧ locked s3 = true.
Proof.
  intros Hcard Hdef Hok Hurl HD s1 s2 s3 n.
  destruct (loadCard_card w index autoPlay s card Hcard) as (card1 & Hc1 & Hsame).
  fold s1 in Hc1.
  assert (definitions card1 = definitions card) as Hdefs
    by (apply (f_equal definitions) in Hsame; destruct card, card1; exact Hsame).
  destruct (loadCard_words w index autoPlay s card Hcard)
    as (_ & _ & _ & _ & _ & Hitems).
  destruct (Hitems k def Hdef) as (item & Hfind & Hlook & _ & Hlen & Hn & _).
  fold s1 in Hfind, Hlook. fold n in Hlen, Hn.
  assert (In item (exampleItems (dom s1))) as Hin
    by (apply list_elem_of_In; eapply list_elem_of_lookup_2, Hlook).
  assert (s2 = playAudioFromApi (SpeechOk (JsonOk data) None) (usage_example def)
                 (Some item) s1) as Hs2.
  { unfold s2, playSingleExample. rewrite Hc1, Hdefs, Hdef, Hfind. reflexivity. }
  revert Hc1 Hin Hs2. clear Hfind Hlook Hitems. generalize s1. intros sy Hc1 Hin Hs2.
  assert (timePerWord_of (Some D) (wordSpans_of item)
          = Some (round64 (D / inject_Z (Z.of_nat n)))) as Htpw.
  { unfold timePerWord_of. rewrite Hlen.
    assert (Qeq_bool D 0 = false) as ->
      by (apply not_true_is_false; intros H; apply HD, Qeq_bool_eq, H).
    assert ((n =? 0)%nat = false) as -> by (apply Nat.eqb_neq; lia).
    reflexivity. }
  pose proof (play_starts_session sy card1 data (usage_example def) item
                (Some D) _ Hc1 Hok Hurl (or_intror Hin) Htpw) as Hsess.
  cbv zeta in Hsess. rewrite <- Hs2 in Hsess. fold s3 in Hsess.
  destruct (playAudioFromApi_outcomes (SpeechOk (JsonOk data) None)
              (usage_example def) (Some item) sy) as (Hreq & _ & _ & Hgood).
  destruct Hgood as (Hp & Hl & _);
    [unfold speech_fails; rewrite Hok, Hurl; reflexivity|rewrite Hc1; eauto|].
  rewrite <- Hs2 in Hreq, Hp, Hl. rewrite Hc1 in Hreq.
  destruct (fire_loadedmetadata_player (Some D) s2) as [Hv _]. fold s3 in Hv.
  unfold player_view in Hv.
  assert (isAudioPlaying s3 = true ∧ locked s3 = true) as [Hp3 Hl3]
    by (split; congruence).
  eexists. exists card1. split; [exact Hc1|]. split; [exact Hreq|].
  split; [exact Hsess|]. cbn [th_wordSpans th_timePerWord].
  split; [exact Hlen|]. split; [rewrite <- Hlen; exact Hn|].
  split; [reflexivity|]. split; assumption.
Qed.

Lemma example_play_schedules_words_witness :
  let s := example_page in
  let card := set_id 2 card_C in
  let def := mkCardDefinition "cuidar" "They look after the dog" "Cuidan al perro" None in
  let data := mkSpeechData true (Some "/card_audio/phrasal_verbs/daily/c.mp3") in
  let D := (5 # 1)%Q in
  let s1 := loadCard example_world 2 false s in
  let s2 := playSingleExample (SpeechOk (JsonOk data) None) 0 s1 in
  let s3 := fire_loadedmetadata (Some D) s2 in
  card_at s 2 = Some card
  ∧ definitions card !! 0%nat = Some def
  ∧ ¬ (D == 0)%Q
  ∧ ∃ h, in_session s3 h (-1)
         ∧ length (th_wordSpans h) = 5%nat
         ∧ th_timePerWord h = round64 (D / inject_Z 5)
         ∧ isAudioPlaying s3 = true.
Proof.
  cbv zeta.
  assert (card_at example_page 2 = Some (set_id 2 card_C)) as Hcard
    by (vm_compute; reflexivity).
  assert (definitions (set_id 2 card_C) !! 0%nat
          = Some (mkCardDefinition "cuidar" "They look after the dog"
                    "Cuidan al perro" None)) as Hdef by reflexivity.
  assert (¬ ((5 # 1) == 0)%Q) as HD by discriminate.
  destruct (example_play_schedules_words example_world 2 false example_page _ 0 _
              (mkSpeechData true (Some "/card_audio/phrasal_verbs/daily/c.mp3"))
              (5 # 1)%Q Hcard Hdef eq_refl eq_refl HD)
    as (h & card1 & _ & _ & H1 & H2 & _ & H3 & H4 & _).
  split; [exact Hcard|]. split; [exact Hdef|]. split; [exact HD|].
  exists h. split; [exact H1|]. split; [exact H2|]. split; [exact H3|exact H4].
Defined.

(** * Play requests that overlap *)

(** A play request followed to its end is its first half followed at once by
    its second half: in a [session] no other operation comes between the
    two. *)
Lemma playAudioFromApi_split o text item s :
  playAudioFromApi o text item s
  = match play_click text item s with
    | (s1, Some call) => play_response o call item s1
    | (s1, None) => s1
    end.
Proof.
  unfold playAudioFromApi, play_click, play_response, play_try.
  destruct (play_send text (play_begin item s)); reflexivity.
Qed.

Lemma play_click_pending text item s card :
  card_at s (currentIndex s) = Some card →
  play_click text item s
  = (send (speech_request text card) (play_begin item s), Some (calls s)).
Proof.
  intros Hcard. unfold play_click, play_send.
  assert (card_at (play_begin item s) (currentIndex (play_begin item s))
          = Some card) as ->.
  { pose proof (play_begin_controls item s) as Hc.
    rewrite (card_at_frame s _ _ Hc (play_begin_heap _ s)).
    rewrite (controls_currentIndex s _ Hc). exact Hcard. }
  reflexivity.
Qed.

Lemma play_response_started o call item b :
  starts_playback o = true →
  let s := play_response o call item b in
  isAudioPlaying s = true
  ∧ paused (audioPlayer s) = false
  ∧ is_Some (src (audioPlayer s))
  ∧ shown s = Some ("▶️ Reproduciendo...", false)
  ∧ active_example_line (dom s) = active_example_line (dom b)
  ∧ highlighted_word (dom s) = highlighted_word (dom b)
  ∧ ontimeupdate (audioPlayer s) = ontimeupdate (audioPlayer b).
Proof.
  intros Ho. cbv zeta. unfold play_response, play_answer, play_end.
  destruct o as [m|[e|m]|[d|m] [pb|]]; try discriminate.
  cbn in Ho. rewrite Ho.
  destruct item as [e|]; [destruct (String.eqb (tagName e) "LI")|];
    (split; [reflexivity|]); (split; [reflexivity|]);
    (split; [eexists; reflexivity|]); (split; [reflexivity|]);
    (split; [reflexivity|]); split; reflexivity.
Qed.

(** X24. The script does not cancel a call whose request is pending.  When a
    second play request is made before the first one is answered, the second
    call runs its prelude and the answer of the first, arriving afterwards,
    is handled as if nothing had happened: the first call assigns its
    metadata and ended handlers and starts its playback, while the line of
    the second call is the one marked as active. *)
Theorem pending_session_takes_over
    (s : State) (card : Card) (textA textB : string)
    (itemA itemB : option Elem) (oA : SpeechOutcome) :
  card_at s (currentIndex s) = Some card →
  starts_playback oA = true →
  let a := calls s in
  let s1 := fst (play_click textA itemA s) in
  let s2 := fst (play_click textB itemB s1) in
  let s3 := play_response oA a itemA s2 in
  snd (play_click textA itemA s) = Some a
  ∧ snd (play_click textB itemB s1) = Some (S a)
  ∧ requests s2
    = (requests s ++ [speech_request textA card; speech_request textB card])%list
  ∧ (isAudioPlaying s2 = false ∧ ontimeupdate (audioPlayer s2) = None)
  ∧ isAudioPlaying s3 = true
  ∧ paused (audioPlayer s3) = false
  ∧ is_Some (src (audioPlayer s3))
  ∧ onended (audioPlayer s3) = Some (mkEndedHandler a (uid <$> itemA))
  ∧ (∀ e, itemA = Some e →
       onloadedmetadata (audioPlayer s3)
       = Some (mkMetaHandler a (wordSpans_of e)))
  ∧ (∀ e, itemB = Some e → uid e ∈ active_example_line (dom s3)).
Proof.
  intros Hcard Ho a s1 s2 s3.
  pose proof (play_click_pending textA itemA s card Hcard) as H1.
  assert (s1 = send (speech_request textA card) (play_begin itemA s)) as Hs1
    by (unfold s1; rewrite H1; reflexivity).
  assert (card_at s1 (currentIndex s1) = Some card) as Hcard1.
  { rewrite Hs1.
    pose proof (play_begin_controls itemA s) as Hc.
    pose proof (controls_send (speech_request textA card) (play_begin itemA s)
                  eq_refl) as Hc'.
    rewrite (card_at_frame (play_begin itemA s) _ _ Hc' eq_refl).
    rewrite (controls_currentIndex _ _ Hc').
    rewrite (card_at_frame s _ _ Hc (play_begin_heap _ s)).
    rewrite (controls_currentIndex s _ Hc). exact Hcard. }
  pose proof (play_click_pending textB itemB s1 card Hcard1) as H2.
  assert (calls s1 = S a) as Hcalls.
  { rewrite Hs1. pose proof (play_begin_audio itemA s) as (_ & _ & _ & _ & _ & Hc & _).
    exact Hc. }
  assert (s2 = send (speech_request textB card) (play_begin itemB s1)) as Hs2
    by (unfold s2; rewrite H2; reflexivity).
  pose proof (play_begin_audio itemB s1) as (Ht2 & _ & _ & _ & Hi2 & _).
  cbv zeta in Ht2, Hi2.
  pose proof (play_response_started oA a itemA s2 Ho)
    as (Hp & Hpa & Hsrc & _ & Hline & _).
  pose proof (play_answer_handlers oA a itemA s2) as [Hm He].
  cbv zeta in Hp, Hpa, Hsrc, Hline, Hm, He. fold s3 in Hp, Hpa, Hsrc, Hline.
  assert (audioPlayer s3 = audioPlayer (state_of (play_answer oA a itemA s2)))
    as Haudio by apply play_end_audio.
  assert (has_audio oA = true) as Hha.
  { destruct oA as [m|[e|m]|[d|m] [pb|]]; try discriminate. exact Ho. }
  split; [rewrite H1; reflexivity|].
  split; [rewrite H2, Hcalls; reflexivity|].
  split.
  { rewrite Hs2. unfold send at 1. cbn [requests set_requests].
    rewrite play_begin_requests, Hs1. unfold send at 1. cbn [requests set_requests].
    rewrite play_begin_requests, <- app_assoc. reflexivity. }
  split; [rewrite Hs2; split; assumption|].
  split; [exact Hp|]. split; [exact Hpa|]. split; [exact Hsrc|].
  split; [rewrite Haudio, He, Ho; reflexivity|].
  split; [intros e ->; rewrite Haudio, Hm, Hha; reflexivity|].
  intros e ->. rewrite Hline, Hs2.
  change (active_example_line (dom (send _ ?b))) with (active_example_line (dom b)).
  pose proof (play_begin_lines (Some e) s1) as Hl.
  apply lines_fields in Hl as [-> _]. set_solver.
Qed.

Lemma pending_session_takes_over_witness :
  let s := example_page in
  let itemA := Some (nameElement (dom s)) in
  let itemB := example_item s in
  let s1 := fst (play_click "get up" itemA s) in
  let s2 := fst (play_click "I get up early" itemB s1) in
  let s3 := play_response example_speech 0 itemA s2 in
  card_at s (currentIndex s) = Some (set_id 0 card_A)
  ∧ starts_playback example_speech = true
  ∧ snd (play_click "I get up early" itemB s1) = Some 1%nat
  ∧ isAudioPlaying s3 = true
  ∧ onended (audioPlayer s3) = Some (mkEndedHandler 0 (Some 0%nat))
  ∧ onloadedmetadata (audioPlayer s3) = Some (mkMetaHandler 0 [1%nat; 2%nat])
  ∧ active_example_line (dom s3) ∩ attached (dom s3) = {[3%nat]}.
Proof.
  cbv zeta.
  assert (card_at example_page (currentIndex example_page) = Some (set_id 0 card_A))
    as Hcard by (vm_compute; reflexivity).
  destruct (pending_session_takes_over example_page _ "get up" "I get up early"
              (Some (nameElement (dom example_page))) (example_item example_page)
              example_speech Hcard eq_refl)
    as (_ & H1 & _ & _ & H2 & _ & _ & H3 & H4 & _).
  split; [exact Hcard|]. split; [reflexivity|]. split; [exact H1|].
  split; [exact H2|]. split; [exact H3|].
  split; [etrans; [exact (H4 _ eq_refl)|vm_compute; reflexivity]|].
  vm_compute. reflexivity.
Defined.

(** Two words highlighted at once.  On the first card the name is played and,
    before the request is answered, the first example: the name starts to
    play and its first word is highlighted; then the answer for the example
    arrives and the first word of the example is highlighted as well, the
    word of the name keeping its highlight. *)
Example overlapping_requests_two_words :
  let s := example_page in
  let itemA := Some (nameElement (dom s)) in
  let itemB := example_item s in
  let s1 := fst (play_click "get up" itemA s) in
  let s2 := fst (play_click "I get up early" itemB s1) in
  let s3 := fire_timeupdate (1 # 2)
              (fire_loadedmetadata (Some (2 # 1)%Q)
                 (play_response example_speech 0 itemA s2)) in
  let s4 := fire_timeupdate (1 # 2)
              (fire_loadedmetadata (Some (4 # 1)%Q)
                 (play_response example_speech 1 itemB s3)) in
  highlighted_words s2 = ∅
  ∧ highlighted_words s3 = {[1%nat]}
  ∧ highlighted_words s4 = {[1%nat; 6%nat]}
  ∧ size (highlighted_words s4) = 2%nat.
Proof. vm_compute. repeat split. Qed.
